(** * golpm: the power meter of [pkg/meter]

    A shallow embedding of [Meter] (the sample and derivative FIFO buffers,
    the pulse detector and the update callbacks) and the properties of it
    that the specification states.

    Conventions.
    - [time.Time] is an instant counted in nanoseconds, a [Z];
      [time.Duration] is a signed 64-bit count of nanoseconds, a [Z] with
      the saturation of [Time.Sub] written out.
    - [float64] is Rocq's primitive binary64 [float]; every arithmetic
      operation of the source is the IEEE operation of the same name.
    - Go's [int] indices are [Z] (a pulse index goes negative during
      eviction); slices are lists; an index expression that would panic
      evaluates to [None].
    - A callback is a name; invoking it is recorded in a trace of calls. *)

From Stdlib Require Import ZArith Bool Floats.
From stdpp Require Import base option list sorting.

Local Open Scope Z_scope.

(** ** Time *)

Module Time.

Definition Time := Z.
Definition Duration := Z.

Definition Second : Duration := 1000000000.
Definition minDuration : Duration := - 2 ^ 63.
Definition maxDuration : Duration := 2 ^ 63 - 1.

(** [t.After(u)] *)
Definition After (t u : Time) : bool := u <? t.

(** [t.Add(d)] *)
Definition Add (t : Time) (d : Duration) : Time := t + d.

(** [t.Sub(u)]: the difference, or the nearest representable duration
    when it does not fit. *)
Definition Sub (t u : Time) : Duration :=
  if t - u <? minDuration then minDuration
  else if maxDuration <? t - u then maxDuration
  else t - u.

(** Unary minus on an [int64]: only [minDuration] has no opposite. *)
Definition neg (d : Duration) : Duration :=
  if d =? minDuration then minDuration else - d.

(** [float64(i)] for an [int64] [i]. *)
Definition float_of_int (i : Z) : float :=
  if i <? 0 then PrimFloat.opp (PrimFloat.of_uint63 (Uint63.of_Z (- i)))
  else PrimFloat.of_uint63 (Uint63.of_Z i).

(** [d.Seconds()]: [float64(d / Second) + float64(d % Second) / 1e9],
    with Go's truncated division. *)
Definition Seconds (d : Duration) : float :=
  PrimFloat.add (float_of_int (Z.quot d Second))
                (PrimFloat.div (float_of_int (Z.rem d Second)) 1e9%float).

(** [time.Duration(x)] for a [float64] [x]: truncation toward zero; a value
    that is not a finite number within [int64] gives [minDuration], as the
    conversion instruction of amd64 does. *)
Definition Duration_of_float (x : float) : Duration :=
  match Prim2SF x with
  | S754_zero _ => 0
  | S754_finite s m e =>
      let a := if 0 <=? e then Z.pos m * 2 ^ e else Z.pos m / 2 ^ (- e) in
      let v := if s then - a else a in
      if (v <? minDuration) || (maxDuration <? v) then minDuration else v
  | _ => minDuration
  end.

End Time.

Import Time.

(** ** Data *)

(** [sample.Sample] *)
Record Sample := mkSample {
  Timestamp : Time;
  Reading : float;
  Voltage : float;
  HeaterPower : float;
}.

(** [meter.Pulse] *)
Record Pulse := mkPulse {
  StartIndex : Z;
  EndIndex : Z;
  StartTime : Time;
  EndTime : Time;
  RawValue : float;
  Power : float;
}.

(** A registered callback, by name. *)
Definition Callback := nat.

(** One invocation [cb(samplesCopy, derivativesCopy, pulsesCopy)]. *)
Record Call := mkCall {
  callee : Callback;
  samplesCopy : list Sample;
  derivativesCopy : list float;
  pulsesCopy : list Pulse;
}.

(** [config.MeasurementConfig], the fields [New] reads. *)
Record MeasurementConfig := mkMeasurementConfig {
  WindowSeconds : float;
  PulseThreshold : float;
  MinPulseDuration : float;
}.

(** [meter.Meter], without its locks. A [nil] callback is [None]. *)
Record Meter := mkMeter {
  samples : list Sample;
  derivatives : list float;
  pulses : list Pulse;
  callbacks : list (option Callback);
  windowDuration : Duration;
  threshold : float;
  minPulseDuration : Duration;
  shutdown : bool;
}.

(** ** Slices *)

(** [len(l)] *)
Definition len {A} (l : list A) : Z := Z.of_nat (length l).

(** [l[i]]: [None] is the run-time panic of an index out of range. *)
Definition index {A} (l : list A) (i : Z) : option A :=
  if i <? 0 then None else l !! Z.to_nat i.

(** [l[k:]] for [0 <= k <= len(l)]. *)
Definition slice_from {A} (k : Z) (l : list A) : list A := drop (Z.to_nat k) l.

(** [l[i] = x] for a valid index [i]. *)
Definition set_index {A} (l : list A) (i : Z) (x : A) : list A :=
  <[Z.to_nat i := x]> l.

(** ** The meter *)

(** A meter with empty buffers and the given configuration. *)
Definition empty_meter (w : Duration) (thr : float) (mn : Duration) : Meter :=
  {| samples := []; derivatives := []; pulses := []; callbacks := [];
     windowDuration := w; threshold := thr; minPulseDuration := mn;
     shutdown := false |}.

(** [New(cfg)] *)
Definition New (cfg : MeasurementConfig) : Meter :=
  empty_meter
    (Duration_of_float (PrimFloat.mul (WindowSeconds cfg) (float_of_int Second)))
    (PulseThreshold cfg)
    (Duration_of_float (PrimFloat.mul (MinPulseDuration cfg) (float_of_int Second))).

(** The eviction loop of [processSample]:
    [for i, sample := range m.samples { if sample.Timestamp.After(cutoffTime)
    { cutoffIndex = i; break } }], started at index [i] on the rest [ss] of
    the buffer. When no sample is after the cutoff, [cutoffIndex] keeps its
    initial value 0. *)
Fixpoint cutoff_loop (cutoffTime : Time) (ss : list Sample) (i : Z) : Z :=
  match ss with
  | [] => 0
  | s :: rest =>
      if After (Timestamp s) cutoffTime then i
      else cutoff_loop cutoffTime rest (i + 1)
  end.

Definition cutoffIndex (cutoffTime : Time) (ss : list Sample) : Z :=
  cutoff_loop cutoffTime ss 0.

(** [m.pulses[i].StartIndex -= k; m.pulses[i].EndIndex -= k] *)
Definition shift_pulse (k : Z) (p : Pulse) : Pulse :=
  {| StartIndex := StartIndex p - k; EndIndex := EndIndex p - k;
     StartTime := StartTime p; EndTime := EndTime p;
     RawValue := RawValue p; Power := Power p |}.

Definition index_nonneg (p : Pulse) : bool :=
  (0 <=? StartIndex p) && (0 <=? EndIndex p).

(** The eviction block of [processSample], run after the new sample has been
    appended: drops the samples before the cutoff index, as many leading
    derivatives, and renumbers the pulses. *)
Definition evict (now : Time) (m : Meter) : Meter :=
  let cutoffTime := Add now (neg (windowDuration m)) in
  let k := cutoffIndex cutoffTime (samples m) in
  if 0 <? k then
    {| samples := slice_from k (samples m);
       derivatives :=
         if k <=? len (derivatives m) then slice_from k (derivatives m) else [];
       pulses := List.filter index_nonneg (map (shift_pulse k) (pulses m));
       callbacks := callbacks m;
       windowDuration := windowDuration m;
       threshold := threshold m;
       minPulseDuration := minPulseDuration m;
       shutdown := shutdown m |}
  else m.

Definition with_derivatives (ds : list float) (m : Meter) : Meter :=
  {| samples := samples m; derivatives := ds; pulses := pulses m;
     callbacks := callbacks m; windowDuration := windowDuration m;
     threshold := threshold m; minPulseDuration := minPulseDuration m;
     shutdown := shutdown m |}.

Definition with_pulses (ps : list Pulse) (m : Meter) : Meter :=
  {| samples := samples m; derivatives := derivatives m; pulses := ps;
     callbacks := callbacks m; windowDuration := windowDuration m;
     threshold := threshold m; minPulseDuration := minPulseDuration m;
     shutdown := shutdown m |}.

(** The derivative of the pair [(prev, curr)]. *)
Definition derivative_of (prev curr : Sample) : float :=
  PrimFloat.div (PrimFloat.sub (Reading curr) (Reading prev))
                (Seconds (Sub (Timestamp curr) (Timestamp prev))).

(** The derivative block of [processSample]. *)
Definition update_derivative (m : Meter) : option Meter :=
  if 2 <=? len (samples m) then
    let lastIdx := len (samples m) - 1 in
    prev ← index (samples m) (lastIdx - 1);
    curr ← index (samples m) lastIdx;
    let dt := Seconds (Sub (Timestamp curr) (Timestamp prev)) in
    if PrimFloat.ltb 0 dt then
      let ds := derivatives m ++ [derivative_of prev curr] in
      Some (with_derivatives
              (if len (samples m) - 1 <? len ds then slice_from 1 ds else ds) m)
    else Some m
  else Some m.

(** The search for the active pulse in [updatePulses]:
    [for i := len(m.pulses) - 1; i >= 0; i-- { if m.pulses[i].EndIndex ==
    lastSampleIdx-1 { activePulseIdx = i; break } }], with [n] the number of
    indices still to visit; -1 when the loop finds none. *)
Fixpoint find_active (ps : list Pulse) (n : nat) (target : Z) : Z :=
  match n with
  | O => -1
  | S i =>
      match ps !! i with
      | Some p => if EndIndex p =? target then Z.of_nat i
                  else find_active ps i target
      | None => find_active ps i target
      end
  end.

(** [p.EndIndex = i; p.EndTime = t; p.RawValue = d] *)
Definition extend_pulse (p : Pulse) (i : Z) (t : Time) (d : float) : Pulse :=
  {| StartIndex := StartIndex p; EndIndex := i;
     StartTime := StartTime p; EndTime := t;
     RawValue := d; Power := Power p |}.

(** The computation of [shouldStart] in [updatePulses]. *)
Definition should_start (m : Meter) (lastDerivIdx lastSampleIdx : Z)
  : option bool :=
  if 0 <? lastDerivIdx then
    prevDeriv ← index (derivatives m) (lastDerivIdx - 1);
    if PrimFloat.ltb (threshold m) prevDeriv then
      if 0 <? len (pulses m) then
        lastPulse ← index (pulses m) (len (pulses m) - 1);
        Some (EndIndex lastPulse + 1 <? lastSampleIdx - 1)
      else Some false
    else Some true
  else Some true.

(** The body of [if isHeating { ... }] in [updatePulses]: the pulse list
    after an active pulse has been extended or a new pulse started. *)
Definition heating (m : Meter) (lastDerivIdx : Z) (lastDeriv : float)
    (lastSampleIdx : Z) : option (list Pulse) :=
  let activePulseIdx :=
    find_active (pulses m) (length (pulses m)) (lastSampleIdx - 1) in
  if 0 <=? activePulseIdx then
    p ← index (pulses m) activePulseIdx;
    s ← index (samples m) lastSampleIdx;
    Some (set_index (pulses m) activePulseIdx
            (extend_pulse p lastSampleIdx (Timestamp s) lastDeriv))
  else
    shouldStart ← should_start m lastDerivIdx lastSampleIdx;
    if shouldStart : bool then
      let startIdx := if lastSampleIdx - 1 <? 0 then 0 else lastSampleIdx - 1 in
      s0 ← index (samples m) startIdx;
      s1 ← index (samples m) lastSampleIdx;
      Some (pulses m ++
              [ {| StartIndex := startIdx; EndIndex := lastSampleIdx;
                   StartTime := Timestamp s0; EndTime := Timestamp s1;
                   RawValue := lastDeriv; Power := 0%float |} ])
    else if 0 <? len (pulses m) then
      let lastPulseIdx := len (pulses m) - 1 in
      lastPulse ← index (pulses m) lastPulseIdx;
      if lastSampleIdx <=? EndIndex lastPulse + 2 then
        s ← index (samples m) lastSampleIdx;
        Some (set_index (pulses m) lastPulseIdx
                (extend_pulse lastPulse lastSampleIdx (Timestamp s) lastDeriv))
      else Some (pulses m)
    else Some (pulses m).

(** [pulse.EndTime.Sub(pulse.StartTime)] *)
Definition duration (p : Pulse) : Duration := Sub (EndTime p) (StartTime p).

(** The test of the final loop of [updatePulses]: the start index is inside
    the buffer and the pulse is not shorter than the minimum duration. *)
Definition keep_pulse (nsamples : Z) (mn : Duration) (p : Pulse) : bool :=
  ((0 <=? StartIndex p) && (StartIndex p <? nsamples)) && (mn <=? duration p).

(** The pulse list of [updatePulses] before its final filtering loop. *)
Definition detect (m : Meter) : option (list Pulse) :=
  let lastDerivIdx := len (derivatives m) - 1 in
  lastDeriv ← index (derivatives m) lastDerivIdx;
  let lastSampleIdx := len (samples m) - 1 in
  if PrimFloat.ltb (threshold m) lastDeriv
  then heating m lastDerivIdx lastDeriv lastSampleIdx
  else Some (pulses m).

(** [m.updatePulses()] *)
Definition updatePulses (m : Meter) : option Meter :=
  if len (derivatives m) =? 0 then Some m
  else
    ps ← detect m;
    Some (with_pulses
            (List.filter (keep_pulse (len (samples m)) (minPulseDuration m)) ps)
            m).

(** [m.notifyCallbacks()]: one call per callback that is not [nil], in
    registration order, each on the same copies of the buffers. *)
Definition notifyCallbacks (m : Meter) : list Call :=
  omap (fun cb : option Callback =>
          c ← cb; Some (mkCall c (samples m) (derivatives m) (pulses m)))
       (callbacks m).

(** [m.samples = append(m.samples, s)] *)
Definition append_sample (s : Sample) (m : Meter) : Meter :=
  {| samples := samples m ++ [s]; derivatives := derivatives m;
     pulses := pulses m; callbacks := callbacks m;
     windowDuration := windowDuration m; threshold := threshold m;
     minPulseDuration := minPulseDuration m; shutdown := shutdown m |}.

(** [m.processSample(s)]: the new state and the callbacks invoked, or [None]
    if an index expression panics. *)
Definition processSample (s : Sample) (m : Meter) : option (Meter * list Call) :=
  let m1 := evict (Timestamp s) (append_sample s m) in
  m2 ← update_derivative m1;
  m3 ← updatePulses m2;
  let shouldNotify := negb (shutdown m3) in
  Some (m3, if shouldNotify then notifyCallbacks m3 else []).

(** The loop [for s := range input { m.processSample(s) }] on the samples
    [input] delivers before it is closed, with the trace of all calls. *)
Fixpoint process_all (input : list Sample) (m : Meter)
  : option (Meter * list Call) :=
  match input with
  | [] => Some (m, [])
  | s :: rest =>
      '(m1, t1) ← processSample s m;
      '(m2, t2) ← process_all rest m1;
      Some (m2, t1 ++ t2)
  end.

Definition set_shutdown (b : bool) (m : Meter) : Meter :=
  {| samples := samples m; derivatives := derivatives m; pulses := pulses m;
     callbacks := callbacks m; windowDuration := windowDuration m;
     threshold := threshold m; minPulseDuration := minPulseDuration m;
     shutdown := b |}.

(** [m.ProcessSamples(input)]: drains the channel, then sets [shutdown]. *)
Definition ProcessSamples (input : list Sample) (m : Meter)
  : option (Meter * list Call) :=
  '(m1, t) ← process_all input m;
  Some (set_shutdown true m1, t).

(** [m.ResetShutdown()] *)
Definition ResetShutdown (m : Meter) : Meter := set_shutdown false m.

(** [m.OnUpdate(callback)] *)
Definition OnUpdate (callback : option Callback) (m : Meter) : Meter :=
  {| samples := samples m; derivatives := derivatives m; pulses := pulses m;
     callbacks := callbacks m ++ [callback];
     windowDuration := windowDuration m; threshold := threshold m;
     minPulseDuration := minPulseDuration m; shutdown := shutdown m |}.

(** [m.Samples()], [m.Derivatives()], [m.Pulses()]: copies of the buffers. *)
Definition Samples (m : Meter) : list Sample := samples m.
Definition Derivatives (m : Meter) : list float := derivatives m.
Definition Pulses (m : Meter) : list Pulse := pulses m.

(** The state after [input] has been processed, trace dropped. *)
Definition state_after (input : list Sample) (m : Meter) : option Meter :=
  fst <$> process_all input m.

(** Timestamps strictly increasing along the input. *)
Definition increasing (input : list Sample) : Prop :=
  Sorted (fun a b => Timestamp a < Timestamp b) input.

(** Every two consecutive samples of the input are less than [d] apart. *)
Definition spacing_below (d : Duration) (input : list Sample) : Prop :=
  Sorted (fun a b => Timestamp b - Timestamp a < d) input.

(** A meter that has not processed a sample yet. *)
Definition fresh (m : Meter) : Prop :=
  samples m = [] /\ derivatives m = [] /\ pulses m = [].

(** The indices of a pulse lie in a buffer of [n] samples, in order. *)
Definition idx_ok (n : Z) (p : Pulse) : Prop :=
  0 <= StartIndex p /\ StartIndex p <= EndIndex p /\ EndIndex p < n.

(** The invariant of a retained pulse in a buffer of [n] samples. *)
Definition pulse_ok (n : Z) (mn : Duration) (p : Pulse) : Prop :=
  idx_ok n p /\ mn <= duration p.

Definition pulses_ok (m : Meter) : Prop :=
  Forall (pulse_ok (len (samples m)) (minPulseDuration m)) (pulses m).

(** The sample is at or before the cutoff: the eviction loop passes it. *)
Definition not_after (c : Time) (s : Sample) : Prop :=
  After (Timestamp s) c = false.

(** The callbacks one notification invokes: those registered that are not
    [nil], in order. *)
Definition live_callbacks (m : Meter) : list Callback := omap id (callbacks m).

(** The derivatives of the consecutive pairs of a buffer. *)
Fixpoint derivatives_of (ss : list Sample) : list float :=
  match ss with
  | a :: (b :: _) as rest => derivative_of a b :: derivatives_of rest
  | _ => []
  end.

(** The elapsed time the code measures between consecutive samples is
    positive along the input. *)
Definition positively_spaced (input : list Sample) : Prop :=
  Sorted (fun a b =>
            PrimFloat.ltb 0 (Seconds (Sub (Timestamp b) (Timestamp a))) = true)
         input.

(** ** Binary64 values

    The specification of the primitive floats ([SpecFloat]) at the format
    of [float64]. *)

(** The least exponent of the format. *)
Abbreviation emin64 := (SpecFloat.emin prec emax).

(** A float of sign [s] other than zero. *)
Definition sf_signed (s : bool) (x : spec_float) : Prop :=
  match x with
  | S754_finite s' _ _ | S754_infinity s' => s' = s
  | _ => False
  end.

(** [1e9], the divisor of [Seconds]. *)
Definition billion_sf : spec_float := S754_finite false 8388608000000000 (-23).

(** A float that is [+0] or has sign [s] and is not zero. *)
Definition sf_zero_or (s : bool) (x : spec_float) : Prop :=
  x = S754_zero false \/ sf_signed s x.

(** The sign of an integer, as a float sign. *)
Definition sign_of (z : Z) : bool := z <? 0.

(** ** Concrete runs *)

Definition ms : Duration := 1000000.

(** The sample read [t] milliseconds after the start of a run. *)
Definition at_ms (t : Z) (reading : float) : Sample :=
  {| Timestamp := t * ms; Reading := reading; Voltage := 2; HeaterPower := 0 |}.

(** A configuration with a window of [w] seconds, a threshold of 0.5 V/s and
    the default minimum pulse duration of one second. *)
Definition config_with_window (w : float) : MeasurementConfig :=
  {| WindowSeconds := w; PulseThreshold := 0.5; MinPulseDuration := 1 |}.

(** The state in which [processSample s] calls [updatePulses], after [input]
    has been processed. *)
Definition before_updatePulses (input : list Sample) (s : Sample) (m0 : Meter)
  : option Meter :=
  m ← state_after input m0;
  update_derivative (evict (Timestamp s) (append_sample s m)).

(** The meter of [config_with_window] with a window of [w] milliseconds
    holding the given buffers. *)
Definition meter_with (w : Z) (ss : list Sample) (ds : list float)
    (ps : list Pulse) : Meter :=
  {| samples := ss; derivatives := ds; pulses := ps; callbacks := [];
     windowDuration := w * ms; threshold := 0.5;
     minPulseDuration := 1000 * ms; shutdown := false |}.

(** [n] samples 100 ms apart, the reading rising at 10 V/s. *)
Definition fast_run (n : nat) : list Sample :=
  map (fun i => at_ms (100 * Z.of_nat i) (float_of_int (Z.of_nat i))) (seq 0 n).

(** The run [fast_run] when [updatePulses] is called for its second sample. *)
Definition short_state : Meter :=
  meter_with 10000 (fast_run 2) [10%float] [].

Definition short_pulse : Pulse :=
  {| StartIndex := 0; EndIndex := 1; StartTime := 0; EndTime := 100 * ms;
     RawValue := 10; Power := 0 |}.

(** The third sample of the same run, had [short_pulse] been retained. *)
Definition short_state_next : Meter :=
  meter_with 10000 (fast_run 3) [10%float; 10%float] [short_pulse].

Definition first_pulse : Pulse :=
  {| StartIndex := 0; EndIndex := 1; StartTime := 0; EndTime := 1000 * ms;
     RawValue := 1; Power := 0 |}.

Definition second_pulse : Pulse :=
  {| StartIndex := 2; EndIndex := 3; StartTime := 2000 * ms;
     EndTime := 3000 * ms; RawValue := 1; Power := 0 |}.

(** Samples one second apart: a rise of 1 V/s, a flat second, a rise again. *)
Definition dip_state : Meter :=
  meter_with 10000 [at_ms 0 0; at_ms 1000 1; at_ms 2000 1; at_ms 3000 2]
             [1%float; 0%float; 1%float] [first_pulse].

(** Samples one second apart, the reading rising at 1 V/s throughout. *)
Definition rising_state : Meter :=
  meter_with 10000 [at_ms 0 0; at_ms 1000 1; at_ms 2000 2] [1%float; 1%float]
             [first_pulse].



(** ** Invariants of the buffers and of the pulse list *)

(** There are never more derivatives than pairs of consecutive samples. *)
Definition derivatives_bounded (m : Meter) : Prop :=
  len (derivatives m) <= Z.max 0 (len (samples m) - 1).

(** The derivative block left the buffer as it was or appended one value. *)
Definition appended_one (before after : list float) : Prop :=
  after = before \/ exists d, after = before ++ [d].

(** The times a pulse records are the timestamps of the samples at its
    indices. *)
Definition times_ok (ss : list Sample) (p : Pulse) : Prop :=
  Timestamp <$> index ss (StartIndex p) = Some (StartTime p)
  /\ Timestamp <$> index ss (EndIndex p) = Some (EndTime p).

(** Each pulse of the list ends before every later one starts. *)
Definition disjoint (ps : list Pulse) : Prop :=
  StronglySorted (fun p q => EndIndex p < StartIndex q) ps.

(** What every pulse of the list satisfies, whatever the input. *)
Definition well_formed (ss : list Sample) (thr : float) (p : Pulse) : Prop :=
  times_ok ss p /\ StartIndex p < EndIndex p /\ Power p = 0%float
  /\ PrimFloat.ltb thr (RawValue p) = true.

(** The invariant of the buffers and the pulse list that [processSample]
    keeps on every input. *)
Definition pulses_consistent (m : Meter) : Prop :=
  derivatives_bounded m
  /\ Forall (well_formed (samples m) (threshold m)) (pulses m)
  /\ disjoint (pulses m).

(** Every derivative between the indices of the pulse is above the
    threshold, and [RawValue] is the last of them. *)
Definition covers (ds : list float) (thr : float) (p : Pulse) : Prop :=
  (forall i, StartIndex p <= i < EndIndex p ->
     exists d, index ds i = Some d /\ PrimFloat.ltb thr d = true)
  /\ index ds (EndIndex p - 1) = Some (RawValue p).

(** Timestamps that never go back along the input. *)
Definition nondecreasing (input : list Sample) : Prop :=
  Sorted (fun a b => Timestamp a <= Timestamp b) input.

(** After an update that saw a derivative above the threshold, no pulse ends
    at the sample before the latest one: such a pulse has been extended. *)
Definition none_left_behind (m : Meter) : Prop :=
  forall d, index (derivatives m) (len (derivatives m) - 1) = Some d ->
    PrimFloat.ltb (threshold m) d = true ->
    Forall (fun p => EndIndex p <> len (samples m) - 2) (pulses m).

(** ** The averaging converter of [pkg/sample] *)

(** The zero [time.Time] (January 1 of year 1, UTC), counted like every
    instant here in nanoseconds from the Unix epoch. *)
Definition zeroTime : Time := -62135596800 * Second.

(** [Sample{}] *)
Definition zeroSample : Sample :=
  {| Timestamp := zeroTime; Reading := 0; Voltage := 0; HeaterPower := 0 |}.

(** [var sum float64; for _, s := range samples { sum += field(s) }] *)
Definition sum_of (field : Sample -> float) (samples : list Sample) : float :=
  fold_left (fun sum s => PrimFloat.add sum (field s)) samples 0%float.

(** [averageConvertedSamples(samples)] *)
Definition averageConvertedSamples (samples : list Sample) : Sample :=
  match last samples with
  | None => zeroSample
  | Some lastSample =>
      let n := float_of_int (len samples) in
      {| Timestamp := Timestamp lastSample;
         Reading := PrimFloat.div (sum_of Reading samples) n;
         Voltage := PrimFloat.div (sum_of Voltage samples) n;
         HeaterPower := PrimFloat.div (sum_of HeaterPower samples) n |}
  end.

(** The goroutine of [NewAveragingConverterForSamples(windowSize, bufSize)]
    and its output channel: the sliding buffer, the values sent on [out] and
    not received yet, and whether the goroutine has returned (and closed
    [out]). *)
Record Averager := mkAverager {
  windowSize : Z;
  bufSize : Z;
  buffer : list Sample;
  out : list Sample;
  returned : bool;
}.

(** What the goroutine and the reader of [out] do next: the [select] takes a
    sample from [in], finds [in] closed or takes a tick of the ticker; the
    reader receives the oldest value of [out]. *)
Inductive Event :=
  | Receive (s : Sample)
  | InputClosed
  | Tick
  | Deliver.

(** [NewAveragingConverterForSamples(windowSize, bufSize)(in)], before the
    goroutine has run. *)
Definition NewAveragingConverterForSamples (windowSize bufSize : Z) : Averager :=
  {| windowSize := if windowSize <=? 0 then 1 else windowSize;
     bufSize := if bufSize <=? 0 then 100 else bufSize;
     buffer := []; out := []; returned := false |}.

Definition with_buffer (b : list Sample) (c : Averager) : Averager :=
  {| windowSize := windowSize c; bufSize := bufSize c; buffer := b;
     out := out c; returned := returned c |}.

Definition with_out (o : list Sample) (c : Averager) : Averager :=
  {| windowSize := windowSize c; bufSize := bufSize c; buffer := buffer c;
     out := o; returned := returned c |}.

(** [select { case out <- avg: default: }]: the value is sent if the channel
    has room and dropped otherwise. *)
Definition trySend (avg : Sample) (c : Averager) : Averager :=
  if len (out c) <? bufSize c then with_out (out c ++ [avg]) c else c.

(** [if len(buffer) > 0 { avg := averageConvertedSamples(buffer); ... }] *)
Definition emit (c : Averager) : Averager :=
  if 0 <? len (buffer c) then trySend (averageConvertedSamples (buffer c)) c
  else c.

(** One event: the new state and the value the reader received, if any. *)
Definition step (e : Event) (c : Averager) : Averager * list Sample :=
  match e with
  | Deliver =>
      match out c with
      | [] => (c, [])
      | x :: rest => (with_out rest c, [x])
      end
  | Receive s =>
      if returned c then (c, [])
      else
        let b := buffer c ++ [s] in
        (with_buffer (if windowSize c <? len b then slice_from 1 b else b) c, [])
  | Tick => if returned c then (c, []) else (emit c, [])
  | InputClosed =>
      if returned c then (c, [])
      else
        let c' := emit c in
        ({| windowSize := windowSize c'; bufSize := bufSize c';
            buffer := buffer c'; out := out c'; returned := true |}, [])
  end.

(** A run of events: the final state and the values received from [out], in
    order. *)
Fixpoint run (events : list Event) (c : Averager) : Averager * list Sample :=
  match events with
  | [] => (c, [])
  | e :: rest =>
      let '(c1, d1) := step e c in
      let '(c2, d2) := run rest c1 in
      (c2, d1 ++ d2)
  end.

(** The samples the goroutine took from [in], in order. *)
Fixpoint received (events : list Event) : list Sample :=
  match events with
  | [] => []
  | Receive s :: rest => s :: received rest
  | InputClosed :: _ => []
  | _ :: rest => received rest
  end.

(** The last [n] elements of a list. *)
Definition last_n {A} (n : Z) (l : list A) : list A :=
  drop (length l - Z.to_nat n) l.

(** The latest sample of the buffer, as a list of at most one sample. *)
Definition latest (b : list Sample) : list Sample :=
  match last b with Some s => [s] | None => [] end.

(** Not later than: the order of the timestamps. *)
Abbreviation older := (fun a b : Sample => Timestamp a <= Timestamp b).

(** ** Downsampling for display ([pkg/sample]) *)

(** [int(x)] for a [float64] [x]: the conversion of [time.Duration(x)], an
    [int] having 64 bits. *)
Definition int_of_float (x : float) : Z := Duration_of_float x.

(** [step := float64(len(samples)) / float64(maxPoints)] *)
Definition decimation_step (n maxPoints : Z) : float :=
  PrimFloat.div (float_of_int n) (float_of_int maxPoints).

(** [idx := int(float64(i) * step)] *)
Definition decimation_index (step : float) (i : Z) : Z :=
  int_of_float (PrimFloat.mul (float_of_int i) step).

(** The loop [for i := range maxPoints { idx := int(float64(i) * step);
    if idx < len(samples) { dst = append(dst, samples[idx]) } }], from [i]
    with [todo] iterations to go. *)
Fixpoint decimate {A} (samples : list A) (step : float) (i : Z) (todo : nat)
    (dst : list A) : option (list A) :=
  match todo with
  | O => Some dst
  | S todo' =>
      let idx := decimation_index step i in
      if idx <? len samples then
        x ← index samples idx;
        decimate samples step (i + 1) todo' (dst ++ [x])
      else decimate samples step (i + 1) todo' dst
  end.

(** [DownsampleSamples(dst, samples, maxPoints)] and
    [DownsampleDerivatives(dst, derivatives, maxPoints)], which differ in the
    type of the elements only: the elements of the slice returned and its
    capacity. [dst] matters through its capacity [dstCap] only, its elements
    being overwritten. *)
Definition downsample {A} (dstCap : Z) (samples : list A) (maxPoints : Z)
  : option (list A * Z) :=
  if len samples <=? maxPoints then
    Some (samples, if len samples <=? dstCap then dstCap else len samples)
  else
    let step := decimation_step (len samples) maxPoints in
    dst ← decimate samples step 0 (Z.to_nat maxPoints) [];
    Some (dst, if maxPoints <=? dstCap then dstCap else maxPoints).

Definition DownsampleSamples : Z -> list Sample -> Z -> option (list Sample * Z) :=
  downsample.

Definition DownsampleDerivatives : Z -> list float -> Z -> option (list float * Z) :=
  downsample.

(** ** Conversion of raw samples ([pkg/sample]) *)

(** [lpm.RawSample] *)
Module lpm.
Record RawSample := mkRawSample {
  Timestamp : Time;
  Reading : Z;
  Voltage : Z;
  Heater1 : bool;
  Heater2 : bool;
  Heater3 : bool;
}.
End lpm.

(** [config.Config], the fields [convertSample] reads. *)
Module config.
Record VoltageDividerConfig := mkVoltageDividerConfig {
  R1 : float;
  R2 : float;
  VRef : float;
}.
Record HeaterConfig := mkHeaterConfig {
  Resistance : float;
}.
Record Config := mkConfig {
  VoltageDivider : VoltageDividerConfig;
  Heaters : list HeaterConfig;
}.
End config.

(** [adcToVoltage(adc, vref)] *)
Definition adcToVoltage (adc : Z) (vref : float) : float :=
  PrimFloat.mul (PrimFloat.div (float_of_int adc) 4095%float) vref.

(** [voltageDivider(vout, r1, r2)] *)
Definition voltageDivider (vout r1 r2 : float) : float :=
  PrimFloat.mul vout (PrimFloat.div (PrimFloat.add r1 r2) r2).

(** One [if heaterN { if heaters[N-1].Resistance > 0 { ... } }] block of
    [calculateHeaterPower]. *)
Definition add_heater (voltage : float) (on : bool) (h : config.HeaterConfig)
    (totalPower : float) : float :=
  if on then
    if PrimFloat.ltb 0 (config.Resistance h) then
      let power := PrimFloat.div (PrimFloat.mul voltage voltage)
                                 (config.Resistance h) in
      PrimFloat.add totalPower power
    else totalPower
  else totalPower.

(** [calculateHeaterPower]: with fewer than three heaters configured the
    result is [0.0]; otherwise [heaters[0]], [heaters[1]] and [heaters[2]]
    are read, which the length test makes safe. *)
Definition calculateHeaterPower (voltage : float) (heater1 heater2 heater3 : bool)
    (heaters : list config.HeaterConfig) : float :=
  match heaters with
  | h0 :: h1 :: h2 :: _ =>
      add_heater voltage heater3 h2
        (add_heater voltage heater2 h1
           (add_heater voltage heater1 h0 0%float))
  | _ => 0%float
  end.

(** [convertSample]; the error it returns is always [nil]. *)
Definition convertSample (cfg : config.Config) (raw : lpm.RawSample) : Sample :=
  let vd := config.VoltageDivider cfg in
  let readingVoltage := adcToVoltage (lpm.Reading raw) (config.VRef vd) in
  let voltageMeasured := adcToVoltage (lpm.Voltage raw) (config.VRef vd) in
  let voltageActual :=
    voltageDivider voltageMeasured (config.R1 vd) (config.R2 vd) in
  let heaterPower :=
    calculateHeaterPower voltageActual (lpm.Heater1 raw) (lpm.Heater2 raw)
      (lpm.Heater3 raw) (config.Heaters cfg) in
  mkSample (lpm.Timestamp raw) readingVoltage voltageActual heaterPower.

(** A float whose sign bit is clear, or a NaN. *)
Definition unsigned (x : spec_float) : Prop :=
  match x with
  | S754_nan => True
  | S754_zero s | S754_infinity s | S754_finite s _ _ => s = false
  end.

(** ** The meter across connections ([handleConnect]) *)

(** What one connection does with the meter in [handleConnect]:
    [ResetShutdown()], [OnUpdate(callback)] with a callback that is not
    [nil], then [ProcessSamples] on the stream of that connection, which
    returns when the stream is closed at the disconnect. *)
Definition connection (cb : Callback) (input : list Sample) (m : Meter)
  : option (Meter * list Call) :=
  ProcessSamples input (OnUpdate (Some cb) (ResetShutdown m)).

(** Successive connections on the same meter, with the trace of each. *)
Fixpoint connections (runs : list (Callback * list Sample)) (m : Meter)
  : option (Meter * list (list Call)) :=
  match runs with
  | [] => Some (m, [])
  | (cb, input) :: rest =>
      '(m1, t) ← connection cb input m;
      '(m2, ts) ← connections rest m1;
      Some (m2, t :: ts)
  end.

(** ** Pulses on the scope ([pkg/scope]) *)

(** What [drawPulses] and [drawPowerLabels] read for one pulse: nothing when
    one of their guards skips the pulse, otherwise the timestamps of
    [samples[pulse.StartIndex]] and [samples[pulse.EndIndex]], between which
    the pulse is drawn. *)
Definition pulse_span (samples : list Sample) (pulse : Pulse)
  : option (Time * Time) :=
  if (StartIndex pulse <? 0) || (len samples <=? StartIndex pulse) then None
  else if (EndIndex pulse <? 0) || (len samples <=? EndIndex pulse) then None
  else
    s0 ← index samples (StartIndex pulse);
    s1 ← index samples (EndIndex pulse);
    Some (Timestamp s0, Timestamp s1).

(** ** Slices and time: basic facts *)

Section Slices.
Context {A : Type}.
Implicit Types (l : list A) (i : Z) (x : A).

Lemma index_Some l i x :
  index l i = Some x <-> 0 <= i /\ l !! Z.to_nat i = Some x.
Proof.
  unfold index. destruct (Z.ltb_spec i 0); split.
  - discriminate.
  - intros [? _]. lia.
  - intros. split; [lia | done].
  - by intros [_ ?].
Qed.

Lemma index_lt l i : 0 <= i < len l -> exists x, index l i = Some x.
Proof.
  intros [H0 H1]. unfold len in H1.
  destruct (lookup_lt_is_Some_2 l (Z.to_nat i)) as [x Hx]; [lia|].
  exists x. apply index_Some. done.
Qed.

Lemma index_bound l i x : index l i = Some x -> 0 <= i < len l.
Proof.
  intros [H0 H1]%index_Some. apply lookup_lt_Some in H1. unfold len. lia.
Qed.

Lemma len_app l1 l2 : len (l1 ++ l2) = len l1 + len l2.
Proof. unfold len. rewrite length_app. lia. Qed.

Lemma len_nonneg l : 0 <= len l.
Proof. unfold len. lia. Qed.

Lemma len_nil_iff l : len l = 0 <-> l = [].
Proof. unfold len. destruct l; simpl; split; intros; try done; lia. Qed.

Lemma len_slice_from k l : 0 <= k <= len l -> len (slice_from k l) = len l - k.
Proof. unfold len, slice_from. intros. rewrite length_drop. lia. Qed.

End Slices.

Lemma Sub_le (t u : Time) : minDuration <= t - u -> Sub t u <= t - u.
Proof.
  unfold Sub. intros.
  destruct (Z.ltb_spec (t - u) minDuration); [lia|].
  destruct (Z.ltb_spec maxDuration (t - u)); lia.
Qed.

Lemma Sub_self (t : Time) : Sub t t = 0.
Proof. unfold Sub. rewrite Z.sub_diag. reflexivity. Qed.

Lemma neg_pos (d : Duration) : 0 < d -> neg d = - d.
Proof.
  unfold neg. intros. destruct (Z.eqb_spec d minDuration) as [->|]; [|done].
  unfold minDuration in *. lia.
Qed.

Lemma len_pos {A} (l : list A) : l <> [] -> 0 < len l.
Proof. destruct l; [done|]. unfold len. simpl. lia. Qed.

Lemma index_last_two {A} (front : list A) a b :
  index (front ++ [a; b]) (len (front ++ [a; b]) - 1 - 1) = Some a
  /\ index (front ++ [a; b]) (len (front ++ [a; b]) - 1) = Some b.
Proof.
  rewrite len_app. change (len [a; b]) with 2. pose proof (len_nonneg front).
  split; apply index_Some; (split; [lia|]).
  - replace (Z.to_nat (len front + 2 - 1 - 1)) with (length front + 0)%nat
      by (unfold len; lia).
    by rewrite lookup_app_r, Nat.add_comm, Nat.add_sub by lia.
  - replace (Z.to_nat (len front + 2 - 1)) with (length front + 1)%nat
      by (unfold len; lia).
    by rewrite lookup_app_r, Nat.add_comm, Nat.add_sub by lia.
Qed.

Lemma last_two_split {A} (l : list A) a b :
  index l (len l - 1 - 1) = Some a -> index l (len l - 1) = Some b ->
  exists front, l = front ++ [a; b].
Proof.
  intros [Ha0 Ha]%index_Some [Hb0 Hb]%index_Some.
  exists (take (Z.to_nat (len l - 1 - 1)) l).
  rewrite <- (take_drop (Z.to_nat (len l - 1 - 1)) l) at 1. f_equal.
  apply list_eq. intros i.
  rewrite lookup_drop.
  destruct i as [|[|i]]; simpl.
  - by rewrite Nat.add_0_r.
  - replace (Z.to_nat (len l - 1 - 1) + 1)%nat with (Z.to_nat (len l - 1))
      by (unfold len in *; lia). done.
  - apply lookup_ge_None. unfold len in *. lia.
Qed.

Lemma Forall_set_index {A} (P : A -> Prop) (l : list A) i x :
  Forall P l -> P x -> Forall P (set_index l i x).
Proof.
  intros Hl Hx. unfold set_index.
  destruct (decide (Z.to_nat i < length l)%nat).
  - by apply Forall_insert.
  - by rewrite list_insert_ge by lia.
Qed.

Lemma Sorted_app_l {A} (R : A -> A -> Prop) l1 l2 : Sorted R (l1 ++ l2) -> Sorted R l1.
Proof.
  induction l1 as [|a l1 IH]; simpl; [constructor|].
  intros H. inversion H as [|? ? Hs Hh]; subst. constructor; [by apply IH|].
  destruct l1; simpl in *; [constructor|]. inversion Hh; subst. by constructor.
Qed.

Lemma Sorted_app_r {A} (R : A -> A -> Prop) l1 l2 : Sorted R (l1 ++ l2) -> Sorted R l2.
Proof. induction l1 as [|a l1 IH]; simpl; [done|]. intros H. apply IH. by inversion H. Qed.

Lemma Sorted_last_two {A} (R : A -> A -> Prop) l a b : Sorted R (l ++ [a; b]) -> R a b.
Proof.
  intros H%Sorted_app_r. inversion H as [|? ? _ Hh]; subst. by inversion Hh.
Qed.

Lemma Sorted_first_two {A} (R : A -> A -> Prop) a b l : Sorted R (a :: b :: l) -> R a b.
Proof. intros H. inversion H as [|? ? _ Hh]; subst. by inversion Hh. Qed.

Lemma increasing_strongly input :
  increasing input -> StronglySorted (fun a b => Timestamp a < Timestamp b) input.
Proof.
  apply Sorted_StronglySorted. intros a b c. lia.
Qed.

Lemma increasing_app_r l1 l2 : increasing (l1 ++ l2) -> increasing l2.
Proof. apply Sorted_app_r. Qed.

Lemma increasing_app_l l1 l2 : increasing (l1 ++ l2) -> increasing l1.
Proof. apply Sorted_app_l. Qed.

(** ** Binary64: the sign of [Seconds]

    [processSample] computes a derivative only when [dt > 0], where [dt] is
    the float [Seconds] of an integer duration. The lemmas below follow the
    rounding of each operation of [Seconds] far enough to show that the
    result is zero exactly for the zero duration and has the sign of the
    duration otherwise. *)

Lemma emin64_eq : emin64 = -1074.
Proof. reflexivity. Qed.

Lemma digits2_pos_size m : digits2_pos m = Pos.size m.
Proof. induction m; simpl; congruence. Qed.

Lemma digits2_lower m : 2 ^ (Z.pos (digits2_pos m) - 1) <= Z.pos m.
Proof.
  rewrite digits2_pos_size.
  pose proof (Pos.size_le m) as H.
  assert (2 ^ Z.pos (Pos.size m) <= 2 * Z.pos m) as H'.
  { rewrite <- Pos2Z.inj_pow. change (2 * Z.pos m) with (Z.pos (m~0)). lia. }
  replace (Z.pos (Pos.size m)) with (Z.succ (Z.pos (Pos.size m) - 1)) in H' by lia.
  rewrite Z.pow_succ_r in H' by lia. lia.
Qed.

Lemma shr_m_shr_1 r : 0 <= shr_m r -> shr_m (shr_1 r) = shr_m r / 2.
Proof.
  destruct r as [m b s]. simpl. intros H.
  destruct m as [|[p|p|]|p]; simpl; try lia; try reflexivity.
  - rewrite Pos2Z.inj_xI. apply Z.div_unique with 1; lia.
  - rewrite Pos2Z.inj_xO. apply Z.div_unique with 0; lia.
Qed.

Lemma pow2_xO p : 2 ^ Z.pos p~0 = 2 ^ Z.pos p * 2 ^ Z.pos p.
Proof.
  replace (Z.pos p~0) with (Z.pos p + Z.pos p) by lia.
  apply Z.pow_add_r; lia.
Qed.

Lemma pow2_xI p : 2 ^ Z.pos p~1 = 2 * (2 ^ Z.pos p * 2 ^ Z.pos p).
Proof.
  replace (Z.pos p~1) with (1 + (Z.pos p + Z.pos p)) by lia.
  rewrite !Z.pow_add_r by lia. reflexivity.
Qed.

(** Shifting right [p] times divides the mantissa by [2^p]. *)
Lemma shr_m_iter p : forall r, 0 <= shr_m r ->
  shr_m (SpecFloat.iter_pos shr_1 p r) = shr_m r / 2 ^ Z.pos p.
Proof.
  induction p as [p IH|p IH|]; intros r Hr; cbn [SpecFloat.iter_pos].
  - assert (0 <= shr_m (shr_1 r)) as H1
      by (rewrite shr_m_shr_1 by done; apply Z.div_pos; lia).
    assert (0 <= shr_m (SpecFloat.iter_pos shr_1 p (shr_1 r))) as H2
      by (rewrite IH by done; apply Z.div_pos; lia).
    rewrite IH, IH, shr_m_shr_1 by done.
    rewrite !Z.div_div by lia. by rewrite pow2_xI.
  - assert (0 <= shr_m (SpecFloat.iter_pos shr_1 p r)) as H2
      by (rewrite IH by done; apply Z.div_pos; lia).
    rewrite IH, IH by done.
    rewrite !Z.div_div by lia. by rewrite pow2_xO.
  - rewrite shr_m_shr_1 by done. reflexivity.
Qed.

Lemma shr_m_of_loc m l : shr_m (shr_record_of_loc m l) = m.
Proof. by destruct l as [|[]]. Qed.

(** Shifting a positive mantissa to its format exponent leaves it positive
    when the exponent is not below [emin]. *)
Lemma shr_fexp_pos m e l :
  emin64 <= e ->
  0 < shr_m (fst (shr_fexp prec emax (Z.pos m) e l))
  /\ emin64 <= snd (shr_fexp prec emax (Z.pos m) e l).
Proof.
  intros He. unfold shr_fexp, shr, fexp. cbn [Zdigits2].
  set (d := Z.pos (digits2_pos m)).
  destruct (Z.max (d + e - prec) emin64 - e) as [|n|n] eqn:En; cbn [fst snd].
  - rewrite shr_m_of_loc. lia.
  - rewrite shr_m_iter by (rewrite shr_m_of_loc; lia).
    rewrite shr_m_of_loc. split; [|lia].
    apply Z.div_str_pos. split; [lia|].
    assert (Z.pos n = d - prec) as -> by lia.
    pose proof (digits2_lower m) as Hl. fold d in Hl.
    eapply Z.le_trans; [|exact Hl].
    apply Z.pow_le_mono_r; [lia|]. unfold prec. lia.
  - rewrite shr_m_of_loc. lia.
Qed.

Lemma round_nearest_even_pos m l : 0 < m -> 0 < round_nearest_even m l.
Proof. intros. destruct l as [|[]]; simpl; try lia. destruct (Z.even m); lia. Qed.

(** Rounding a positive mantissa at an exponent not below [emin] never
    gives zero: the result is finite or infinite, of the sign asked for. *)
Lemma binary_round_aux_signed s m e l :
  emin64 <= e -> sf_signed s (binary_round_aux prec emax s (Z.pos m) e l).
Proof.
  intros He. unfold binary_round_aux.
  pose proof (shr_fexp_pos m e l He) as [H1 H2].
  destruct (shr_fexp prec emax (Z.pos m) e l) as [mrs1 e1]. cbn [fst snd] in *.
  pose proof (round_nearest_even_pos (shr_m mrs1) (loc_of_shr_record mrs1) H1) as Hr.
  destruct (round_nearest_even (shr_m mrs1) (loc_of_shr_record mrs1)) as [|m2|m2];
    try lia.
  pose proof (shr_fexp_pos m2 e1 loc_Exact H2) as [H3 H4].
  destruct (shr_fexp prec emax (Z.pos m2) e1 loc_Exact) as [mrs2 e2]. cbn [fst snd] in *.
  destruct (shr_m mrs2) as [|m3|m3]; try lia.
  by destruct (e2 <=? emax - prec).
Qed.

Lemma binary_round_signed s m e :
  emin64 <= e -> sf_signed s (binary_round prec emax s m e).
Proof.
  intros He. unfold binary_round, shl_align.
  destruct (fexp prec emax (Z.pos (digits2_pos m) + e) - e) as [|n|n] eqn:En.
  - by apply binary_round_aux_signed.
  - by apply binary_round_aux_signed.
  - apply binary_round_aux_signed. unfold fexp. lia.
Qed.

(** A mantissa of full precision is left as it is. *)
Lemma binary_round_aux_exact s m e :
  Z.pos (digits2_pos m) = prec -> emin64 <= e <= emax - prec ->
  binary_round_aux prec emax s (Z.pos m) e loc_Exact = S754_finite s m e.
Proof.
  intros Hd He.
  assert (shr_fexp prec emax (Z.pos m) e loc_Exact
          = ({| shr_m := Z.pos m; shr_r := false; shr_s := false |}, e)) as Hshr.
  { unfold shr_fexp, fexp. cbn [Zdigits2]. rewrite Hd.
    replace (Z.max (prec + e - prec) emin64 - e) with 0 by lia. reflexivity. }
  unfold binary_round_aux. rewrite Hshr. cbn [shr_m loc_of_shr_record round_nearest_even].
  rewrite Hshr. cbn [shr_m].
  destruct (Z.leb_spec e (emax - prec)); [done|lia].
Qed.

Lemma digits2_iter_xO m k :
  Z.pos (digits2_pos (Pos.iter xO m k)) = Z.pos (digits2_pos m) + Z.pos k.
Proof.
  induction k as [|k IH] using Pos.peano_ind.
  - simpl. lia.
  - rewrite Pos.iter_succ. cbn [digits2_pos]. lia.
Qed.

(** The float of a positive integer below [2^53], exactly. *)
Lemma binary_normalize_small r :
  Z.pos (digits2_pos r) <= prec ->
  exists m,
    binary_normalize prec emax (Z.pos r) 0 false
    = S754_finite false m (Z.pos (digits2_pos r) - prec)
    /\ Z.pos (digits2_pos m) = prec.
Proof.
  intros Hd. unfold binary_normalize, binary_round, shl_align, fexp.
  set (d := Z.pos (digits2_pos r)) in *.
  assert (0 < d) by (unfold d; lia).
  assert (Z.max (d + 0 - prec) emin64 = d - prec) as ->.
  { rewrite emin64_eq. unfold prec in *. lia. }
  rewrite Z.sub_0_r.
  destruct (d - prec) as [|n|n] eqn:En.
  - exists r. split; [|fold d; lia].
    apply binary_round_aux_exact; [fold d; lia|]. rewrite emin64_eq. unfold prec, emax. lia.
  - unfold prec in *. lia.
  - exists (Pos.iter xO r n). split.
    + apply binary_round_aux_exact.
      * rewrite digits2_iter_xO. fold d. lia.
      * rewrite emin64_eq. unfold prec, emax in *. lia.
    + rewrite digits2_iter_xO. fold d. lia.
Qed.

Lemma Prim2SF_billion : Prim2SF 1e9%float = billion_sf.
Proof. reflexivity. Qed.

(** A normal float of at least [2^-52] divided by [1e9] is positive. *)
Lemma SFdiv_billion_signed s mx ex :
  Z.pos (digits2_pos mx) = prec -> -52 <= ex <= 0 ->
  sf_signed s (SFdiv prec emax (S754_finite s mx ex) billion_sf).
Proof.
  intros Hd He. unfold SFdiv, billion_sf, SFdiv_core_binary.
  cbn [Zdigits2]. rewrite Hd.
  change (Z.pos (digits2_pos 8388608000000000)) with 53.
  assert (fexp prec emax (prec + ex - (53 + -23)) = ex - 30) as Hf.
  { unfold fexp. rewrite emin64_eq. unfold prec. lia. }
  rewrite Hf.
  assert (Z.min (ex - 30) (ex - -23) = ex - 30) as -> by lia.
  assert (ex - -23 - (ex - 30) = 53) as -> by lia.
  rewrite Z.shiftl_mul_pow2 by lia.
  pose proof (digits2_lower mx) as Hl. rewrite Hd in Hl.
  change (2 ^ (prec - 1)) with 4503599627370496 in Hl.
  change (2 ^ 53) with 9007199254740992.
  set (a := Z.pos mx * 9007199254740992).
  pose proof (Z.div_str_pos a 8388608000000000) as Hq.
  unfold Z.div in Hq.
  destruct (Z.div_eucl a 8388608000000000) as [q r].
  assert (0 < q) as Hq' by (apply Hq; unfold a; lia).
  destruct q as [|q|q]; try lia.
  rewrite xorb_false_r. apply binary_round_aux_signed. rewrite emin64_eq. lia.
Qed.

Lemma valid_finite_emin s m e :
  valid_binary (S754_finite s m e) = true -> emin64 <= e.
Proof.
  cbn [SpecFloat.valid_binary]. unfold bounded, canonical_mantissa, fexp.
  intros [H _]%andb_prop. apply Z.eqb_eq in H. lia.
Qed.

(** Adding two floats of the same sign, one of which may be [+0], gives a
    float of that sign other than zero. *)
Lemma SFadd_signed s x y :
  valid_binary x = true -> valid_binary y = true ->
  sf_zero_or s x -> sf_zero_or s y -> sf_signed s x \/ sf_signed s y ->
  sf_signed s (SFadd prec emax x y).
Proof.
  intros Vx Vy Hx Hy Hxy.
  destruct x as [sx|sx| |sx mx ex], y as [sy|sy| |sy my ey];
    destruct Hx as [Hx|Hx], Hy as [Hy|Hy], Hxy as [H|H];
    try discriminate; simpl in Hx, Hy, H; try contradiction; subst;
    try (simpl; reflexivity); try (destruct s; simpl; reflexivity).
  all: apply valid_finite_emin in Vx, Vy.
  all: unfold SFadd, binary_normalize; destruct s; cbn [cond_Zopp Z.opp].
  all: first [ change (Z.pos ?a + Z.pos ?b) with (Z.pos (a + b))
             | change (Z.neg ?a + Z.neg ?b) with (Z.neg (a + b)) ].
  all: cbv iota; apply binary_round_signed; lia.
Qed.

Lemma Prim2SF_of_uint63 (z : Z) :
  0 <= z < 2 ^ 63 ->
  Prim2SF (PrimFloat.of_uint63 (Uint63.of_Z z)) = binary_normalize prec emax z 0 false.
Proof.
  intros Hz. rewrite of_uint63_spec, Uint63.of_Z_spec.
  rewrite Z.mod_small; [done|]. exact Hz.
Qed.

Lemma float_of_int_zero : Prim2SF (float_of_int 0) = S754_zero false.
Proof. reflexivity. Qed.

(** The float of a nonzero [int64] has its sign and is not zero. *)
Lemma float_of_int_signed z :
  - 2 ^ 63 < z < 2 ^ 63 -> z <> 0 ->
  sf_signed (sign_of z) (Prim2SF (float_of_int z)).
Proof.
  intros Hz Hnz. unfold float_of_int, sign_of.
  destruct (Z.ltb_spec z 0).
  - rewrite opp_spec, Prim2SF_of_uint63 by lia.
    destruct z as [|p|p]; try lia.
    change (binary_normalize prec emax (- Z.neg p) 0 false)
      with (binary_round prec emax false p 0).
    assert (emin64 <= 0) as He by (rewrite emin64_eq; lia).
    pose proof (binary_round_signed false p 0 He) as H'.
    destruct (binary_round prec emax false p 0) as [s|s| |s m e];
      cbn [sf_signed SFopp] in *; try contradiction; by subst.
  - rewrite Prim2SF_of_uint63 by lia.
    destruct z as [|p|p]; try lia. cbn [binary_normalize].
    apply binary_round_signed. rewrite emin64_eq. lia.
Qed.

Lemma digits2_le_of_lt p k : 0 <= k -> Z.pos p < 2 ^ k -> Z.pos (digits2_pos p) <= k.
Proof.
  intros Hk Hp. pose proof (digits2_lower p) as Hl.
  destruct (Z.le_gt_cases (Z.pos (digits2_pos p)) k) as [|Hgt]; [done|].
  exfalso. assert (2 ^ k <= 2 ^ (Z.pos (digits2_pos p) - 1))
    by (apply Z.pow_le_mono_r; lia). lia.
Qed.

(** The float of a nonzero integer below [2^30] in magnitude, divided by
    [1e9], has the sign of the integer and is not zero. *)
Lemma float_of_int_div_billion_signed z :
  - 2 ^ 30 < z < 2 ^ 30 -> z <> 0 ->
  sf_signed (sign_of z) (Prim2SF (PrimFloat.div (float_of_int z) 1e9)).
Proof.
  intros Hz Hnz. rewrite div_spec, Prim2SF_billion.
  unfold float_of_int, sign_of.
  assert (forall p, Z.pos p < 2 ^ 30 -> forall s,
            sf_signed s (SF64div
              (if s then SFopp (binary_normalize prec emax (Z.pos p) 0 false)
               else binary_normalize prec emax (Z.pos p) 0 false) billion_sf)) as Hp.
  { intros p Hp s.
    pose proof (digits2_le_of_lt p 30 ltac:(lia) Hp) as Hd.
    destruct (binary_normalize_small p) as (m & -> & Hm); [unfold prec; lia|].
    assert (-52 <= Z.pos (digits2_pos p) - prec <= 0) by (unfold prec; lia).
    destruct s; cbn [SFopp negb]; by apply SFdiv_billion_signed. }
  destruct (Z.ltb_spec z 0).
  - rewrite opp_spec, Prim2SF_of_uint63 by lia.
    destruct z as [|p|p]; try lia. cbn [Z.opp]. apply (Hp p ltac:(lia) true).
  - rewrite Prim2SF_of_uint63 by lia.
    destruct z as [|p|p]; try lia. apply (Hp p ltac:(lia) false).
Qed.

Lemma zero_div_billion : Prim2SF (PrimFloat.div (float_of_int 0) 1e9) = S754_zero false.
Proof. reflexivity. Qed.

(** [d.Seconds()] is not zero and has the sign of [d], for a nonzero
    duration [d]. *)
Lemma Seconds_signed d :
  minDuration <= d <= maxDuration -> d <> 0 ->
  sf_signed (sign_of d) (Prim2SF (Seconds d)).
Proof.
  intros Hd Hnz. unfold Seconds, minDuration, maxDuration in *.
  rewrite add_spec.
  pose proof (Z.quot_rem' d Second) as Hqr.
  assert (d <= 0 -> - Second < Z.rem d Second <= 0) as Hrn
    by (intros; by apply Z.rem_bound_pos_neg).
  assert (0 <= d -> 0 <= Z.rem d Second < Second) as Hrp
    by (intros; by apply Z.rem_bound_pos).
  set (q := Z.quot d Second) in *. set (r := Z.rem d Second) in *.
  clearbody q r. unfold Second in Hqr, Hrn, Hrp.
  assert (sign_of d = true -> q <= 0 /\ -Second < r <= 0) as Hneg.
  { unfold sign_of, Second. intros Hs%Z.ltb_lt. lia. }
  assert (sign_of d = false -> 0 <= q /\ 0 <= r < Second) as Hpos.
  { unfold sign_of, Second. intros Hs%Z.ltb_ge. lia. }
  assert (- 2 ^ 63 < q < 2 ^ 63 /\ - 2 ^ 30 < r < 2 ^ 30) as [Bq Br].
  { unfold Second in *. destruct (sign_of d); [destruct Hneg|destruct Hpos]; try done; lia. }
  assert (forall z, z <> 0 -> (sign_of d = true -> z <= 0) ->
            (sign_of d = false -> 0 <= z) -> sign_of z = sign_of d) as Hsign.
  { intros z Hz H1 H2. unfold sign_of in *.
    destruct (Z.ltb_spec d 0), (Z.ltb_spec z 0); try done.
    - specialize (H1 eq_refl). lia.
    - specialize (H2 eq_refl). lia. }
  apply SFadd_signed; try apply Prim2SF_valid.
  - destruct (Z.eq_dec q 0) as [->|Hq]; [left; apply float_of_int_zero|].
    right. rewrite <- (Hsign q Hq); [by apply float_of_int_signed| |]; intros Hs.
    + destruct (Hneg Hs); lia.
    + destruct (Hpos Hs); lia.
  - destruct (Z.eq_dec r 0) as [->|Hr]; [left; apply zero_div_billion|].
    right. rewrite <- (Hsign r Hr); [by apply float_of_int_div_billion_signed| |]; intros Hs.
    + destruct (Hneg Hs); lia.
    + destruct (Hpos Hs); lia.
  - destruct (Z.eq_dec q 0) as [Hq|Hq].
    + right. assert (r <> 0) as Hr by (unfold Second in *; lia).
      rewrite <- (Hsign r Hr); [by apply float_of_int_div_billion_signed| |]; intros Hs.
      * destruct (Hneg Hs); lia.
      * destruct (Hpos Hs); lia.
    + left. rewrite <- (Hsign q Hq); [by apply float_of_int_signed| |]; intros Hs.
      * destruct (Hneg Hs); lia.
      * destruct (Hpos Hs); lia.
Qed.

(** The guard [dt > 0] of [processSample] holds exactly for the positive
    durations. *)
Lemma Seconds_positive d :
  minDuration <= d <= maxDuration ->
  PrimFloat.ltb 0 (Seconds d) = (0 <? d).
Proof.
  intros Hd. destruct (Z.eq_dec d 0) as [->|Hnz]; [reflexivity|].
  rewrite ltb_spec. change (Prim2SF 0) with (S754_zero false).
  pose proof (Seconds_signed d Hd Hnz) as Hs. unfold sign_of in Hs.
  destruct (Z.ltb_spec d 0), (Z.ltb_spec 0 d); try lia;
    destruct (Prim2SF (Seconds d)) as [| | |]; simpl in Hs; try contradiction; by subst.
Qed.

(** [t.Sub(u)] is a duration, positive exactly when [t] is after [u]. *)
Lemma Sub_range (t u : Time) : minDuration <= Sub t u <= maxDuration.
Proof.
  unfold Sub.
  destruct (Z.ltb_spec (t - u) minDuration); [unfold minDuration, maxDuration; lia|].
  destruct (Z.ltb_spec maxDuration (t - u)); unfold minDuration, maxDuration in *; lia.
Qed.

Lemma Sub_pos (t u : Time) : (0 <? Sub t u) = After t u.
Proof.
  unfold Sub, After.
  destruct (Z.ltb_spec (t - u) minDuration);
    [|destruct (Z.ltb_spec maxDuration (t - u))];
    unfold minDuration, maxDuration in *;
    destruct (Z.ltb_spec u t); (apply Z.ltb_lt || apply Z.ltb_ge); lia.
Qed.

(** The guard of the derivative block: the elapsed time measured between
    two samples is positive exactly when the second timestamp is after the
    first. *)
Lemma elapsed_positive (t u : Time) :
  PrimFloat.ltb 0 (Seconds (Sub t u)) = After t u.
Proof. rewrite Seconds_positive by apply Sub_range. apply Sub_pos. Qed.

Ltac by_computation :=
  vm_compute; repeat split; first [reflexivity | discriminate].

Ltac sorted_by_computation :=
  repeat first [ apply Sorted_nil | apply Sorted_cons
               | apply HdRel_nil | apply HdRel_cons ];
  vm_compute; reflexivity.

(** ** The steps of [processSample] *)

(** The eviction loop either passes every sample (and leaves 0) or stops at
    the first sample after the cutoff. *)
Lemma cutoff_loop_spec c ss i :
  (Forall (not_after c) ss /\ cutoff_loop c ss i = 0)
  \/ (exists pre s post, ss = pre ++ s :: post /\ Forall (not_after c) pre
        /\ After (Timestamp s) c = true /\ cutoff_loop c ss i = i + len pre).
Proof.
  revert i. induction ss as [|s ss IH]; intros i; simpl.
  - left. split; [constructor | done].
  - destruct (After (Timestamp s) c) eqn:E.
    + right. exists [], s, ss. repeat split; [constructor | done | ].
      change (len []) with 0. lia.
    + destruct (IH (i + 1)) as [[H1 H2] | (pre & s' & post & -> & H1 & H2 & H3)].
      * left. split; [by constructor | done].
      * right. exists (s :: pre), s', post. repeat split; [by constructor | done | ].
        rewrite H3. unfold len. simpl. lia.
Qed.

Lemma cutoffIndex_spec c ss :
  (cutoffIndex c ss = 0)
  \/ (exists pre s post, ss = pre ++ s :: post /\ pre <> [] /\ Forall (not_after c) pre
        /\ After (Timestamp s) c = true /\ cutoffIndex c ss = len pre).
Proof.
  unfold cutoffIndex.
  destruct (cutoff_loop_spec c ss 0) as [[_ H] | (pre & s & post & -> & H1 & H2 & H3)].
  - by left.
  - destruct pre as [|p pre].
    + left. rewrite H3. reflexivity.
    + right. exists (p :: pre), s, post. repeat split; try done.
Qed.

(** What the eviction block leaves of the sample buffer. *)
Lemma evict_samples now m :
  exists k, 0 <= k /\ samples (evict now m) = slice_from k (samples m)
    /\ (samples m <> [] -> k < len (samples m))
    /\ k = cutoffIndex (Add now (neg (windowDuration m))) (samples m).
Proof.
  unfold evict.
  destruct (cutoffIndex_spec (Add now (neg (windowDuration m))) (samples m))
    as [H | (pre & s & post & E & Hne & H1 & H2 & H3)].
  - rewrite H. simpl. exists 0. repeat split; try done.
    intros. pose proof (len_nonneg (samples m)).
    destruct (samples m); [done|]. unfold len. simpl. lia.
  - rewrite H3. pose proof (len_nonneg pre).
    assert (0 < len pre) by (destruct pre; [done | unfold len; simpl; lia]).
    destruct (Z.ltb_spec 0 (len pre)); [|lia]. simpl.
    exists (len pre). repeat split; try done.
    intros _. rewrite E, len_app. unfold len. simpl. lia.
Qed.

Lemma evict_samples_nonempty now m : samples m <> [] -> samples (evict now m) <> [].
Proof.
  intros Hne. destruct (evict_samples now m) as (k & H0 & -> & Hk & _).
  specialize (Hk Hne). unfold slice_from. intros E.
  apply (f_equal length) in E. rewrite length_drop in E. simpl in E.
  unfold len in Hk. lia.
Qed.

Lemma evict_fields now m :
  callbacks (evict now m) = callbacks m
  /\ windowDuration (evict now m) = windowDuration m
  /\ threshold (evict now m) = threshold m
  /\ minPulseDuration (evict now m) = minPulseDuration m
  /\ shutdown (evict now m) = shutdown m.
Proof. unfold evict. destruct (_ <? _); done. Qed.

(** The search for the active pulse returns -1 when no pulse among the first
    [n] ends at [target], and otherwise the position of the last that does. *)
Lemma find_active_spec ps n target :
  (find_active ps n target = -1
   /\ forall j p, (j < n)%nat -> ps !! j = Some p -> EndIndex p <> target)
  \/ (exists j p, (j < n)%nat /\ ps !! j = Some p /\ EndIndex p = target
        /\ find_active ps n target = Z.of_nat j
        /\ forall j' p', (j < j' < n)%nat -> ps !! j' = Some p' ->
             EndIndex p' <> target).
Proof.
  induction n as [|n IH]; simpl.
  - left. split; [done | intros; lia].
  - destruct (ps !! n) as [p|] eqn:E.
    + destruct (Z.eqb_spec (EndIndex p) target) as [Heq|Hne].
      * right. exists n, p. repeat split; try done; try lia; intros; lia.
      * destruct IH as [[H1 H2] | (j & q & Hj & Hq & He & Hf & Hl)].
        -- left. split; [done|]. intros j q Hj Hq.
           destruct (decide (j = n)) as [->|]; [congruence|]. apply (H2 j); [lia|done].
        -- right. exists j, q. repeat split; try done; try lia.
           intros j' p' Hj' Hp'.
           destruct (decide (j' = n)) as [->|]; [congruence|]. apply (Hl j'); [lia|done].
    + destruct IH as [[H1 H2] | (j & q & Hj & Hq & He & Hf & Hl)].
      * left. split; [done|]. intros j q Hj Hq.
        destruct (decide (j = n)) as [->|]; [congruence|]. apply (H2 j); [lia|done].
      * right. exists j, q. repeat split; try done; try lia.
        intros j' p' Hj' Hp'.
        destruct (decide (j' = n)) as [->|]; [congruence|]. apply (Hl j'); [lia|done].
Qed.

Lemma find_active_none ps target :
  (forall p, p ∈ ps -> EndIndex p <> target) ->
  find_active ps (length ps) target = -1.
Proof.
  intros H.
  destruct (find_active_spec ps (length ps) target)
    as [[E _] | (j & p & _ & Hp & He & _)]; [done|].
  exfalso. by apply (H p (list_elem_of_lookup_2 _ _ _ Hp)).
Qed.

Lemma find_active_last ps j p target :
  ps !! j = Some p -> EndIndex p = target ->
  (forall j' p', (j < j')%nat -> ps !! j' = Some p' -> EndIndex p' <> target) ->
  find_active ps (length ps) target = Z.of_nat j.
Proof.
  intros Hp He Hlast.
  pose proof (lookup_lt_Some _ _ _ Hp) as Hj.
  destruct (find_active_spec ps (length ps) target)
    as [[_ Hn] | (j0 & p0 & Hj0 & Hp0 & He0 & -> & Hl0)].
  - exfalso. by apply (Hn j p).
  - f_equal. destruct (Nat.lt_trichotomy j0 j) as [Hlt | [-> | Hgt]]; [|done|].
    + exfalso. apply (Hl0 j p); [lia | done | done].
    + exfalso. by apply (Hlast j0 p0).
Qed.

(** The derivative block never panics and touches the derivatives only. *)
Lemma update_derivative_total m : exists m', update_derivative m = Some m'
  /\ samples m' = samples m /\ pulses m' = pulses m
  /\ callbacks m' = callbacks m /\ windowDuration m' = windowDuration m
  /\ threshold m' = threshold m /\ minPulseDuration m' = minPulseDuration m
  /\ shutdown m' = shutdown m.
Proof.
  unfold update_derivative.
  destruct (Z.leb_spec 2 (len (samples m))); [|by eauto 10].
  destruct (index_lt (samples m) (len (samples m) - 1 - 1)) as [prev ->]; [lia|].
  destruct (index_lt (samples m) (len (samples m) - 1)) as [curr ->]; [lia|].
  simpl. destruct (PrimFloat.ltb _ _); eauto 10.
Qed.

Lemma should_start_total m i j : 0 <= i < len (derivatives m) ->
  exists b, should_start m i j = Some b.
Proof.
  intros Hi. unfold should_start.
  destruct (Z.ltb_spec 0 i); [|by eauto].
  destruct (index_lt (derivatives m) (i - 1)) as [d ->]; [lia|]. simpl.
  destruct (PrimFloat.ltb _ _); [|by eauto].
  destruct (Z.ltb_spec 0 (len (pulses m))); [|by eauto].
  destruct (index_lt (pulses m) (len (pulses m) - 1)) as [p ->]; [lia|]. simpl. eauto.
Qed.

Lemma heating_total m d : samples m <> [] -> derivatives m <> [] ->
  exists ps, heating m (len (derivatives m) - 1) d (len (samples m) - 1) = Some ps.
Proof.
  intros Hs Hd.
  pose proof (len_pos _ Hs) as Hls. pose proof (len_pos _ Hd) as Hld.
  destruct (index_lt (samples m) (len (samples m) - 1)) as [s1 Hs1]; [lia|].
  unfold heating.
  destruct (find_active_spec (pulses m) (length (pulses m)) (len (samples m) - 1 - 1))
    as [[-> _] | (j & p & Hj & Hp & _ & -> & _)].
  - simpl.
    destruct (should_start_total m (len (derivatives m) - 1) (len (samples m) - 1)) as [b ->]; [lia|].
    simpl. destruct b.
    + destruct (index_lt (samples m)
        (if len (samples m) - 1 - 1 <? 0 then 0 else len (samples m) - 1 - 1)) as [s0 ->].
      { destruct (Z.ltb_spec (len (samples m) - 1 - 1) 0); lia. }
      rewrite Hs1. simpl. eauto.
    + destruct (Z.ltb_spec 0 (len (pulses m))); [|by eauto].
      destruct (index_lt (pulses m) (len (pulses m) - 1)) as [p ->]; [lia|]. simpl.
      destruct (_ <=? _); [|by eauto]. rewrite Hs1. simpl. eauto.
  - destruct (Z.leb_spec 0 (Z.of_nat j)); [|lia].
    assert (index (pulses m) (Z.of_nat j) = Some p) as ->.
    { apply index_Some. split; [lia|]. by rewrite Nat2Z.id. }
    simpl. rewrite Hs1. simpl. eauto.
Qed.

(** [updatePulses] never panics on a buffer that holds a sample, and
    touches the pulses only. *)
Lemma updatePulses_total m : samples m <> [] ->
  exists m', updatePulses m = Some m'
  /\ samples m' = samples m /\ derivatives m' = derivatives m
  /\ callbacks m' = callbacks m /\ windowDuration m' = windowDuration m
  /\ threshold m' = threshold m /\ minPulseDuration m' = minPulseDuration m
  /\ shutdown m' = shutdown m.
Proof.
  intros Hs. unfold updatePulses.
  destruct (Z.eqb_spec (len (derivatives m)) 0) as [|Hne]; [by eauto 10|].
  assert (derivatives m <> []) as Hd by (by intros E%len_nil_iff).
  pose proof (len_nonneg (derivatives m)).
  unfold detect.
  destruct (index_lt (derivatives m) (len (derivatives m) - 1)) as [d ->]; [lia|]. simpl.
  destruct (PrimFloat.ltb _ _).
  - destruct (heating_total m d Hs Hd) as [ps ->]. simpl. eauto 10.
  - simpl. eauto 10.
Qed.

(** [processSample] never panics; it leaves the configuration, the callback
    list and the shutdown flag as they were. *)
Lemma processSample_total s m :
  exists m' t, processSample s m = Some (m', t)
  /\ samples m' = samples (evict (Timestamp s) (append_sample s m))
  /\ callbacks m' = callbacks m /\ windowDuration m' = windowDuration m
  /\ threshold m' = threshold m /\ minPulseDuration m' = minPulseDuration m
  /\ shutdown m' = shutdown m
  /\ t = (if shutdown m then [] else notifyCallbacks m').
Proof.
  unfold processSample.
  set (m1 := evict (Timestamp s) (append_sample s m)).
  assert (samples m1 <> []) as H1.
  { apply evict_samples_nonempty. simpl. by destruct (samples m). }
  destruct (evict_fields (Timestamp s) (append_sample s m)) as (Ec & Ew & Et & Em & Es).
  fold m1 in Ec, Ew, Et, Em, Es. simpl in *.
  destruct (update_derivative_total m1) as (m2 & -> & E2 & _ & Ec2 & Ew2 & Et2 & Em2 & Es2).
  simpl. destruct (updatePulses_total m2) as (m3 & -> & E3 & _ & Ec3 & Ew3 & Et3 & Em3 & Es3);
    [congruence|].
  simpl. exists m3, (if negb (shutdown m3) then notifyCallbacks m3 else []).
  repeat split; try congruence.
  replace (shutdown m3) with (shutdown m) by congruence. by destruct (shutdown m).
Qed.

Lemma process_all_total input m :
  exists m' t, process_all input m = Some (m', t)
  /\ callbacks m' = callbacks m /\ windowDuration m' = windowDuration m
  /\ threshold m' = threshold m /\ minPulseDuration m' = minPulseDuration m
  /\ shutdown m' = shutdown m.
Proof.
  revert m. induction input as [|s input IH]; intros m; simpl.
  - eauto 10.
  - destruct (processSample_total s m) as (m1 & t1 & -> & _ & Ec & Ew & Et & Em & Es & _).
    simpl. destruct (IH m1) as (m2 & t2 & -> & Ec2 & Ew2 & Et2 & Em2 & Es2).
    simpl. exists m2, (t1 ++ t2). repeat split; congruence.
Qed.

Lemma process_all_app in1 in2 m :
  process_all (in1 ++ in2) m =
  '(m1, t1) ← process_all in1 m; '(m2, t2) ← process_all in2 m1; Some (m2, t1 ++ t2).
Proof.
  revert m. induction in1 as [|s in1 IH]; intros m; simpl.
  - destruct (process_all in2 m) as [[m2 t2]|]; done.
  - destruct (processSample s m) as [[m1 t1]|]; [|done]. simpl.
    rewrite IH. destruct (process_all in1 m1) as [[m1' t1']|]; [|done]. simpl.
    destruct (process_all in2 m1') as [[m2 t2]|]; [|done]. simpl.
    by rewrite app_assoc.
Qed.

Lemma state_after_snoc input s m :
  state_after (input ++ [s]) m =
  m1 ← state_after input m; fst <$> processSample s m1.
Proof.
  unfold state_after. rewrite process_all_app.
  destruct (process_all input m) as [[m1 t1]|]; [|done]. simpl.
  destruct (processSample s m1) as [[m2 t2]|]; done.
Qed.

(** The buffer is always what is left of the processed input once a prefix
    of it has been evicted. *)
Lemma samples_suffix input : forall m0 m,
  state_after input m0 = Some m ->
  exists evicted, samples m0 ++ input = evicted ++ samples m.
Proof.
  induction input as [|s input IH]; intros m0 m; unfold state_after; simpl.
  - intros [= <-]. exists []. by rewrite app_nil_r.
  - destruct (processSample_total s m0) as (m1 & t1 & E1 & Hs & _). rewrite E1. simpl.
    intros H.
    destruct (IH m1 m) as [ev Hev].
    { unfold state_after. destruct (process_all input m1) as [[m2 t2]|]; [|done].
      simpl in *. congruence. }
    destruct (evict_samples (Timestamp s) (append_sample s m0)) as (k & _ & Hk & _).
    rewrite Hk in Hs. simpl in Hs.
    exists (take (Z.to_nat k) (samples m0 ++ [s]) ++ ev).
    rewrite <- app_assoc, <- Hev, Hs. unfold slice_from.
    rewrite (app_assoc _ _ input), take_drop. by rewrite <- app_assoc.
Qed.

(** ** Derivatives *)

Lemma derivatives_of_length ss : length (derivatives_of ss) = pred (length ss).
Proof.
  induction ss as [|a [|b ss] IH]; [done..|].
  change (S (length (derivatives_of (b :: ss))) = pred (length (a :: b :: ss))).
  rewrite IH. done.
Qed.

Lemma derivatives_of_lookup ss i a b :
  ss !! i = Some a -> ss !! S i = Some b ->
  derivatives_of ss !! i = Some (derivative_of a b).
Proof.
  revert i. induction ss as [|x [|y ss] IH]; intros i Ha Hb; [done..|].
  destruct i as [|i].
  - simpl in *. congruence.
  - change (derivatives_of (y :: ss) !! i = Some (derivative_of a b)).
    by apply IH.
Qed.

Lemma derivatives_of_drop k ss :
  derivatives_of (drop k ss) = drop k (derivatives_of ss).
Proof.
  revert ss. induction k as [|k IH]; intros ss; [by rewrite !drop_0|].
  destruct ss as [|a [|b ss]]; [done | simpl; by rewrite drop_nil |].
  change (derivatives_of (drop k (b :: ss)) = drop k (derivatives_of (b :: ss))).
  apply IH.
Qed.

Lemma derivatives_of_snoc ss a s :
  derivatives_of ((ss ++ [a]) ++ [s]) = derivatives_of (ss ++ [a]) ++ [derivative_of a s].
Proof.
  induction ss as [|x ss IH]; [done|].
  destruct ss as [|y ss]; [done|].
  change (derivative_of x y :: derivatives_of (((y :: ss) ++ [a]) ++ [s])
          = derivative_of x y :: derivatives_of ((y :: ss) ++ [a]) ++ [derivative_of a s]).
  by rewrite IH.
Qed.

(** The derivatives of the pairs: as many as the samples but one, the
    [i]-th that of samples [i] and [i+1]. *)
Lemma derivatives_of_spec ss :
  len (derivatives_of ss) = Z.max 0 (len ss - 1)
  /\ forall i a b, index ss i = Some a -> index ss (i + 1) = Some b ->
       index (derivatives_of ss) i
       = Some (PrimFloat.div (PrimFloat.sub (Reading b) (Reading a))
                 (Seconds (Sub (Timestamp b) (Timestamp a)))).
Proof.
  split.
  - unfold len. rewrite derivatives_of_length. lia.
  - intros i a b [H0 Ha]%index_Some [_ Hb]%index_Some.
    apply index_Some. split; [done|].
    replace (Z.to_nat (i + 1)) with (S (Z.to_nat i)) in Hb by lia.
    by apply derivatives_of_lookup.
Qed.

(** What eviction leaves once [s] has been appended: a suffix of the old
    buffer followed by [s], with the derivatives of that suffix. *)
Lemma evict_after_append s m :
  derivatives m = derivatives_of (samples m) ->
  exists k,
    samples (evict (Timestamp s) (append_sample s m)) = drop k (samples m) ++ [s]
    /\ derivatives (evict (Timestamp s) (append_sample s m))
       = derivatives_of (drop k (samples m)).
Proof.
  intros Hd.
  destruct (evict_samples (Timestamp s) (append_sample s m)) as (k & Hk0 & Hs & Hlt & Hk).
  unfold evict in *. rewrite <- Hk in *. simpl in *.
  assert (k < len (samples m ++ [s])) as Hkn by (apply Hlt; by destruct (samples m)).
  rewrite len_app in Hkn. change (len [s]) with 1 in Hkn.
  destruct (Z.ltb_spec 0 k); simpl.
  - rewrite Hd. unfold len. rewrite derivatives_of_length. unfold len in Hkn.
    destruct (Z.leb_spec k (Z.of_nat (pred (length (samples m))))).
    + exists (Z.to_nat k). unfold slice_from. split.
      * rewrite drop_app_le by lia. done.
      * by rewrite derivatives_of_drop.
    + exists (length (samples m)). unfold slice_from.
      replace (Z.to_nat k) with (length (samples m)) by lia.
      rewrite drop_app_length, drop_all. done.
  - exists 0%nat. by rewrite drop_0.
Qed.

(** As long as the elapsed time measured between consecutive samples is
    positive, the derivative buffer is exactly the list of the derivatives
    of the consecutive pairs of the sample buffer. *)
Lemma derivatives_follow_samples input : forall m0,
  fresh m0 -> positively_spaced input ->
  exists m, state_after input m0 = Some m
    /\ derivatives m = derivatives_of (samples m).
Proof.
  induction input as [|s input IH] using rev_ind; intros m0 Hf Hsp.
  - exists m0. destruct Hf as (Hs & Hd & _). split; [done|]. by rewrite Hs, Hd.
  - destruct (IH m0 Hf (Sorted_app_l _ _ _ Hsp)) as (m & S & Hd).
    destruct (processSample_total s m) as (m' & t & E & _).
    exists m'. split; [rewrite state_after_snoc, S; simpl; by rewrite E|].
    destruct (samples_suffix _ _ _ S) as [ev Hev].
    destruct Hf as (Hs0 & _ & _). rewrite Hs0 in Hev. simpl in Hev.
    destruct (evict_after_append s m Hd) as (k & Hs1 & Hd1).
    unfold processSample in E.
    set (m1 := evict (Timestamp s) (append_sample s m)) in *.
    destruct (update_derivative m1) as [m2|] eqn:E2; [|done]. simpl in E.
    destruct (updatePulses m2) as [m3|] eqn:E3; [|done]. simpl in E.
    injection E as -> _.
    destruct (updatePulses_total m2) as (m3' & E3' & Hs3 & Hd3 & _).
    { destruct (update_derivative_total m1) as (m2' & E2' & Hs2 & _).
      rewrite E2 in E2'. injection E2' as <-. rewrite Hs2, Hs1.
      by destruct (drop k (samples m)). }
    rewrite E3 in E3'. injection E3' as <-. rewrite Hs3, Hd3.
    clear E3 Hs3 Hd3.
    unfold update_derivative in E2. rewrite Hs1, Hd1 in E2.
    destruct (drop k (samples m)) as [|a' ss'] eqn:Edrop using rev_ind.
    + simpl in E2. injection E2 as <-. by rewrite Hs1, Hd1.
    + clear IHss'. rewrite <- app_assoc in E2. simpl in E2.
      destruct (index_last_two ss' a' s) as [Ea Eb].
      rewrite Ea, Eb in E2.
      destruct (Z.leb_spec 2 (len (ss' ++ [a'; s]))).
      2:{ rewrite len_app in *. change (len [a'; s]) with 2 in *.
          pose proof (len_nonneg ss'). lia. }
      simpl in E2.
      assert (PrimFloat.ltb 0 (Seconds (Sub (Timestamp s) (Timestamp a'))) = true) as Hpos.
      { assert (samples m = take k (samples m) ++ ss' ++ [a']) as Hsplit
          by (rewrite <- Edrop; by rewrite take_drop).
        assert (input ++ [s] = (ev ++ take k (samples m) ++ ss') ++ [a'; s]) as Hin.
        { rewrite Hev. rewrite Hsplit at 1. by rewrite <- !app_assoc. }
        rewrite Hin in Hsp. by apply Sorted_last_two in Hsp. }
      rewrite Hpos in E2.
      assert ((len (ss' ++ [a'; s]) - 1 <?
               len (derivatives_of (ss' ++ [a']) ++ [derivative_of a' s])) = false) as Hno.
      { apply Z.ltb_ge. unfold len. rewrite !length_app, derivatives_of_length.
        rewrite length_app. simpl. lia. }
      rewrite Hno in E2. injection E2 as <-. simpl.
      rewrite Hs1. by rewrite derivatives_of_snoc.
Qed.

Lemma Sorted_weaken {A} (R R' : A -> A -> Prop) l :
  (forall a b, R a b -> R' a b) -> Sorted R l -> Sorted R' l.
Proof.
  intros HR. induction 1 as [|a l _ IH Hh]; constructor; [done|].
  destruct Hh; constructor. by apply HR.
Qed.

Lemma increasing_positively_spaced input :
  increasing input -> positively_spaced input.
Proof.
  apply Sorted_weaken. intros a b Hab. rewrite elapsed_positive.
  by apply Z.ltb_lt.
Qed.

(** For an input with strictly increasing timestamps the derivative buffer
    is the list of the derivatives of the consecutive pairs of the sample
    buffer: as many derivatives as samples but one, the [i]-th that of
    samples [i] and [i+1], across every eviction. *)
Lemma derivatives_of_increasing_input m0 input :
  fresh m0 -> increasing input ->
  exists m, state_after input m0 = Some m
    /\ Derivatives m = derivatives_of (Samples m)
    /\ len (Derivatives m) = Z.max 0 (len (Samples m) - 1).
Proof.
  intros Hf Hinc.
  destruct (derivatives_follow_samples input m0 Hf
              (increasing_positively_spaced _ Hinc)) as (m & S & Hd).
  exists m. unfold Derivatives, Samples. repeat split; [done..|].
  rewrite Hd. apply derivatives_of_spec.
Qed.

(** C1 (the code at a duplicate timestamp): the second of two samples with
    the same timestamp is stored but no derivative is computed for the pair,
    so the meter holds two samples and no derivative instead of the one that
    [max(0, 2 - 1)] asks for. *)
Theorem duplicate_timestamp_leaves_derivative_out :
  exists m,
    state_after [at_ms 0 1; at_ms 0 1.5] (New (config_with_window 10)) = Some m
    /\ Samples m = [at_ms 0 1; at_ms 0 1.5]
    /\ Derivatives m = []
    /\ len (Derivatives m) <> Z.max 0 (len (Samples m) - 1).
Proof.
  eexists. split; [vm_compute; reflexivity|].
  vm_compute. repeat split. discriminate.
Qed.

Lemma detect_heating m d :
  index (derivatives m) (len (derivatives m) - 1) = Some d ->
  PrimFloat.ltb (threshold m) d = true ->
  detect m = heating m (len (derivatives m) - 1) d (len (samples m) - 1).
Proof. unfold detect. intros -> H. simpl. by rewrite H. Qed.

Lemma updatePulses_filter m ps :
  derivatives m <> [] -> detect m = Some ps ->
  updatePulses m =
  Some (with_pulses
          (List.filter (keep_pulse (len (samples m)) (minPulseDuration m)) ps) m).
Proof.
  intros Hd E. unfold updatePulses. rewrite E.
  destruct (Z.eqb_spec (len (derivatives m)) 0) as [H0%len_nil_iff|]; done.
Qed.

(** ** Pulse detection *)

(** The final loop of [updatePulses]: an update that has a derivative to
    look at ends by dropping every pulse whose duration is below
    [minPulseDuration], whether or not the pulse could still be extended: the
    retained pulses are those of the detection step that pass the filter, so
    a pulse opened or extended by this very update is dropped by it when it
    is too short. *)
Lemma noise_filter_drops_every_short_pulse (m m' : Meter) (ps : list Pulse) :
  derivatives m <> [] -> detect m = Some ps -> updatePulses m = Some m' ->
  Pulses m' = List.filter (keep_pulse (len (samples m)) (minPulseDuration m)) ps
  /\ (forall p, p ∈ Pulses m' -> minPulseDuration m <= duration p)
  /\ (forall p, p ∈ ps -> duration p < minPulseDuration m -> p ∉ Pulses m').
Proof.
  intros Hd Hdet Hup. rewrite (updatePulses_filter m ps Hd Hdet) in Hup.
  injection Hup as <-. simpl. split; [done|]. split.
  - intros p [_ Hk]%list_elem_of_In%filter_In. unfold keep_pulse in Hk.
    apply andb_true_iff in Hk as [_ Hk]. by apply Z.leb_le.
  - intros p _ Hshort [_ Hk]%list_elem_of_In%filter_In. unfold keep_pulse in Hk.
    apply andb_true_iff in Hk as [_ Hk]. apply Z.leb_le in Hk. lia.
Qed.

Lemma noise_filter_drops_every_short_pulse_witness :
  Pulses (with_pulses [] short_state)
  = List.filter (keep_pulse (len (samples short_state))
                            (minPulseDuration short_state)) [short_pulse]
  /\ (forall p, p ∈ Pulses (with_pulses [] short_state) ->
        minPulseDuration short_state <= duration p)
  /\ (forall p, p ∈ [short_pulse] ->
        duration p < minPulseDuration short_state ->
        p ∉ Pulses (with_pulses [] short_state)).
Proof.
  apply (noise_filter_drops_every_short_pulse
           short_state (with_pulses [] short_state) [short_pulse]).
  - discriminate.
  - reflexivity.
  - reflexivity.
Defined.

(** C2 (the code on samples 100 ms apart): with a minimum pulse duration of
    1 s, the pulse opened at the second sample ends at the latest sample, so
    the next sample above the threshold would extend it
    ([short_state_next]); the update that opened it drops it all the same,
    its 100 ms being less than the minimum. No pulse is held after any of
    twelve samples, although every derivative is above the threshold and the
    heating lasts 1.1 s, longer than the minimum. *)
Theorem open_pulse_dropped_by_noise_filter :
  (before_updatePulses (fast_run 1) (at_ms 100 1) (New (config_with_window 10))
   = Some short_state
   /\ detect short_state = Some [short_pulse]
   /\ EndIndex short_pulse = len (samples short_state) - 1
   /\ detect short_state_next
      = Some [extend_pulse short_pulse 2 (200 * ms) 10]
   /\ duration short_pulse < minPulseDuration short_state
   /\ updatePulses short_state = Some (with_pulses [] short_state))
  /\ Forall (fun n => exists m,
                state_after (fast_run n) (New (config_with_window 10)) = Some m
                /\ Pulses m = []
                /\ Forall (fun d => PrimFloat.ltb (threshold m) d = true)
                          (Derivatives m))
            (seq 0 13)
  /\ (head (fast_run 12) = Some (at_ms 0 0)
      /\ last (fast_run 12) = Some (at_ms 1100 11)
      /\ Sub (Timestamp (at_ms 1100 11)) (Timestamp (at_ms 0 0)) = 1100 * ms
      /\ minPulseDuration (New (config_with_window 10)) = 1000 * ms).
Proof.
  split; [by_computation|]. split.
  - repeat constructor; eexists; (split; [vm_compute; reflexivity|]);
      vm_compute; repeat constructor.
  - by_computation.
Qed.


(** The detection step with the new derivative [d] at the latest sample
    index [i] above the threshold: the pulse at position [j] is extended
    ([EndIndex = i], [EndTime] the latest timestamp, [RawValue = d]) and no
    pulse is appended when either it is the last pulse that ends at index
    [i-1], or no pulse ends at [i-1], it is the last pulse of the list,
    [i <= EndIndex + 2] and the previous derivative was above the threshold
    too. *)
Lemma detect_extends_pulse
    (m : Meter) (i : Z) (d : float) (s1 : Sample) (j : nat) (p : Pulse) :
  len (samples m) = i + 1 ->
  index (samples m) i = Some s1 ->
  index (derivatives m) (len (derivatives m) - 1) = Some d ->
  PrimFloat.ltb (threshold m) d = true ->
  pulses m !! j = Some p ->
  (EndIndex p = i - 1
   /\ forall j' p', (j < j')%nat -> pulses m !! j' = Some p' ->
        EndIndex p' <> i - 1)
  \/ ((forall p', p' ∈ pulses m -> EndIndex p' <> i - 1)
      /\ S j = length (pulses m) /\ i <= EndIndex p + 2
      /\ exists d', index (derivatives m) (len (derivatives m) - 2) = Some d'
                    /\ PrimFloat.ltb (threshold m) d' = true) ->
  detect m = Some (<[j := extend_pulse p i (Timestamp s1) d]> (pulses m))
  /\ length (<[j := extend_pulse p i (Timestamp s1) d]> (pulses m))
     = length (pulses m).
Proof.
  intros Hlen Hs1 Hd Habove Hp Hcase.
  split; [|by rewrite length_insert].
  rewrite (detect_heating m d Hd Habove). unfold heating.
  rewrite Hlen. replace (i + 1 - 1) with i by lia.
  assert (index (pulses m) (Z.of_nat j) = Some p) as Hj.
  { apply index_Some. split; [lia|]. by rewrite Nat2Z.id. }
  destruct Hcase as [[He Hlast] | (Hnone & Hj1 & Hgap & d' & Hd' & Hb)].
  - rewrite (find_active_last _ j p _ Hp He Hlast).
    destruct (Z.leb_spec 0 (Z.of_nat j)); [|lia].
    rewrite Hj, Hs1. simpl. unfold set_index. by rewrite Nat2Z.id.
  - rewrite (find_active_none _ _ Hnone). simpl.
    pose proof (index_bound _ _ _ Hd') as Bd.
    assert (len (pulses m) - 1 = Z.of_nat j) as El by (unfold len; lia).
    assert (should_start m (len (derivatives m) - 1) i = Some false) as ->.
    { unfold should_start.
      destruct (Z.ltb_spec 0 (len (derivatives m) - 1)); [|lia].
      replace (len (derivatives m) - 1 - 1) with (len (derivatives m) - 2) by lia.
      rewrite Hd'. simpl. rewrite Hb.
      destruct (Z.ltb_spec 0 (len (pulses m))); [|lia].
      rewrite El, Hj. simpl. f_equal. apply Z.ltb_ge. lia. }
    simpl. destruct (Z.ltb_spec 0 (len (pulses m))); [|lia].
    rewrite El, Hj. simpl.
    destruct (Z.leb_spec i (EndIndex p + 2)); [|lia].
    rewrite Hs1. simpl. unfold set_index. by rewrite Nat2Z.id.
Qed.

(** ** The time window *)

(** After an input with strictly increasing timestamps the buffer holds a
    suffix of the input that ends with the latest sample, all of it inside
    the window of the latest sample. *)
Lemma window_invariant m0 input latest :
  fresh m0 -> 0 < windowDuration m0 -> increasing (input ++ [latest]) ->
  exists m front,
    state_after (input ++ [latest]) m0 = Some m
    /\ samples m = front ++ [latest]
    /\ windowDuration m = windowDuration m0
    /\ Forall (fun x => Timestamp latest - windowDuration m0 < Timestamp x)
              (samples m).
Proof.
  intros Hf Hw Hinc.
  destruct (process_all_total input m0) as (m1 & t1 & E1 & _ & Hw1 & _).
  assert (state_after input m0 = Some m1) as S1 by (unfold state_after; by rewrite E1).
  destruct (processSample_total latest m1) as (m & t & E & Hs & _ & Hw2 & _).
  assert (state_after (input ++ [latest]) m0 = Some m) as S2.
  { rewrite state_after_snoc, S1. simpl. by rewrite E. }
  destruct Hf as (Hs0 & _ & _).
  destruct (samples_suffix _ _ _ S1) as [ev Hev]. rewrite Hs0 in Hev. simpl in Hev.
  assert (increasing (samples m1 ++ [latest])) as Hinc1.
  { rewrite Hev, <- app_assoc in Hinc. by apply Sorted_app_r in Hinc. }
  apply increasing_strongly in Hinc1.
  destruct (evict_samples (Timestamp latest) (append_sample latest m1))
    as (k & Hk0 & Hk & _ & Hkdef).
  rewrite Hk in Hs. simpl in Hs, Hkdef. unfold slice_from in Hs.
  rewrite Hw1, (neg_pos _ Hw) in Hkdef. unfold Add, cutoffIndex in Hkdef.
  destruct (cutoff_loop_spec (Timestamp latest + - windowDuration m0)
              (samples m1 ++ [latest]) 0)
    as [[Hall _] | (pre & x & post & El & Hpre & Hx & Hc)].
  { apply Forall_app in Hall as [_ Hall]. inversion Hall as [|? ? Hbad _]; subst.
    unfold not_after, After in Hbad. apply Z.ltb_ge in Hbad. lia. }
  assert (samples m = x :: post) as Hsm.
  { rewrite Hs, Hkdef, Hc, El. unfold len. rewrite Z.add_0_l, Nat2Z.id.
    by rewrite drop_app_length. }
  assert (exists front, x :: post = front ++ [latest]) as [front Hfront].
  { apply last_Some. apply (f_equal last) in El.
    by rewrite last_snoc, last_app_cons in El. }
  exists m, front. repeat split; try done; try congruence.
  rewrite Hsm. rewrite El in Hinc1. apply StronglySorted_app_1_r in Hinc1.
  unfold After in Hx. apply Z.ltb_lt in Hx.
  inversion Hinc1 as [|? ? _ Hall]; subst. constructor; [lia|].
  eapply Forall_impl; [exact Hall|]. simpl. intros; lia.
Qed.

(** Scenario D on every instance: with a window of 1.0 s, three samples at
    0 s, 0.5 s and 1.5 s (from any starting instant, with any readings)
    leave, after the third, exactly one sample and no derivative: the sample
    at 0.5 s is exactly at the cutoff 1.5 s - 1.0 s, not after it, and is
    evicted together with the sample at 0 s and with the one derivative. *)
Lemma scenario_D_leaves_latest_sample (m0 : Meter) (s1 s2 s3 : Sample) :
  fresh m0 -> windowDuration m0 = 1000 * ms ->
  Timestamp s2 = Timestamp s1 + 500 * ms ->
  Timestamp s3 = Timestamp s1 + 1500 * ms ->
  exists m,
    state_after [s1; s2; s3] m0 = Some m
    /\ Samples m = [s3] /\ Derivatives m = []
    /\ len (Samples m) = 1 /\ len (Derivatives m) = 0.
Proof.
  intros Hf Hw H2 H3.
  assert (increasing ([s1; s2] ++ [s3])) as Hinc.
  { unfold increasing, ms in *. repeat constructor; lia. }
  destruct (window_invariant m0 [s1; s2] s3 Hf ltac:(rewrite Hw; reflexivity) Hinc)
    as (m & front & S & Hs & _ & Hall).
  destruct (derivatives_of_increasing_input m0 _ Hf Hinc) as (m_ & S_ & Hd & _).
  rewrite S in S_. injection S_ as <-.
  destruct (samples_suffix _ _ _ S) as [ev Hev].
  destruct Hf as (Hs0 & _ & _). rewrite Hs0 in Hev. simpl in Hev.
  assert (samples m = [s3]) as Hm.
  { rewrite Hs in *. rewrite Hw in Hall. unfold ms in *.
    apply Forall_app in Hall as [Hfront _].
    destruct front as [|x front]; [done|]. exfalso.
    inversion Hfront as [|? ? Hx _]; subst.
    assert (x = s1 \/ x = s2) as [-> | ->]; [|lia..].
    destruct ev as [|e1 [|e2 ev]]; simpl in Hev.
    - left. congruence.
    - right. congruence.
    - exfalso. apply (f_equal length) in Hev. simpl in Hev.
      rewrite !length_app in Hev. simpl in Hev. rewrite length_app in Hev.
      simpl in Hev. lia. }
  exists m. unfold Samples, Derivatives in *. rewrite Hd, Hm.
  repeat split; done.
Qed.

Lemma scenario_D_leaves_latest_sample_witness :
  exists m,
    state_after [at_ms 0 1; at_ms 500 1.5; at_ms 1500 2]
                (New (config_with_window 1)) = Some m
    /\ Samples m = [at_ms 1500 2] /\ Derivatives m = []
    /\ len (Samples m) = 1 /\ len (Derivatives m) = 0.
Proof.
  apply (scenario_D_leaves_latest_sample (New (config_with_window 1))
           (at_ms 0 1) (at_ms 500 1.5) (at_ms 1500 2)).
  - repeat split.
  - reflexivity.
  - reflexivity.
  - reflexivity.
Defined.

(** C5 (the code on scenario D): the buffer holds both samples and one
    derivative after the second sample, and only the last sample and no
    derivative after the third, not the 2 samples and 1 derivative of the
    scenario: the sample at 0.5 s, exactly at the cutoff, is evicted. *)
Theorem scenario_D_evicts_sample_at_cutoff :
  windowDuration (New (config_with_window 1)) = 1000 * ms
  /\ (exists m2,
        state_after [at_ms 0 1; at_ms 500 1.5] (New (config_with_window 1))
        = Some m2
        /\ Samples m2 = [at_ms 0 1; at_ms 500 1.5]
        /\ Derivatives m2 = [1%float])
  /\ exists m3,
       state_after [at_ms 0 1; at_ms 500 1.5; at_ms 1500 2]
                   (New (config_with_window 1))
       = Some m3
       /\ Samples m3 = [at_ms 1500 2]
       /\ Derivatives m3 = []
       /\ len (Samples m3) <> 2 /\ len (Derivatives m3) <> 1.
Proof.
  split; [reflexivity|]. split; eexists; (split; [vm_compute; reflexivity|]);
    by_computation.
Qed.

(** C6: for every input with strictly increasing timestamps and a positive
    window, each push leaves in the buffer only samples whose timestamp is
    strictly after the latest timestamp minus [windowDuration]: the push of
    [s] drops from the front of the buffer (with [s] appended) exactly the
    [k] leading samples that are at or before that cutoff. *)
Theorem push_keeps_window (m0 : Meter) (input : list Sample) (s : Sample) :
  fresh m0 -> 0 < windowDuration m0 -> increasing (input ++ [s]) ->
  exists m1 m t k,
    state_after input m0 = Some m1
    /\ processSample s m1 = Some (m, t)
    /\ state_after (input ++ [s]) m0 = Some m
    /\ samples m = drop k (samples m1 ++ [s])
    /\ Forall (fun x => Timestamp x <= Timestamp s - windowDuration m0)
              (take k (samples m1 ++ [s]))
    /\ Forall (fun x => Timestamp s - windowDuration m0 < Timestamp x)
              (samples m).
Proof.
  intros (Hs0 & _ & _) Hw Hinc.
  destruct (process_all_total input m0) as (m1 & t1 & E1 & _ & Hw1 & _).
  assert (state_after input m0 = Some m1) as S1 by (unfold state_after; by rewrite E1).
  destruct (processSample_total s m1) as (m & t & E & Hs & _).
  exists m1, m, t.
  assert (state_after (input ++ [s]) m0 = Some m) as S2.
  { rewrite state_after_snoc, S1. simpl. by rewrite E. }
  destruct (samples_suffix _ _ _ S1) as [ev Hev]. rewrite Hs0 in Hev. simpl in Hev.
  assert (increasing (samples m1 ++ [s])) as Hinc1.
  { rewrite Hev, <- app_assoc in Hinc. by apply increasing_app_r in Hinc. }
  apply increasing_strongly in Hinc1.
  destruct (evict_samples (Timestamp s) (append_sample s m1)) as (k & Hk0 & Hk & _ & Hkdef).
  rewrite Hk in Hs. simpl in Hs, Hkdef. unfold slice_from in Hs.
  exists (Z.to_nat k). repeat split; try done.
  all: rewrite Hw1, (neg_pos _ Hw) in Hkdef; unfold Add in Hkdef; unfold cutoffIndex in Hkdef.
  all: destruct (cutoff_loop_spec (Timestamp s + - windowDuration m0) (samples m1 ++ [s]) 0)
         as [[Hall _] | (pre & x & post & El & Hpre & Hx & Hc)].
  - apply Forall_app in Hall as [_ Hall]. inversion Hall as [|? ? Hbad _]; subst.
    unfold not_after, After in Hbad. apply Z.ltb_ge in Hbad. lia.
  - rewrite Hkdef, Hc, El. unfold len. rewrite Z.add_0_l, Nat2Z.id.
    rewrite take_app_length. eapply Forall_impl; [exact Hpre|].
    intros y Hy. unfold not_after, After in Hy. apply Z.ltb_ge in Hy. lia.
  - apply Forall_app in Hall as [_ Hall]. inversion Hall as [|? ? Hbad _]; subst.
    unfold not_after, After in Hbad. apply Z.ltb_ge in Hbad. lia.
  - rewrite Hs, Hkdef, Hc, El. unfold len. rewrite Z.add_0_l, Nat2Z.id.
    rewrite drop_app_length.
    rewrite El in Hinc1. apply StronglySorted_app_1_r in Hinc1.
    unfold After in Hx. apply Z.ltb_lt in Hx.
    inversion Hinc1 as [|? ? _ Hall]; subst. constructor; [lia|].
    eapply Forall_impl; [exact Hall|]. simpl. intros; lia.
Qed.

Lemma push_keeps_window_witness :
  exists m1 m t k,
    state_after [at_ms 0 1; at_ms 500 1.5] (New (config_with_window 1)) = Some m1
    /\ processSample (at_ms 1500 2) m1 = Some (m, t)
    /\ state_after ([at_ms 0 1; at_ms 500 1.5] ++ [at_ms 1500 2])
                   (New (config_with_window 1)) = Some m
    /\ samples m = drop k (samples m1 ++ [at_ms 1500 2])
    /\ Forall (fun x => Timestamp x <= Timestamp (at_ms 1500 2)
                        - windowDuration (New (config_with_window 1)))
              (take k (samples m1 ++ [at_ms 1500 2]))
    /\ Forall (fun x => Timestamp (at_ms 1500 2)
                        - windowDuration (New (config_with_window 1))
                        < Timestamp x)
              (samples m).
Proof.
  apply (push_keeps_window (New (config_with_window 1))
           [at_ms 0 1; at_ms 500 1.5] (at_ms 1500 2)).
  - repeat split.
  - reflexivity.
  - sorted_by_computation.
Defined.

(** C6 fails without a positive window: a [WindowSeconds] of [2^-31] s
    (less than a nanosecond) is positive, [New] truncates it to a
    [windowDuration] of 0, and then nothing is evicted: both samples of the
    run stay in the buffer although neither is after the latest timestamp
    minus the window. *)
Lemma window_below_a_nanosecond_keeps_every_sample :
  PrimFloat.ltb 0 (WindowSeconds (config_with_window 0x1p-31)) = true
  /\ windowDuration (New (config_with_window 0x1p-31)) = 0
  /\ increasing [at_ms 0 1; at_ms 1000 2]
  /\ exists m,
       state_after [at_ms 0 1; at_ms 1000 2] (New (config_with_window 0x1p-31))
       = Some m
       /\ Samples m = [at_ms 0 1; at_ms 1000 2]
       /\ ~ Forall (fun x => Timestamp (at_ms 1000 2)
                              - windowDuration (New (config_with_window 0x1p-31))
                              < Timestamp x)
                   (Samples m).
Proof.
  split; [reflexivity|]. split; [reflexivity|].
  split; [sorted_by_computation|].
  eexists. split; [vm_compute; reflexivity|]. split; [reflexivity|].
  intros H. inversion H as [|? ? Hx _]; subst. vm_compute in Hx. discriminate.
Qed.

(** ** The invariant of the retained pulses *)

Lemma heating_idx_ok m i d ps :
  heating m i d (len (samples m) - 1) = Some ps ->
  Forall (idx_ok (len (samples m))) (pulses m) ->
  Forall (idx_ok (len (samples m))) ps.
Proof.
  unfold heating. intros H Hok.
  set (n := len (samples m)) in *.
  destruct (0 <=? find_active _ _ _).
  - destruct (index (pulses m) _) as [p|] eqn:Ep; [|done]. simpl in H.
    destruct (index (samples m) (n - 1)) as [s|] eqn:Es; [|done]. simpl in H.
    injection H as <-. apply index_bound in Es. fold n in Es.
    apply index_Some in Ep as [_ Ep].
    apply Forall_set_index; [done|].
    rewrite Forall_forall in Hok. specialize (Hok p (list_elem_of_lookup_2 _ _ _ Ep)).
    unfold idx_ok in *. simpl. lia.
  - destruct (should_start m i (n - 1)) as [[]|]; [| |done]; simpl in H.
    + destruct (index (samples m) (if n - 1 - 1 <? 0 then 0 else n - 1 - 1)) as [s0|];
        [|done]. simpl in H.
      destruct (index (samples m) (n - 1)) as [s1|] eqn:Es; [|done]. simpl in H.
      injection H as <-. apply index_bound in Es. fold n in Es.
      apply Forall_app. split; [done|]. constructor; [|constructor].
      unfold idx_ok. simpl. destruct (Z.ltb_spec (n - 1 - 1) 0); lia.
    + destruct (0 <? len (pulses m)); [|by injection H as <-].
      destruct (index (pulses m) _) as [p|] eqn:Ep; [|done]. simpl in H.
      destruct (n - 1 <=? EndIndex p + 2); [|by injection H as <-].
      destruct (index (samples m) (n - 1)) as [s|] eqn:Es; [|done]. simpl in H.
      injection H as <-. apply index_bound in Es. fold n in Es.
      apply index_Some in Ep as [_ Ep].
      apply Forall_set_index; [done|].
      rewrite Forall_forall in Hok. specialize (Hok p (list_elem_of_lookup_2 _ _ _ Ep)).
      unfold idx_ok in *. simpl. lia.
Qed.

(** Pulse detection keeps the invariant of the retained pulses. *)
Lemma updatePulses_pulses_ok m m' :
  updatePulses m = Some m' -> pulses_ok m -> pulses_ok m'.
Proof.
  unfold updatePulses, pulses_ok.
  destruct (len (derivatives m) =? 0); [by intros [= <-]|].
  destruct (detect m) as [ps|] eqn:Ed; [|done]. simpl. intros [= <-] Hok. simpl.
  assert (Forall (idx_ok (len (samples m))) ps) as Hps.
  { assert (Forall (idx_ok (len (samples m))) (pulses m)) as Hidx.
    { eapply Forall_impl; [exact Hok|]. intros p Hp. apply Hp. }
    unfold detect in Ed.
    destruct (index (derivatives m) _) as [d|]; [|done]. simpl in Ed.
    destruct (PrimFloat.ltb _ _).
    - by eapply heating_idx_ok.
    - by injection Ed as <-. }
  apply Forall_forall. intros p Hp.
  apply list_elem_of_In, filter_In in Hp as [Hp Hk].
  apply list_elem_of_In in Hp. rewrite Forall_forall in Hps.
  split; [by apply Hps|].
  unfold keep_pulse in Hk. apply andb_true_iff in Hk as [_ Hk]. by apply Z.leb_le.
Qed.

(** Eviction's renumbering keeps the invariant of the retained pulses. *)
Lemma evict_pulses_ok now m : pulses_ok m -> pulses_ok (evict now m).
Proof.
  unfold pulses_ok. intros Hok.
  destruct (evict_samples now m) as (k & Hk0 & Hs & Hlt & Hk).
  unfold evict in *. rewrite <- Hk in *.
  destruct (Z.ltb_spec 0 k); [|done]. simpl in *.
  apply Forall_forall. intros p' Hp'.
  apply list_elem_of_In, filter_In in Hp' as [Hp' Hnn].
  apply list_elem_of_In, list_elem_of_fmap in Hp' as (p & -> & Hp).
  rewrite Forall_forall in Hok. specialize (Hok p Hp).
  unfold index_nonneg in Hnn. apply andb_true_iff in Hnn as [Hn1 Hn2].
  apply Z.leb_le in Hn1, Hn2. simpl in *.
  destruct Hok as [(H1 & H2 & H3) H4].
  assert (samples m <> []) as Hne.
  { intros E. rewrite E in H3. change (len []) with 0 in H3. lia. }
  specialize (Hlt Hne).
  rewrite len_slice_from by lia.
  split; [|done]. unfold idx_ok. simpl. lia.
Qed.

Lemma append_pulses_ok s m : pulses_ok m -> pulses_ok (append_sample s m).
Proof.
  unfold pulses_ok. simpl. intros H. eapply Forall_impl; [exact H|].
  intros p [(H1 & H2 & H3) H4]. rewrite len_app. change (len [s]) with 1.
  split; [|done]. unfold idx_ok. lia.
Qed.

Lemma update_derivative_pulses_ok m m' :
  update_derivative m = Some m' -> pulses_ok m -> pulses_ok m'.
Proof.
  destruct (update_derivative_total m) as (m2 & -> & Hs & Hp & _ & _ & _ & Hm & _).
  intros [= <-]. unfold pulses_ok. by rewrite Hs, Hp, Hm.
Qed.

Lemma processSample_pulses_ok s m m' t :
  processSample s m = Some (m', t) -> pulses_ok m -> pulses_ok m'.
Proof.
  unfold processSample. intros H Hok.
  destruct (update_derivative _) as [m2|] eqn:E2; [|done]. simpl in H.
  destruct (updatePulses m2) as [m3|] eqn:E3; [|done]. simpl in H.
  injection H as <- _.
  eapply updatePulses_pulses_ok; [exact E3|].
  eapply update_derivative_pulses_ok; [exact E2|].
  by apply evict_pulses_ok, append_pulses_ok.
Qed.

Lemma state_after_pulses_ok input : forall m0 m,
  state_after input m0 = Some m -> pulses_ok m0 -> pulses_ok m.
Proof.
  unfold state_after.
  induction input as [|s input IH]; intros m0 m; simpl.
  - by intros [= <-].
  - destruct (processSample s m0) as [[m1 t1]|] eqn:E1; [|done]. simpl.
    intros H Hok. apply (IH m1).
    + destruct (process_all input m1) as [[m2 t2]|]; [|done]. simpl in *. congruence.
    + by eapply processSample_pulses_ok.
Qed.

Lemma fresh_pulses_ok m : fresh m -> pulses_ok m.
Proof. intros (_ & _ & Hp). unfold pulses_ok. rewrite Hp. constructor. Qed.

(** C7: in every state reached by processing samples with strictly
    increasing timestamps, every retained pulse has
    [0 <= StartIndex <= EndIndex < len(samples)] and
    [EndTime - StartTime >= minPulseDuration]; while the next sample is
    processed the property holds again after eviction has renumbered the
    pulses and after pulse detection has run. *)
Theorem retained_pulses_valid (m0 : Meter) (input : list Sample) :
  fresh m0 -> increasing input ->
  exists m,
    state_after input m0 = Some m
    /\ (forall p, p ∈ Pulses m ->
          (0 <= StartIndex p /\ StartIndex p <= EndIndex p
           /\ EndIndex p < len (Samples m))
          /\ minPulseDuration m <= Sub (EndTime p) (StartTime p))
    /\ forall s, increasing (input ++ [s]) ->
         let m1 := evict (Timestamp s) (append_sample s m) in
         pulses_ok m1
         /\ exists m2 m3, update_derivative m1 = Some m2
              /\ updatePulses m2 = Some m3 /\ pulses_ok m3
              /\ state_after (input ++ [s]) m0 = Some m3.
Proof.
  intros Hf _.
  destruct (process_all_total input m0) as (m & t & E & _).
  assert (state_after input m0 = Some m) as S by (unfold state_after; by rewrite E).
  pose proof (state_after_pulses_ok _ _ _ S (fresh_pulses_ok _ Hf)) as Hok.
  exists m. split; [done|]. split.
  { intros p Hp. unfold pulses_ok in Hok. rewrite Forall_forall in Hok. by apply Hok. }
  intros s _ m1.
  assert (pulses_ok m1) as H1 by (by apply evict_pulses_ok, append_pulses_ok).
  split; [done|].
  destruct (processSample_total s m) as (m3 & t3 & E3 & _).
  pose proof E3 as E3'. unfold processSample in E3'. fold m1 in E3'.
  destruct (update_derivative m1) as [m2|] eqn:E2; [|done]. simpl in E3'.
  destruct (updatePulses m2) as [m3'|] eqn:E4; [|done]. simpl in E3'.
  injection E3' as -> _.
  exists m2, m3. repeat split; try done.
  - eapply updatePulses_pulses_ok; [exact E4|].
    by eapply update_derivative_pulses_ok.
  - rewrite state_after_snoc, S. simpl. by rewrite E3.
Qed.

Lemma retained_pulses_valid_witness :
  exists m,
    state_after [at_ms 0 0; at_ms 1000 1; at_ms 2000 1; at_ms 3000 2]
                (New (config_with_window 10)) = Some m
    /\ (forall p, p ∈ Pulses m ->
          (0 <= StartIndex p /\ StartIndex p <= EndIndex p
           /\ EndIndex p < len (Samples m))
          /\ minPulseDuration m <= Sub (EndTime p) (StartTime p))
    /\ forall s,
         increasing ([at_ms 0 0; at_ms 1000 1; at_ms 2000 1; at_ms 3000 2] ++ [s]) ->
         let m1 := evict (Timestamp s) (append_sample s m) in
         pulses_ok m1
         /\ exists m2 m3, update_derivative m1 = Some m2
              /\ updatePulses m2 = Some m3 /\ pulses_ok m3
              /\ state_after
                   ([at_ms 0 0; at_ms 1000 1; at_ms 2000 1; at_ms 3000 2] ++ [s])
                   (New (config_with_window 10)) = Some m3.
Proof.
  apply (retained_pulses_valid (New (config_with_window 10))
           [at_ms 0 0; at_ms 1000 1; at_ms 2000 1; at_ms 3000 2]).
  - repeat split.
  - sorted_by_computation.
Defined.

(** ** Samples that arrive late *)

(** After an input with strictly increasing timestamps, a sample that is
    not after the latest one evicts nothing. *)
Lemma late_sample_evicts_nothing m0 input latest s :
  fresh m0 -> 0 < windowDuration m0 -> increasing (input ++ [latest]) ->
  Timestamp s <= Timestamp latest ->
  exists m front,
    state_after (input ++ [latest]) m0 = Some m
    /\ samples m = front ++ [latest]
    /\ evict (Timestamp s) (append_sample s m) = append_sample s m.
Proof.
  intros Hf Hw Hinc Hle.
  destruct (window_invariant m0 input latest Hf Hw Hinc)
    as (m & front & S & Hs & Hwm & Hall).
  exists m, front. split; [done|]. split; [done|].
  unfold evict. cbn [samples windowDuration append_sample].
  assert (cutoffIndex (Add (Timestamp s) (neg (windowDuration m))) (samples m ++ [s]) = 0)
    as ->; [|done].
  rewrite Hwm, (neg_pos _ Hw). unfold cutoffIndex, Add.
  destruct (samples m) as [|y rest] eqn:Ey.
  { by destruct front. }
  simpl. inversion Hall as [|? ? Hy _]; subst.
  unfold After.
  destruct (Z.ltb_spec (Timestamp s + - windowDuration m0) (Timestamp y)); [done|lia].
Qed.

(** Such a sample gets no derivative: the derivative buffer is left as it
    was, one short of matching the samples. *)
Lemma late_sample_gets_no_derivative m0 input latest s :
  fresh m0 -> 0 < windowDuration m0 -> increasing (input ++ [latest]) ->
  Timestamp s <= Timestamp latest ->
  exists m m' t,
    state_after (input ++ [latest]) m0 = Some m
    /\ processSample s m = Some (m', t)
    /\ Derivatives m' = Derivatives m
    /\ len (Derivatives m') = len (Samples m') - 2.
Proof.
  intros Hf Hw Hinc Hle.
  destruct (late_sample_evicts_nothing m0 input latest s Hf Hw Hinc Hle)
    as (m & front & S & Hs & Hev).
  destruct (derivatives_of_increasing_input m0 _ Hf Hinc) as (m_ & S_ & Hd & _).
  rewrite S in S_. injection S_ as <-.
  destruct (processSample_total s m) as (m' & t & E & Hs' & _).
  exists m, m', t. split; [done|]. split; [done|].
  pose proof E as E'. unfold processSample in E'. rewrite Hev in E', Hs'.
  assert (update_derivative (append_sample s m) = Some (append_sample s m)) as Hud.
  { unfold update_derivative. cbn [samples append_sample]. rewrite Hs, <- app_assoc.
    change ([latest] ++ [s]) with [latest; s].
    destruct (index_last_two front latest s) as [-> ->].
    destruct (Z.leb_spec 2 (len (front ++ [latest; s]))); [|done].
    cbn [mbind option_bind]. rewrite elapsed_positive. unfold After.
    destruct (Z.ltb_spec (Timestamp latest) (Timestamp s)); [lia|done]. }
  rewrite Hud in E'. cbn [mbind option_bind] in E'.
  destruct (updatePulses_total (append_sample s m)) as (m3 & E3 & Hs3 & Hd3 & _).
  { cbn [samples append_sample]. by destruct (samples m). }
  rewrite E3 in E'. cbn [mbind option_bind] in E'. injection E' as <- _.
  unfold Derivatives, Samples in *. rewrite Hd3, Hs3. cbn [derivatives samples append_sample].
  split; [done|]. rewrite Hd, len_app. change (len [s]) with 1.
  destruct (derivatives_of_spec (samples m)) as [-> _].
  rewrite Hs, len_app. change (len [latest]) with 1.
  pose proof (len_nonneg front). lia.
Qed.




(** ** Callbacks and shutdown *)

Lemma notifyCallbacks_callees m : callee <$> notifyCallbacks m = live_callbacks m.
Proof.
  unfold notifyCallbacks, live_callbacks.
  induction (callbacks m) as [|[c|] cbs IH]; [done | | exact IH].
  change (c :: (callee <$> omap (fun cb : option Callback =>
            c0 ← cb; Some (mkCall c0 (samples m) (derivatives m) (pulses m))) cbs)
          = c :: omap id cbs).
  by f_equal.
Qed.

Lemma notifyCallbacks_snapshot m c :
  c ∈ notifyCallbacks m ->
  samplesCopy c = Samples m /\ derivativesCopy c = Derivatives m
  /\ pulsesCopy c = Pulses m.
Proof.
  unfold notifyCallbacks. intros (cb & _ & H)%list_elem_of_omap.
  destruct cb as [n|]; [|done]. simpl in H. by injection H as <-.
Qed.

(** The calls made while [input] is processed: none when the meter is shut
    down, otherwise every live callback once per sample. *)
Lemma process_all_calls input : forall m,
  exists m' t, process_all input m = Some (m', t)
    /\ shutdown m' = shutdown m /\ callbacks m' = callbacks m
    /\ callee <$> t =
       (if shutdown m then []
        else mjoin (replicate (length input) (live_callbacks m))).
Proof.
  induction input as [|s input IH]; intros m; simpl.
  - exists m, []. repeat split. by destruct (shutdown m).
  - destruct (processSample_total s m) as (m1 & t1 & -> & _ & Hc & _ & _ & _ & Hsd & Ht).
    simpl. destruct (IH m1) as (m2 & t2 & -> & Hsd2 & Hc2 & Ht2). simpl.
    exists m2, (t1 ++ t2). repeat split; try congruence.
    rewrite fmap_app, Ht2, Hsd, Ht. destruct (shutdown m); [done|].
    rewrite notifyCallbacks_callees. unfold live_callbacks. by rewrite Hc.
Qed.

(** C9: once [ProcessSamples] has returned (its input was closed), the
    samples processed afterwards invoke no callback; [ResetShutdown] changes
    none of the samples, derivatives and pulses, and after it every sample
    processed invokes each registered callback once, on the buffers as they
    are after that sample. *)
Theorem shutdown_mutes_callbacks_until_reset
    (m : Meter) (input later : list Sample) (s : Sample) :
  exists m1 t1,
    ProcessSamples input m = Some (m1, t1)
    /\ (exists m2, process_all later m1 = Some (m2, []))
    /\ (Samples (ResetShutdown m1) = Samples m1
        /\ Derivatives (ResetShutdown m1) = Derivatives m1
        /\ Pulses (ResetShutdown m1) = Pulses m1)
    /\ (exists m3 t3,
          processSample s (ResetShutdown m1) = Some (m3, t3)
          /\ callee <$> t3 = live_callbacks m
          /\ forall c, c ∈ t3 ->
               samplesCopy c = Samples m3 /\ derivativesCopy c = Derivatives m3
               /\ pulsesCopy c = Pulses m3)
    /\ (exists m4 t4,
          process_all later (ResetShutdown m1) = Some (m4, t4)
          /\ callee <$> t4 = mjoin (replicate (length later) (live_callbacks m))).
Proof.
  unfold ProcessSamples.
  destruct (process_all_calls input m) as (m1 & t1 & -> & _ & Hc & _). simpl.
  exists (set_shutdown true m1), t1. split; [done|]. split; [|split; [done|split]].
  - destruct (process_all_calls later (set_shutdown true m1)) as (m2 & t2 & E & _ & _ & Ht).
    simpl in Ht. apply fmap_nil_inv in Ht as ->. by exists m2.
  - destruct (processSample_total s (ResetShutdown (set_shutdown true m1)))
      as (m3 & t3 & E & _ & Hc3 & _ & _ & _ & _ & Ht).
    simpl in Ht, Hc3. exists m3, t3. split; [done|]. subst t3. split.
    + rewrite notifyCallbacks_callees. unfold live_callbacks. congruence.
    + apply notifyCallbacks_snapshot.
  - destruct (process_all_calls later (ResetShutdown (set_shutdown true m1)))
      as (m4 & t4 & E & _ & _ & Ht).
    simpl in Ht. exists m4, t4. split; [done|]. rewrite Ht.
    unfold live_callbacks. simpl. by rewrite Hc.
Qed.

(** ** Inputs sampled faster than the minimum pulse duration *)

(** With no pulse retained, pulse detection retains none when the last two
    samples are closer than the minimum pulse duration. *)
Lemma updatePulses_none m m' :
  updatePulses m = Some m' -> pulses m = [] ->
  (forall front a b, samples m = front ++ [a; b] ->
     Sub (Timestamp b) (Timestamp a) < minPulseDuration m) ->
  (derivatives m <> [] -> 0 < minPulseDuration m) ->
  pulses m' = [].
Proof.
  unfold updatePulses. intros H Hp Hclose Hpos.
  destruct (Z.eqb_spec (len (derivatives m)) 0) as [|Hne]; [by injection H as <-|].
  assert (derivatives m <> []) as Hd by (by intros E%len_nil_iff).
  specialize (Hpos Hd).
  destruct (detect m) as [ps|] eqn:Ed; [|done]. simpl in H. injection H as <-. simpl.
  unfold detect in Ed.
  destruct (index (derivatives m) _) as [d|]; [|done]. simpl in Ed.
  destruct (PrimFloat.ltb _ _); [|injection Ed as <-; by rewrite Hp].
  unfold heating in Ed. rewrite Hp in Ed. simpl in Ed.
  destruct (should_start m _ _) as [[]|]; [| |done]; simpl in Ed;
    [|injection Ed as <-; done].
  set (n := len (samples m)) in *.
  destruct (index (samples m) (if n - 1 - 1 <? 0 then 0 else n - 1 - 1)) as [s0|] eqn:E0;
    [|done]. simpl in Ed.
  destruct (index (samples m) (n - 1)) as [s1|] eqn:E1; [|done]. simpl in Ed.
  injection Ed as <-. simpl.
  assert (duration (mkPulse (if n - 1 - 1 <? 0 then 0 else n - 1 - 1) (n - 1)
            (Timestamp s0) (Timestamp s1) d 0) < minPulseDuration m) as Hshort.
  { unfold duration. simpl.
    destruct (Z.ltb_spec (n - 1 - 1) 0).
    - pose proof (index_bound _ _ _ E1). assert (n - 1 = 0) as En by lia.
      rewrite En in E1. rewrite E1 in E0. injection E0 as ->. by rewrite Sub_self.
    - destruct (last_two_split _ _ _ E0 E1) as [front Hfront]. by eapply Hclose. }
  unfold keep_pulse. apply Z.leb_gt in Hshort. rewrite Hshort.
  by rewrite andb_false_r.
Qed.

Lemma evict_pulses_nil now m : pulses m = [] -> pulses (evict now m) = [].
Proof. unfold evict. intros H. destruct (_ <? _); simpl; by rewrite H. Qed.

Lemma evict_derivatives_nil now m : derivatives m = [] -> derivatives (evict now m) = [].
Proof.
  unfold evict. intros H. destruct (_ <? _); simpl; rewrite H; [|done].
  destruct (_ <=? _); [|done]. unfold slice_from. by rewrite drop_nil.
Qed.

Lemma update_derivative_nonempty m m' :
  update_derivative m = Some m' -> derivatives m = [] -> derivatives m' <> [] ->
  2 <= len (samples m).
Proof.
  unfold update_derivative. destruct (Z.leb_spec 2 (len (samples m))); [done|].
  intros [= <-] Hnil. congruence.
Qed.

(** The invariant behind the empty pulse list. *)
Lemma no_pulse_invariant mn input : forall m0,
  fresh m0 -> minPulseDuration m0 = mn ->
  increasing input -> spacing_below mn input ->
  exists m, state_after input m0 = Some m
    /\ pulses m = []
    /\ (derivatives m <> [] -> (2 <= length input)%nat).
Proof.
  induction input as [|s input IH] using rev_ind; intros m0 Hf Hmn Hinc Hsp.
  - exists m0. destruct Hf as (_ & Hd & Hp). repeat split; try done.
  - destruct (IH m0 Hf Hmn (increasing_app_l _ _ Hinc)) as (m & S & Hp & Hd).
    { clear -Hsp. unfold spacing_below in *. revert Hsp.
      induction input as [|a l IHl]; simpl; [constructor|].
      intros H. inversion H as [|? ? Hs Hh]; subst. constructor; [by apply IHl|].
      destruct l; simpl in *; [constructor|]. inversion Hh; subst. by constructor. }
    destruct (processSample_total s m) as (m' & t & E & Hs & _ & _ & _ & Hm' & _).
    assert (state_after (input ++ [s]) m0 = Some m') as S'.
    { rewrite state_after_snoc, S. simpl. by rewrite E. }
    exists m'. split; [done|].
    destruct (samples_suffix _ _ _ S') as [ev Hev].
    destruct Hf as (Hs0 & _ & _). rewrite Hs0 in Hev. simpl in Hev.
    assert (minPulseDuration m = mn) as Hm.
    { unfold state_after in S.
      destruct (process_all_total input m0) as (m2 & t2 & E2 & _ & _ & _ & Hmm & _).
      rewrite E2 in S. simpl in S. congruence. }
    pose proof E as E'. unfold processSample in E'.
    pose proof (evict_fields (Timestamp s) (append_sample s m)) as (_ & _ & _ & Hm1 & _).
    simpl in Hm1.
    set (m1 := evict (Timestamp s) (append_sample s m)) in *.
    destruct (update_derivative m1) as [m2|] eqn:E2; [|done]. simpl in E'.
    destruct (updatePulses m2) as [m3|] eqn:E3; [|done]. simpl in E'.
    injection E' as -> _.
    destruct (update_derivative_total m1) as (m2' & E2' & Hs2 & Hp2 & _ & _ & _ & Hm2 & _).
    rewrite E2 in E2'. injection E2' as <-.
    destruct (updatePulses_total m2) as (m3' & E3' & Hs3 & Hd3 & _ & _ & _ & Hm3 & _).
    { rewrite Hs2. apply evict_samples_nonempty. simpl. by destruct (samples m). }
    rewrite E3 in E3'. injection E3' as <-.
    assert (derivatives m2 <> [] -> (2 <= length (input ++ [s]))%nat) as Hd2.
    { intros Hne. rewrite length_app. simpl.
      destruct (decide (derivatives m = [])) as [Hnil|Hnn]; [|specialize (Hd Hnn); lia].
      assert (derivatives m1 = []) as H1 by (by apply evict_derivatives_nil).
      pose proof (update_derivative_nonempty _ _ E2 H1 Hne) as Hlen.
      rewrite <- Hs2, <- Hs3 in Hlen. apply (f_equal length) in Hev.
      rewrite !length_app in Hev. simpl in Hev. unfold len in Hlen. lia. }
    split; [|by rewrite Hd3].
    eapply updatePulses_none; [exact E3 | | | ].
    + rewrite Hp2. by apply evict_pulses_nil.
    + intros front a b Hfront. rewrite Hm2, Hm1, Hm.
      rewrite Hs3, Hfront in Hev. rewrite Hev, app_assoc in Hinc, Hsp.
      apply Sorted_last_two in Hinc, Hsp.
      pose proof (Sub_le (Timestamp b) (Timestamp a)). unfold minDuration in *. lia.
    + intros Hne. specialize (Hd2 Hne). rewrite Hm2, Hm1, Hm.
      destruct (input ++ [s]) as [|a [|b l]]; simpl in Hd2; try lia.
      apply Sorted_first_two in Hinc, Hsp. lia.
Qed.

(** C10: when the timestamps of the input increase strictly and every two
    consecutive samples are less than [minPulseDuration] apart, no pulse is
    retained after any processed sample, whatever the readings (and so the
    derivatives) are. *)
Theorem fast_sampling_retains_no_pulse (m0 : Meter) (input : list Sample) :
  fresh m0 -> increasing input -> spacing_below (minPulseDuration m0) input ->
  forall processed, processed `prefix_of` input ->
    exists m, state_after processed m0 = Some m /\ Pulses m = [].
Proof.
  intros Hf Hinc Hsp processed [rest ->].
  destruct (no_pulse_invariant (minPulseDuration m0) processed m0 Hf eq_refl)
    as (m & S & Hp & _).
  - by eapply Sorted_app_l.
  - by eapply Sorted_app_l.
  - by exists m.
Qed.

Lemma fast_sampling_retains_no_pulse_witness :
  exists m,
    state_after [at_ms 0 1; at_ms 100 1.5; at_ms 200 2]
                (New (config_with_window 10)) = Some m
    /\ Pulses m = [].
Proof.
  apply (fast_sampling_retains_no_pulse (New (config_with_window 10))
           [at_ms 0 1; at_ms 100 1.5; at_ms 200 2; at_ms 300 2.5]).
  - repeat split.
  - sorted_by_computation.
  - sorted_by_computation.
  - exists [at_ms 300 2.5]. reflexivity.
Defined.

(** ** The derivative buffer on every input *)

(** After the new sample has been appended and the window evicted, the
    derivative buffer has room for the derivative of the latest pair. *)
Lemma evict_derivatives_bounded s m :
  derivatives_bounded m ->
  len (derivatives (evict (Timestamp s) (append_sample s m)))
  <= Z.max 0 (len (samples (evict (Timestamp s) (append_sample s m))) - 2).
Proof.
  unfold derivatives_bounded. intros Hb.
  destruct (evict_samples (Timestamp s) (append_sample s m)) as (k & Hk0 & Hs & Hk & Ek).
  assert (k < len (samples m) + 1) as Hlt.
  { simpl in Hk. rewrite len_app in Hk. apply Hk. by destruct (samples m). }
  rewrite Hs. simpl. rewrite len_slice_from by (rewrite len_app; change (len [s]) with 1; lia).
  rewrite len_app. change (len [s]) with 1.
  unfold evict. rewrite <- Ek. simpl.
  pose proof (len_nonneg (derivatives m)). pose proof (len_nonneg (samples m)).
  destruct (Z.ltb_spec 0 k); simpl; [|lia].
  destruct (Z.leb_spec k (len (derivatives m))).
  - rewrite len_slice_from by lia. lia.
  - change (len []) with 0. lia.
Qed.

(** The derivative block then appends at most one derivative and never
    drops the oldest one: its safety trim is not reached. *)
Lemma update_derivative_appends m :
  len (derivatives m) <= Z.max 0 (len (samples m) - 2) ->
  exists m', update_derivative m = Some m'
    /\ samples m' = samples m /\ pulses m' = pulses m
    /\ appended_one (derivatives m) (derivatives m')
    /\ derivatives_bounded m'.
Proof.
  intros Hb. unfold update_derivative, derivatives_bounded.
  pose proof (len_nonneg (derivatives m)).
  destruct (Z.leb_spec 2 (len (samples m))).
  - destruct (index_lt (samples m) (len (samples m) - 1 - 1)) as [prev ->]; [lia|].
    destruct (index_lt (samples m) (len (samples m) - 1)) as [curr ->]; [lia|].
    simpl. destruct (PrimFloat.ltb _ _).
    + rewrite len_app. change (len [_]) with 1.
      destruct (Z.ltb_spec (len (samples m) - 1) (len (derivatives m) + 1)); [lia|].
      eexists. split; [reflexivity|]. simpl. repeat split; [right; eauto|].
      rewrite len_app. change (len [_]) with 1. lia.
    + eexists. split; [reflexivity|]. repeat split; [by left | lia].
  - eexists. split; [reflexivity|]. repeat split; [by left | lia].
Qed.

(** ** The pulse list on every input *)

Lemma index_app_l {A} (l l' : list A) i x :
  index l i = Some x -> index (l ++ l') i = Some x.
Proof.
  intros H. apply index_Some in H as [H0 H]. apply index_Some. split; [done|].
  by apply lookup_app_l_Some.
Qed.

Lemma index_slice_from {A} (l : list A) k i :
  0 <= k <= i -> index (slice_from k l) (i - k) = index l i.
Proof.
  intros H. unfold index, slice_from.
  destruct (Z.ltb_spec (i - k) 0); [lia|]. destruct (Z.ltb_spec i 0); [lia|].
  rewrite lookup_drop. f_equal. lia.
Qed.

Lemma index_fmap_bound {A B} (f : A -> B) (l : list A) i y :
  f <$> index l i = Some y -> 0 <= i < len l.
Proof.
  destruct (index l i) as [x|] eqn:E; [|done]. intros _. by eapply index_bound.
Qed.

Lemma StronglySorted_filter {A} (R : A -> A -> Prop) (f : A -> bool) l :
  StronglySorted R l -> StronglySorted R (List.filter f l).
Proof.
  induction 1 as [|x l Hl IH Hx]; simpl; [constructor|].
  destruct (f x); [|done]. constructor; [done|].
  rewrite Forall_forall in *. intros y Hy.
  apply list_elem_of_In, filter_In in Hy as [Hy _]. by apply Hx, list_elem_of_In.
Qed.

Lemma Forall_filter_bool {A} (P : A -> Prop) (f : A -> bool) l :
  Forall P l -> Forall P (List.filter f l).
Proof.
  rewrite !Forall_forall. intros H x Hx.
  apply list_elem_of_In, filter_In in Hx as [Hx _]. by apply H, list_elem_of_In.
Qed.

Lemma disjoint_snoc ps p :
  disjoint ps -> (forall q, q ∈ ps -> EndIndex q < StartIndex p) -> disjoint (ps ++ [p]).
Proof.
  intros H1 H2. apply StronglySorted_app_2; [|done|repeat constructor].
  intros x1 x2 Hx1 ->%list_elem_of_singleton. by apply H2.
Qed.

Lemma disjoint_shift k ps : disjoint ps -> disjoint (map (shift_pulse k) ps).
Proof.
  unfold disjoint. induction 1 as [|x l Hl IH Hx]; simpl; constructor; [done|].
  rewrite Forall_forall in *. intros y' (y & -> & Hy)%list_elem_of_fmap.
  specialize (Hx y Hy). simpl. lia.
Qed.

Lemma set_index_last {A} (front : list A) x y :
  set_index (front ++ [x]) (len front) y = front ++ [y].
Proof.
  unfold set_index, len. rewrite Nat2Z.id.
  rewrite insert_app_r_alt by lia. by rewrite Nat.sub_diag.
Qed.

(** Appending the new sample and evicting keeps the pulses well formed, and
    leaves every pulse ending before the new sample. *)
Lemma evict_well_formed s m :
  pulses_consistent m ->
  let m1 := evict (Timestamp s) (append_sample s m) in
  Forall (well_formed (samples m1) (threshold m1)) (pulses m1)
  /\ disjoint (pulses m1)
  /\ Forall (fun p => EndIndex p <= len (samples m1) - 2) (pulses m1).
Proof.
  intros (_ & Hwf & Hd) m1.
  assert (Forall (fun p => well_formed (samples m ++ [s]) (threshold m) p
                          /\ EndIndex p <= len (samples m ++ [s]) - 2) (pulses m)) as Hwf1.
  { eapply Forall_impl; [exact Hwf|]. intros p ((Hs & He) & Hlt & Hpw & Hr).
    pose proof (index_fmap_bound _ _ _ _ He) as Hb.
    rewrite len_app. change (len [s]) with 1. split; [|lia].
    repeat split; try done.
    - destruct (index (samples m) (StartIndex p)) eqn:E; [|done].
      by rewrite (index_app_l _ _ _ _ E).
    - destruct (index (samples m) (EndIndex p)) eqn:E; [|done].
      by rewrite (index_app_l _ _ _ _ E). }
  destruct (evict_samples (Timestamp s) (append_sample s m)) as (k & Hk0 & Hs & Hlt & Hk).
  subst m1. unfold evict in *. rewrite <- Hk in *. simpl in *.
  assert (k < len (samples m ++ [s])) as Hk1 by (apply Hlt; by destruct (samples m)).
  destruct (Z.ltb_spec 0 k); simpl.
  - repeat split.
    + apply Forall_forall. intros p' Hp'.
      apply list_elem_of_In, filter_In in Hp' as [Hp' Hnn].
      apply list_elem_of_In, list_elem_of_fmap in Hp' as (p & -> & Hp).
      rewrite Forall_forall in Hwf1. destruct (Hwf1 p Hp) as [((H1 & H2) & H3 & H4 & H5) _].
      unfold index_nonneg in Hnn. apply andb_true_iff in Hnn as [Hn1 Hn2].
      apply Z.leb_le in Hn1, Hn2. simpl in *.
      repeat split; simpl; try done; try lia.
      * rewrite index_slice_from by lia. done.
      * rewrite index_slice_from by lia. done.
    + by apply StronglySorted_filter, disjoint_shift.
    + apply Forall_forall. intros p' Hp'.
      apply list_elem_of_In, filter_In in Hp' as [Hp' Hnn].
      apply list_elem_of_In, list_elem_of_fmap in Hp' as (p & -> & Hp).
      rewrite Forall_forall in Hwf1. destruct (Hwf1 p Hp) as [_ Hle].
      rewrite len_slice_from by lia. simpl. lia.
  - repeat split; try done.
    + eapply Forall_impl; [exact Hwf1|]. by intros p [? _].
    + eapply Forall_impl; [exact Hwf1|]. by intros p [_ ?].
Qed.

Lemma well_formed_extend ss thr p s d :
  well_formed ss thr p -> EndIndex p <= len ss - 2 ->
  index ss (len ss - 1) = Some s -> PrimFloat.ltb thr d = true ->
  well_formed ss thr (extend_pulse p (len ss - 1) (Timestamp s) d).
Proof.
  intros ((H1 & H2) & H3 & H4 & H5) Hle Hs Hd.
  repeat split; simpl; try done; try lia. by rewrite Hs.
Qed.

(** The pulse a search for the active pulse finds is the last of the list. *)
Lemma active_is_last ps j p n :
  disjoint ps -> Forall (fun q => StartIndex q < EndIndex q /\ EndIndex q <= n) ps ->
  ps !! j = Some p -> EndIndex p = n ->
  exists front, ps = front ++ [p] /\ j = length front.
Proof.
  intros Hd Hall Hj He.
  destruct (ps !! S j) as [q|] eqn:Eq.
  - exfalso.
    rewrite <- (take_drop (S j) ps) in Hd.
    assert (p ∈ take (S j) ps) as Hp.
    { apply list_elem_of_lookup. exists j. rewrite lookup_take_lt by lia. done. }
    assert (q ∈ drop (S j) ps) as Hq.
    { apply list_elem_of_lookup. exists 0%nat. rewrite lookup_drop, Nat.add_0_r. done. }
    pose proof (StronglySorted_app_1_elem_of _ _ _ _ _ Hd Hp Hq) as Hlt. simpl in Hlt.
    rewrite Forall_forall in Hall.
    destruct (Hall q (list_elem_of_lookup_2 _ _ _ Eq)). lia.
  - apply lookup_ge_None in Eq. pose proof (lookup_lt_Some _ _ _ Hj).
    exists (take j ps). split.
    + rewrite <- (take_drop j ps) at 1. f_equal.
      rewrite (drop_S _ p) by done. by rewrite drop_ge by lia.
    + rewrite length_take. lia.
Qed.

(** The heating branch of [updatePulses] keeps the pulses well formed and
    disjoint. *)
Lemma heating_well_formed m i d ps :
  let n := len (samples m) in
  heating m i d (n - 1) = Some ps ->
  PrimFloat.ltb (threshold m) d = true -> 2 <= n ->
  Forall (well_formed (samples m) (threshold m)) (pulses m) ->
  disjoint (pulses m) ->
  Forall (fun p => EndIndex p <= n - 2) (pulses m) ->
  Forall (well_formed (samples m) (threshold m)) ps /\ disjoint ps.
Proof.
  intros n H Hd Hn Hwf Hdis Hend. unfold heating in H. fold n in H.
  destruct (find_active_spec (pulses m) (length (pulses m)) (n - 1 - 1))
    as [[Ef Hnone] | (j & p & Hj & Hp & He & Ef & _)]; rewrite Ef in H.
  - simpl in H.
    destruct (should_start m i (n - 1)) as [[]|]; [| |done]; simpl in H.
    + destruct (Z.ltb_spec (n - 1 - 1) 0); [lia|].
      destruct (index (samples m) (n - 1 - 1)) as [s0|] eqn:E0; [|done]. simpl in H.
      destruct (index (samples m) (n - 1)) as [s1|] eqn:E1; [|done]. simpl in H.
      injection H as <-. split.
      * apply Forall_app. split; [done|]. constructor; [|constructor].
        repeat split; simpl; try done; try lia; [by rewrite E0 | by rewrite E1].
      * apply disjoint_snoc; [done|]. intros q Hq. simpl.
        rewrite Forall_forall in Hend. specialize (Hend q Hq).
        apply list_elem_of_lookup in Hq as [jq Hq].
        pose proof (Hnone jq q (lookup_lt_Some _ _ _ Hq) Hq). lia.
    + destruct (Z.ltb_spec 0 (len (pulses m))); [|by injection H as <-].
      destruct (index (pulses m) _) as [p|] eqn:Ep; [|done]. simpl in H.
      destruct (Z.leb_spec (n - 1) (EndIndex p + 2)); [|by injection H as <-].
      destruct (index (samples m) (n - 1)) as [s|] eqn:Es; [|done]. simpl in H.
      injection H as <-.
      apply index_Some in Ep as [_ Ep].
      assert (exists front, pulses m = front ++ [p] /\ len (pulses m) - 1 = len front)
        as (front & Efront & Elen).
      { destruct (pulses m) as [|a l] eqn:El using rev_ind; [done|].
        clear IHl. exists l. rewrite len_app in *. change (len [a]) with 1 in *.
        replace (len l + 1 - 1) with (len l) in * by lia.
        unfold len in Ep. rewrite Nat2Z.id, lookup_app_r, Nat.sub_diag in Ep by lia.
        simpl in Ep. split; [congruence | done]. }
      rewrite Elen, Efront, set_index_last. rewrite Efront in Hwf, Hdis, Hend.
      apply Forall_app in Hwf as [Hwf1 Hwf2]. apply Forall_app in Hend as [_ Hend2].
      inversion Hwf2; subst. inversion Hend2; subst. split.
      * apply Forall_app. split; [done|]. constructor; [|constructor].
        by apply well_formed_extend.
      * apply disjoint_snoc; [by eapply StronglySorted_app_1_l|].
        intros q Hq. simpl.
        eapply (StronglySorted_app_1_elem_of _ _ _ _ _ Hdis Hq). by left.
  - destruct (Z.leb_spec 0 (Z.of_nat j)); [|lia].
    assert (index (pulses m) (Z.of_nat j) = Some p) as Ep.
    { apply index_Some. split; [lia|]. by rewrite Nat2Z.id. }
    rewrite Ep in H. simpl in H.
    destruct (index (samples m) (n - 1)) as [s|] eqn:Es; [|done]. simpl in H.
    injection H as <-.
    destruct (active_is_last (pulses m) j p (n - 1 - 1)) as (front & Efront & ->);
      try done.
    { rewrite Forall_forall in *. intros q Hq. destruct (Hwf q Hq) as (_ & ? & _).
      specialize (Hend q Hq). lia. }
    fold (len front). rewrite Efront, set_index_last. rewrite Efront in Hwf, Hdis, Hend.
    apply Forall_app in Hwf as [Hwf1 Hwf2]. apply Forall_app in Hend as [_ Hend2].
    inversion Hwf2; subst. inversion Hend2; subst. split.
    + apply Forall_app. split; [done|]. constructor; [|constructor].
      by apply well_formed_extend.
    + apply disjoint_snoc; [by eapply StronglySorted_app_1_l|].
      intros q Hq. simpl.
      eapply (StronglySorted_app_1_elem_of _ _ _ _ _ Hdis Hq). by left.
Qed.

Lemma updatePulses_well_formed m m' :
  updatePulses m = Some m' ->
  derivatives_bounded m ->
  Forall (well_formed (samples m) (threshold m)) (pulses m) ->
  disjoint (pulses m) ->
  Forall (fun p => EndIndex p <= len (samples m) - 2) (pulses m) ->
  pulses_consistent m'.
Proof.
  unfold updatePulses, pulses_consistent, derivatives_bounded.
  intros H Hb Hwf Hdis Hend.
  destruct (Z.eqb_spec (len (derivatives m)) 0); [by injection H as <-|].
  pose proof (len_nonneg (derivatives m)).
  destruct (detect m) as [ps|] eqn:Ed; [|done]. simpl in H. injection H as <-. simpl.
  split; [done|].
  assert (Forall (well_formed (samples m) (threshold m)) ps /\ disjoint ps) as [H1 H2].
  { unfold detect in Ed.
    destruct (index (derivatives m) _) as [d|]; [|done]. simpl in Ed.
    destruct (PrimFloat.ltb _ _) eqn:El.
    - eapply heating_well_formed; try done. lia.
    - by injection Ed as <-. }
  split; [by apply Forall_filter_bool | by apply StronglySorted_filter].
Qed.

Lemma processSample_consistent s m m' t :
  processSample s m = Some (m', t) -> pulses_consistent m -> pulses_consistent m'.
Proof.
  unfold processSample. intros H Hc.
  destruct (evict_well_formed s m Hc) as (Hwf & Hdis & Hend).
  pose proof (evict_derivatives_bounded s m (proj1 Hc)) as Hb.
  set (m1 := evict (Timestamp s) (append_sample s m)) in *.
  destruct (update_derivative_appends m1 Hb) as (m2 & E2 & Es & Ep & _ & Hb2).
  destruct (update_derivative_total m1) as (m2' & E2' & _ & _ & _ & _ & Et & _).
  rewrite E2 in E2'. injection E2' as <-.
  rewrite E2 in H. simpl in H.
  destruct (updatePulses m2) as [m3|] eqn:E3; [|done]. simpl in H.
  injection H as <- _.
  eapply updatePulses_well_formed; [exact E3 | done | | | ];
    rewrite ?Es, ?Ep, ?Et; done.
Qed.

Lemma state_after_consistent input : forall m0 m,
  state_after input m0 = Some m -> pulses_consistent m0 -> pulses_consistent m.
Proof.
  unfold state_after.
  induction input as [|s input IH]; intros m0 m; simpl.
  - by intros [= <-].
  - destruct (processSample s m0) as [[m1 t1]|] eqn:E1; [|done]. simpl.
    intros H Hok. apply (IH m1).
    + destruct (process_all input m1) as [[m2 t2]|]; [|done]. simpl in *. congruence.
    + by eapply processSample_consistent.
Qed.

Lemma fresh_consistent m : fresh m -> pulses_consistent m.
Proof.
  intros (Hs & Hd & Hp). unfold pulses_consistent, derivatives_bounded, disjoint.
  rewrite Hs, Hd, Hp. repeat split; [done | constructor | constructor].
Qed.

(** The sample just appended survives the eviction, as the last one. *)
Lemma latest_sample_kept s m :
  let m1 := evict (Timestamp s) (append_sample s m) in
  index (samples m1) (len (samples m1) - 1) = Some s.
Proof.
  intros m1. subst m1.
  destruct (evict_samples (Timestamp s) (append_sample s m)) as (k & Hk0 & Hs & Hlt & _).
  rewrite Hs. simpl in *.
  assert (k < len (samples m ++ [s])) as Hk1 by (apply Hlt; by destruct (samples m)).
  rewrite len_slice_from by lia.
  replace (len (samples m ++ [s]) - k - 1) with (len (samples m ++ [s]) - 1 - k) by lia.
  rewrite index_slice_from by lia.
  rewrite len_app. change (len [s]) with 1.
  replace (len (samples m) + 1 - 1) with (len (samples m)) by lia.
  apply index_Some. split; [apply len_nonneg|].
  unfold len. rewrite Nat2Z.id. by rewrite lookup_app_r, Nat.sub_diag.
Qed.

(** ** What a pulse covers *)

Lemma covers_app ds ds' thr p : covers ds thr p -> covers (ds ++ ds') thr p.
Proof.
  intros [H1 H2]. split.
  - intros i Hi. destruct (H1 i Hi) as (d & Hd & Ht). exists d. split; [|done].
    by apply index_app_l.
  - by apply index_app_l.
Qed.

Lemma evict_covers s m :
  Forall (fun p => StartIndex p < EndIndex p) (pulses m) ->
  Forall (covers (derivatives m) (threshold m)) (pulses m) ->
  let m1 := evict (Timestamp s) (append_sample s m) in
  Forall (covers (derivatives m1) (threshold m1)) (pulses m1).
Proof.
  intros Hlt Hc m1. subst m1. unfold evict. simpl.
  set (k := cutoffIndex _ _).
  destruct (Z.ltb_spec 0 k); simpl; [|done].
  apply Forall_forall. intros p' Hp'.
  apply list_elem_of_In, filter_In in Hp' as [Hp' Hnn].
  apply list_elem_of_In, list_elem_of_fmap in Hp' as (p & -> & Hp).
  rewrite Forall_forall in Hc, Hlt. destruct (Hc p Hp) as [H1 H2].
  specialize (Hlt p Hp).
  unfold index_nonneg in Hnn. apply andb_true_iff in Hnn as [Hn1 Hn2].
  apply Z.leb_le in Hn1, Hn2. simpl in *.
  destruct (H1 (StartIndex p)) as (d0 & Hd0 & _); [lia|].
  apply index_bound in Hd0.
  destruct (Z.leb_spec k (len (derivatives m))); [|lia].
  split; simpl.
  - intros i Hi. destruct (H1 (i + k)) as (d & Hd & Ht); [lia|].
    exists d. split; [|done]. rewrite <- Hd.
    replace i with (i + k - k) at 1 by lia. apply index_slice_from. lia.
  - rewrite <- H2. replace (EndIndex p - k - 1) with (EndIndex p - 1 - k) by lia.
    apply index_slice_from. lia.
Qed.

Lemma should_start_false m i j :
  should_start m i j = Some false ->
  exists d, index (derivatives m) (i - 1) = Some d
    /\ PrimFloat.ltb (threshold m) d = true.
Proof.
  unfold should_start. destruct (0 <? i); [|done].
  destruct (index (derivatives m) (i - 1)) as [d|]; [|done]. simpl.
  destruct (PrimFloat.ltb _ _) eqn:E; [|done]. eauto.
Qed.

Lemma covers_extend ds thr p d n :
  covers ds thr p -> len ds = n - 1 ->
  index ds (n - 2) = Some d -> PrimFloat.ltb thr d = true ->
  (EndIndex p = n - 2
   \/ (EndIndex p = n - 3 /\ exists d', index ds (n - 3) = Some d'
         /\ PrimFloat.ltb thr d' = true)) ->
  forall t, covers ds thr (extend_pulse p (n - 1) t d).
Proof.
  intros [H1 H2] Hlen Hd Ht Hend t. split; simpl.
  - intros i Hi.
    destruct (Z.eq_dec i (n - 2)) as [->|]; [eauto|].
    destruct Hend as [He | (He & d' & Hd' & Ht')].
    + apply H1. lia.
    + destruct (Z.eq_dec i (n - 3)) as [->|]; [eauto|]. apply H1. lia.
  - by replace (n - 1 - 1) with (n - 2) by lia.
Qed.

Lemma heating_covers m d ps :
  let n := len (samples m) in
  heating m (len (derivatives m) - 1) d (n - 1) = Some ps ->
  len (derivatives m) = n - 1 ->
  index (derivatives m) (n - 2) = Some d ->
  PrimFloat.ltb (threshold m) d = true ->
  Forall (covers (derivatives m) (threshold m)) (pulses m) ->
  Forall (fun p => EndIndex p <= n - 2) (pulses m) ->
  Forall (covers (derivatives m) (threshold m)) ps.
Proof.
  intros n H Hlen Hd Ht Hc Hend. unfold heating in H. fold n in H.
  pose proof (index_bound _ _ _ Hd) as Hn.
  destruct (find_active_spec (pulses m) (length (pulses m)) (n - 1 - 1))
    as [[Ef Hnone] | (j & p & Hj & Hp & He & Ef & _)]; rewrite Ef in H.
  - simpl in H.
    destruct (should_start m _ (n - 1)) as [[]|] eqn:Ess; [| |done]; simpl in H.
    + destruct (Z.ltb_spec (n - 1 - 1) 0); [lia|].
      destruct (index (samples m) (n - 1 - 1)) as [s0|] eqn:E0; [|done]. simpl in H.
      destruct (index (samples m) (n - 1)) as [s1|] eqn:E1; [|done]. simpl in H.
      injection H as <-.
      apply Forall_app. split; [done|]. constructor; [|constructor].
      split; simpl.
      * intros i Hi. replace i with (n - 2) by lia. eauto.
      * by replace (n - 1 - 1) with (n - 2) by lia.
    + destruct (Z.ltb_spec 0 (len (pulses m))); [|by injection H as <-].
      destruct (index (pulses m) _) as [p|] eqn:Ep; [|done]. simpl in H.
      destruct (Z.leb_spec (n - 1) (EndIndex p + 2)); [|by injection H as <-].
      destruct (index (samples m) (n - 1)) as [s|] eqn:Es; [|done]. simpl in H.
      injection H as <-.
      apply index_Some in Ep as [_ Ep].
      apply Forall_set_index; [done|].
      rewrite Forall_forall in Hc, Hend.
      pose proof (list_elem_of_lookup_2 _ _ _ Ep) as Hin.
      apply covers_extend; try done; [by apply Hc|].
      right. pose proof (Hend p Hin). pose proof (Hnone _ p (lookup_lt_Some _ _ _ Ep) Ep).
      split; [lia|].
      apply should_start_false in Ess. rewrite Hlen in Ess.
      by replace (n - 1 - 1 - 1) with (n - 3) in Ess by lia.
  - destruct (Z.leb_spec 0 (Z.of_nat j)); [|lia].
    assert (index (pulses m) (Z.of_nat j) = Some p) as Ep.
    { apply index_Some. split; [lia|]. by rewrite Nat2Z.id. }
    rewrite Ep in H. simpl in H.
    destruct (index (samples m) (n - 1)) as [s|] eqn:Es; [|done]. simpl in H.
    injection H as <-.
    apply Forall_set_index; [done|].
    rewrite Forall_forall in Hc.
    apply covers_extend; try done; [by apply Hc, (list_elem_of_lookup_2 _ _ _ Hp)|].
    left. lia.
Qed.

Lemma updatePulses_covers m m' :
  updatePulses m = Some m' ->
  len (derivatives m) = Z.max 0 (len (samples m) - 1) ->
  Forall (covers (derivatives m) (threshold m)) (pulses m) ->
  Forall (fun p => EndIndex p <= len (samples m) - 2) (pulses m) ->
  Forall (covers (derivatives m') (threshold m')) (pulses m').
Proof.
  unfold updatePulses. intros H Hlen Hc Hend.
  destruct (Z.eqb_spec (len (derivatives m)) 0); [by injection H as <-|].
  pose proof (len_nonneg (derivatives m)).
  destruct (detect m) as [ps|] eqn:Ed; [|done]. simpl in H. injection H as <-. simpl.
  apply Forall_filter_bool.
  unfold detect in Ed.
  destruct (index (derivatives m) _) as [d|] eqn:Ei; [|done]. simpl in Ed.
  destruct (PrimFloat.ltb _ _) eqn:El.
  - eapply heating_covers; try done; [lia|].
    rewrite <- Ei. f_equal. lia.
  - by injection Ed as <-.
Qed.

Lemma processSample_covers s m m' t :
  processSample s m = Some (m', t) ->
  pulses_consistent m ->
  Forall (covers (derivatives m) (threshold m)) (pulses m) ->
  len (derivatives m') = Z.max 0 (len (samples m') - 1) ->
  Forall (covers (derivatives m') (threshold m')) (pulses m').
Proof.
  unfold processSample. intros H Hc Hcov Hlen.
  destruct (evict_well_formed s m Hc) as (Hwf & Hdis & Hend).
  pose proof (evict_derivatives_bounded s m (proj1 Hc)) as Hb.
  assert (Forall (fun p => StartIndex p < EndIndex p) (pulses m)) as Hlt.
  { destruct Hc as (_ & Hw & _). eapply Forall_impl; [exact Hw|]. by intros p (_ & ? & _). }
  pose proof (evict_covers s m Hlt Hcov) as Hcov1.
  set (m1 := evict (Timestamp s) (append_sample s m)) in *. simpl in Hcov1.
  destruct (update_derivative_appends m1 Hb) as (m2 & E2 & Es & Ep & Ha & Hb2).
  destruct (update_derivative_total m1) as (m2' & E2' & _ & _ & _ & _ & Et & _).
  rewrite E2 in E2'. injection E2' as <-.
  rewrite E2 in H. simpl in H.
  destruct (updatePulses m2) as [m3|] eqn:E3; [|done]. simpl in H.
  injection H as <- _.
  destruct (updatePulses_total m2) as (m3' & E3' & Hs3 & Hd3 & _).
  { rewrite Es. apply evict_samples_nonempty. simpl. by destruct (samples m). }
  rewrite E3 in E3'. injection E3' as <-.
  eapply updatePulses_covers; [exact E3 | by rewrite <- Hs3, <- Hd3 | |].
  - rewrite Et, Ep. eapply Forall_impl; [exact Hcov1|]. intros p Hp.
    destruct Ha as [-> | [d ->]]; [done | by apply covers_app].
  - by rewrite Es, Ep.
Qed.

Lemma increasing_covers input : forall m0,
  fresh m0 -> increasing input ->
  exists m, state_after input m0 = Some m
    /\ derivatives m = derivatives_of (samples m)
    /\ pulses_consistent m
    /\ Forall (covers (derivatives m) (threshold m)) (pulses m).
Proof.
  induction input as [|s input IH] using rev_ind; intros m0 Hf Hinc.
  - exists m0. pose proof (fresh_consistent _ Hf) as Hc.
    destruct Hf as (Hs & Hd & Hp). rewrite Hs, Hd, Hp in *.
    repeat split; try done; apply Hc.
  - destruct (IH m0 Hf (increasing_app_l _ _ Hinc)) as (m & S & Hd & Hc & Hcov).
    destruct (derivatives_follow_samples _ m0 Hf (increasing_positively_spaced _ Hinc))
      as (m' & S' & Hd').
    exists m'. split; [done|]. split; [done|].
    rewrite state_after_snoc, S in S'. simpl in S'.
    destruct (processSample s m) as [[m'' t]|] eqn:E; [|done]. simpl in S'.
    injection S' as ->. split.
    + by eapply processSample_consistent.
    + eapply processSample_covers; try done.
      rewrite Hd'. apply derivatives_of_spec.
Qed.

(** ** Extension across a gap *)

Lemma heating_none_left_behind m i d ps :
  let n := len (samples m) in
  heating m i d (n - 1) = Some ps ->
  Forall (well_formed (samples m) (threshold m)) (pulses m) ->
  disjoint (pulses m) ->
  Forall (fun p => EndIndex p <= n - 2) (pulses m) ->
  Forall (fun p => EndIndex p <> n - 2) ps.
Proof.
  intros n H Hwf Hdis Hend. unfold heating in H. fold n in H.
  destruct (find_active_spec (pulses m) (length (pulses m)) (n - 1 - 1))
    as [[Ef Hnone] | (j & p & Hj & Hp & He & Ef & _)]; rewrite Ef in H.
  - assert (Forall (fun p => EndIndex p <> n - 2) (pulses m)) as Hno.
    { apply Forall_forall. intros q Hq.
      apply list_elem_of_lookup in Hq as [jq Hq].
      pose proof (Hnone jq q (lookup_lt_Some _ _ _ Hq) Hq). lia. }
    simpl in H.
    destruct (should_start m i (n - 1)) as [[]|]; [| |done]; simpl in H.
    + destruct (index (samples m) (if n - 1 - 1 <? 0 then 0 else n - 1 - 1)) as [s0|];
        [|done]. simpl in H.
      destruct (index (samples m) (n - 1)) as [s1|]; [|done]. simpl in H.
      injection H as <-.
      apply Forall_app. split; [done|]. constructor; [simpl; lia | constructor].
    + destruct (Z.ltb_spec 0 (len (pulses m))); [|by injection H as <-].
      destruct (index (pulses m) _) as [p|] eqn:Ep; [|done]. simpl in H.
      destruct (Z.leb_spec (n - 1) (EndIndex p + 2)); [|by injection H as <-].
      destruct (index (samples m) (n - 1)) as [s|] eqn:Es; [|done]. simpl in H.
      injection H as <-.
      apply Forall_set_index; [done | simpl; lia].
  - destruct (Z.leb_spec 0 (Z.of_nat j)); [|lia].
    assert (index (pulses m) (Z.of_nat j) = Some p) as Ep.
    { apply index_Some. split; [lia|]. by rewrite Nat2Z.id. }
    rewrite Ep in H. simpl in H.
    destruct (index (samples m) (n - 1)) as [s|] eqn:Es; [|done]. simpl in H.
    injection H as <-.
    destruct (active_is_last (pulses m) j p (n - 1 - 1)) as (front & Efront & ->);
      try done.
    { rewrite Forall_forall in *. intros q Hq. destruct (Hwf q Hq) as (_ & ? & _).
      specialize (Hend q Hq). lia. }
    fold (len front). rewrite Efront, set_index_last. rewrite Efront in Hwf, Hdis.
    apply Forall_app. split; [|constructor; [simpl; lia | constructor]].
    apply Forall_forall. intros q Hq.
    assert (EndIndex q < StartIndex p) as Hlt.
    { eapply (StronglySorted_app_1_elem_of _ _ _ _ _ Hdis Hq). by left. }
    apply Forall_app in Hwf as [_ Hwf2]. inversion Hwf2 as [|? ? (_ & Hp2 & _) _]; subst.
    lia.
Qed.

Lemma updatePulses_none_left_behind m m' :
  updatePulses m = Some m' ->
  Forall (well_formed (samples m) (threshold m)) (pulses m) ->
  disjoint (pulses m) ->
  Forall (fun p => EndIndex p <= len (samples m) - 2) (pulses m) ->
  derivatives m <> [] ->
  none_left_behind m'.
Proof.
  unfold updatePulses, none_left_behind. intros H Hwf Hdis Hend Hne.
  destruct (Z.eqb_spec (len (derivatives m)) 0) as [E0|_].
  { by apply len_nil_iff in E0. }
  destruct (detect m) as [ps|] eqn:Ed; [|done]. simpl in H. injection H as <-. simpl.
  intros d Hd Ht. apply Forall_filter_bool.
  unfold detect in Ed. rewrite Hd in Ed. simpl in Ed. rewrite Ht in Ed.
  by eapply heating_none_left_behind.
Qed.

Lemma processSample_none_left_behind s m m' t :
  processSample s m = Some (m', t) -> pulses_consistent m -> none_left_behind m'.
Proof.
  unfold processSample. intros H Hc.
  destruct (evict_well_formed s m Hc) as (Hwf & Hdis & Hend).
  pose proof (evict_derivatives_bounded s m (proj1 Hc)) as Hb.
  set (m1 := evict (Timestamp s) (append_sample s m)) in *.
  destruct (update_derivative_appends m1 Hb) as (m2 & E2 & Es & Ep & _ & Hb2).
  destruct (update_derivative_total m1) as (m2' & E2' & _ & _ & _ & _ & Et & _).
  rewrite E2 in E2'. injection E2' as <-.
  rewrite E2 in H. simpl in H.
  destruct (updatePulses m2) as [m3|] eqn:E3; [|done]. simpl in H.
  injection H as <- _.
  destruct (decide (derivatives m2 = [])) as [Hnil|Hne].
  - unfold updatePulses in E3. rewrite Hnil in E3. simpl in E3. injection E3 as <-.
    intros d Hd. by rewrite Hnil in Hd.
  - eapply updatePulses_none_left_behind; [exact E3 | | | | done];
      rewrite ?Es, ?Ep, ?Et; done.
Qed.

Lemma state_after_none_left_behind input : forall m0 m,
  state_after input m0 = Some m -> fresh m0 -> none_left_behind m.
Proof.
  induction input as [|s input IH] using rev_ind; intros m0 m S Hf.
  - unfold state_after in S. simpl in S. injection S as <-.
    destruct Hf as (_ & Hd & _). intros d H. by rewrite Hd in H.
  - rewrite state_after_snoc in S.
    destruct (state_after input m0) as [m1|] eqn:S1; [|done]. simpl in S.
    destruct (processSample s m1) as [[m2 t]|] eqn:E; [|done]. simpl in S.
    injection S as <-.
    eapply processSample_none_left_behind; [exact E|].
    eapply state_after_consistent; [exact S1 | by apply fresh_consistent].
Qed.


Lemma filter_snoc {A} (f : A -> bool) (l : list A) (x : A) :
  List.filter f (l ++ [x]) = List.filter f l ++ (if f x then [x] else []).
Proof. rewrite List.filter_app. simpl. by destruct (f x). Qed.

Lemma Sub_mono (t t' u : Time) : t <= t' -> Sub t u <= Sub t' u.
Proof.
  intros H. unfold Sub.
  assert (minDuration < maxDuration) by reflexivity.
  destruct (Z.ltb_spec (t - u) minDuration), (Z.ltb_spec (t' - u) minDuration);
    try lia;
    destruct (Z.ltb_spec maxDuration (t - u)), (Z.ltb_spec maxDuration (t' - u));
    lia.
Qed.

Lemma filter_all {A} (f : A -> bool) (l : list A) :
  Forall (fun x => f x = true) l -> List.filter f l = l.
Proof.
  induction 1 as [|x l Hx _ IH]; [done|]. simpl. by rewrite Hx, IH.
Qed.

(** The pulse list of the detection step when no pulse ends at the sample
    before the latest one and the latest derivative is above the
    threshold. *)
Lemma detect_idle (m : Meter) (i : Z) (d : float) (s0 s1 : Sample) :
  len (samples m) = i + 1 ->
  index (samples m) (i - 1) = Some s0 -> index (samples m) i = Some s1 ->
  index (derivatives m) (len (derivatives m) - 1) = Some d ->
  PrimFloat.ltb (threshold m) d = true ->
  (forall p, p ∈ pulses m -> EndIndex p <> i - 1) ->
  detect m
  = (shouldStart ← should_start m (len (derivatives m) - 1) i;
     if shouldStart : bool then
       Some (pulses m ++ [ {| StartIndex := i - 1; EndIndex := i;
                              StartTime := Timestamp s0; EndTime := Timestamp s1;
                              RawValue := d; Power := 0 |} ])
     else if 0 <? len (pulses m) then
       lastPulse ← index (pulses m) (len (pulses m) - 1);
       if i <=? EndIndex lastPulse + 2 then
         Some (set_index (pulses m) (len (pulses m) - 1)
                 (extend_pulse lastPulse i (Timestamp s1) d))
       else Some (pulses m)
     else Some (pulses m)).
Proof.
  intros Hlen Hs0 Hs1 Hd Habove Hidle.
  pose proof (index_bound _ _ _ Hs0) as B0.
  rewrite (detect_heating m d Hd Habove). unfold heating.
  rewrite Hlen. replace (i + 1 - 1) with i by lia.
  rewrite (find_active_none _ _ Hidle). simpl.
  destruct (should_start m _ i) as [[]|]; [| |done]; simpl.
  - destruct (Z.ltb_spec (i - 1) 0); [lia|]. by rewrite Hs0, Hs1.
  - destruct (0 <? len (pulses m)); [|done].
    destruct (index (pulses m) _) as [lp|]; [|done]. simpl.
    destruct (i <=? EndIndex lp + 2); [|done]. by rewrite Hs1.
Qed.

Lemma increasing_index (l : list Sample) (i : Z) (a b : Sample) :
  increasing l -> index l i = Some a -> index l (i + 1) = Some b ->
  Timestamp a < Timestamp b.
Proof.
  intros Hinc Ha Hb. apply increasing_strongly in Hinc.
  apply index_Some in Ha as [Hi Ha]. apply index_Some in Hb as [_ Hb].
  replace (Z.to_nat (i + 1)) with (S (Z.to_nat i)) in Hb by lia.
  rewrite <- (take_drop_middle _ _ _ Ha) in Hinc.
  apply StronglySorted_app_1_r in Hinc.
  inversion Hinc as [|? ? _ Hall]; subst.
  rewrite Forall_forall in Hall. apply Hall.
  rewrite <- (take_drop_middle _ _ _ Ha) in Hb.
  rewrite lookup_app_r in Hb by (rewrite length_take; lia).
  rewrite length_take in Hb.
  pose proof (lookup_lt_Some _ _ _ Ha) as Hlt.
  replace (S (Z.to_nat i) - Z.to_nat i `min` length l)%nat with 1%nat in Hb by lia.
  simpl in Hb. by eapply list_elem_of_lookup_2.
Qed.

(** The state in which [updatePulses] runs for the latest sample of an input
    with strictly increasing timestamps: the invariants of the pulse list,
    and no pulse that ended two samples before the latest one when the
    previous derivative was above the threshold. *)
Lemma update_on_increasing_input (m0 : Meter) (input : list Sample) (s : Sample) :
  fresh m0 -> increasing (input ++ [s]) ->
  exists m2 m3,
    before_updatePulses input s m0 = Some m2
    /\ updatePulses m2 = Some m3
    /\ state_after (input ++ [s]) m0 = Some m3
    /\ pulses_ok m2
    /\ Forall (well_formed (samples m2) (threshold m2)) (pulses m2)
    /\ disjoint (pulses m2)
    /\ Forall (fun p => EndIndex p <= len (samples m2) - 2) (pulses m2)
    /\ index (samples m2) (len (samples m2) - 1) = Some s
    /\ increasing (samples m2)
    /\ len (derivatives m2) = Z.max 0 (len (samples m2) - 1)
    /\ (forall d' p,
          index (derivatives m2) (len (derivatives m2) - 2) = Some d' ->
          PrimFloat.ltb (threshold m2) d' = true -> p ∈ pulses m2 ->
          EndIndex p <> len (samples m2) - 3).
Proof.
  intros Hf Hinc.
  destruct (derivatives_follow_samples _ m0 Hf (increasing_positively_spaced _ Hinc))
    as (m3 & S3 & Hd3).
  pose proof S3 as S3'. rewrite state_after_snoc in S3'.
  destruct (state_after input m0) as [m|] eqn:S; [|done]. simpl in S3'.
  destruct (processSample s m) as [[m3' t]|] eqn:E; [|done]. simpl in S3'.
  injection S3' as ->.
  pose proof (state_after_consistent _ _ _ S (fresh_consistent _ Hf)) as Hc.
  pose proof (state_after_none_left_behind _ _ _ S Hf) as Hleft.
  pose proof (state_after_pulses_ok _ _ _ S (fresh_pulses_ok _ Hf)) as Hok.
  destruct (evict_well_formed s m Hc) as (Hwf & Hdis & Hend).
  pose proof (evict_derivatives_bounded s m (proj1 Hc)) as Hb.
  pose proof (evict_pulses_ok (Timestamp s) _ (append_pulses_ok s m Hok)) as Hok1.
  unfold before_updatePulses.
  unfold processSample in E.
  assert (exists k, 0 <= k /\ len (samples (evict (Timestamp s) (append_sample s m)))
                              = len (samples m) + 1 - k
            /\ (forall i, 0 <= i -> index (derivatives (evict (Timestamp s) (append_sample s m))) i
                  = index (derivatives m) (i + k)
                \/ derivatives (evict (Timestamp s) (append_sample s m)) = [])
            /\ forall p', p' ∈ pulses (evict (Timestamp s) (append_sample s m)) ->
                 exists p, p ∈ pulses m /\ EndIndex p' = EndIndex p - k)
    as (k & Hk0 & Hlen1 & Hder1 & Hpul1).
  { destruct (evict_samples (Timestamp s) (append_sample s m)) as (k & Hk0 & Hs & Hlt & Hk).
    exists k. split; [done|]. unfold evict in *. rewrite <- Hk in *. simpl in *.
    assert (k < len (samples m ++ [s])) as Hk1 by (apply Hlt; by destruct (samples m)).
    rewrite len_app in Hk1. change (len [s]) with 1 in Hk1.
    destruct (Z.ltb_spec 0 k); simpl.
    - rewrite len_slice_from by (rewrite len_app; change (len [s]) with 1; lia).
      rewrite len_app. change (len [s]) with 1. split; [lia|split].
      + intros i Hi. destruct (Z.leb_spec k (len (derivatives m))); [|by right].
        left. rewrite <- (index_slice_from (derivatives m) k (i + k)) by lia.
        f_equal. lia.
      + intros p' Hp'.
        apply list_elem_of_In, filter_In in Hp' as [Hp' _].
        apply list_elem_of_In, list_elem_of_fmap in Hp' as (p & -> & Hp). eauto.
    - rewrite len_app. change (len [s]) with 1. replace k with 0 by lia.
      split; [lia|split].
      + intros i Hi. left. f_equal. lia.
      + intros p' Hp'. exists p'. split; [done | lia]. }
  pose proof (latest_sample_kept s m) as Hlast. cbv zeta in Hlast.
  set (m1 := evict (Timestamp s) (append_sample s m)) in *.
  destruct (update_derivative_appends m1 Hb) as (m2 & E2 & Es & Ep & Ha & Hb2).
  destruct (update_derivative_total m1) as (m2' & E2' & _ & _ & _ & _ & Et & Em & _).
  rewrite E2 in E2'. injection E2' as <-.
  rewrite E2 in E. simpl in E.
  destruct (updatePulses m2) as [m3'|] eqn:E3; [|done]. simpl in E.
  injection E as -> _.
  exists m2, m3.
  split; [by rewrite S|]. split; [done|]. split; [done|].
  destruct (updatePulses_total m2) as (m3' & E3' & Hs3 & Hd3' & _).
  { rewrite Es. apply evict_samples_nonempty. simpl. by destruct (samples m). }
  rewrite E3 in E3'. injection E3' as <-.
  assert (len (derivatives m2) = Z.max 0 (len (samples m2) - 1)) as Htight.
  { rewrite <- Hs3, <- Hd3', Hd3. apply derivatives_of_spec. }
  split; [by eapply update_derivative_pulses_ok|].
  split; [by rewrite Es, Ep, Et|]. split; [by rewrite Ep|].
  split; [by rewrite Es, Ep|]. split; [by rewrite Es|].
  split.
  { destruct (samples_suffix _ _ _ S3) as [ev Hev].
    destruct Hf as (Hs0 & _ & _). rewrite Hs0 in Hev. simpl in Hev.
    rewrite Hev in Hinc. rewrite <- Hs3. by eapply increasing_app_r. }
  split; [done|].
  intros pd p Hpd Hpt Hin Hp3.
  set (n := len (samples m2)) in *.
  pose proof (index_bound _ _ _ Hpd) as Hbd.
  assert (len (samples m1) = n) as Hn1 by (subst n; by rewrite Es).
  pose proof (len_nonneg (derivatives m1)) as Hnn1.
  destruct Ha as [Ha | [dn Ha]].
  { rewrite Ha in Htight, Hbd. unfold derivatives_bounded in Hb2. lia. }
  assert (len (derivatives m1) = n - 2) as Hl1.
  { rewrite Ha, len_app in Htight. change (len [dn]) with 1 in Htight. lia. }
  rewrite Ha, len_app in Hpd. change (len [dn]) with 1 in Hpd.
  replace (len (derivatives m1) + 1 - 2) with (len (derivatives m1) - 1) in Hpd by lia.
  assert (index (derivatives m1) (len (derivatives m1) - 1) = Some pd) as Hpd1.
  { unfold index in *. destruct (Z.ltb_spec (len (derivatives m1) - 1) 0); [done|].
    rewrite lookup_app_l in Hpd; [done|]. unfold len in *. lia. }
  pose proof (index_bound _ _ _ Hpd1) as Hb0.
  destruct (Hder1 (len (derivatives m1) - 1)) as [Hi1 | Hnil]; [lia | |].
  2:{ rewrite Hnil in Hpd1. done. }
  rewrite Hi1 in Hpd1.
  pose proof (index_bound _ _ _ Hpd1) as Hb1.
  destruct Hc as (Hbm & _ & _). unfold derivatives_bounded in Hbm.
  assert (len (derivatives m1) - 1 + k = len (derivatives m) - 1) as Hidx by lia.
  rewrite Hidx in Hpd1.
  rewrite Et in Hpt.
  assert (threshold m1 = threshold m) as Etm.
  { by destruct (evict_fields (Timestamp s) (append_sample s m)) as (_ & _ & ? & _). }
  rewrite Etm in Hpt.
  pose proof (Hleft pd Hpd1 Hpt) as Hnl. rewrite Forall_forall in Hnl.
  rewrite Ep in Hin.
  destruct (Hpul1 p Hin) as (p0 & Hp0 & Hep).
  specialize (Hnl p0 Hp0). lia.
Qed.

(** ** Pulse detection through a whole update *)




(** C4 (as the code has it): for an input with strictly increasing
    timestamps, when the new derivative [d] at the latest sample index [i]
    is above the threshold and a pulse ends at index [i-1], that pulse is the
    last of the list and [processSample] leaves the list with it extended
    ([EndIndex = i], [EndTime] the latest timestamp, [RawValue = d]): no
    pulse is opened and none is dropped. When no pulse ends at [i-1], no
    pulse is extended, even if the last one ended within two samples of [i]:
    the list is left as it is, or a new pulse from [i-1] to [i] is appended
    to it. *)
Theorem above_threshold_extends_pulse
    (m0 : Meter) (input : list Sample) (s : Sample) :
  fresh m0 -> increasing (input ++ [s]) ->
  exists m2 m3,
    before_updatePulses input s m0 = Some m2
    /\ updatePulses m2 = Some m3
    /\ state_after (input ++ [s]) m0 = Some m3
    /\ forall d,
         index (derivatives m2) (len (derivatives m2) - 1) = Some d ->
         PrimFloat.ltb (threshold m2) d = true ->
         let i := len (samples m2) - 1 in
         (forall j p, pulses m2 !! j = Some p -> EndIndex p = i - 1 ->
            S j = length (pulses m2)
            /\ Pulses m3 = <[j := extend_pulse p i (Timestamp s) d]> (pulses m2))
         /\ ((forall p, p ∈ pulses m2 -> EndIndex p <> i - 1) ->
             Pulses m3 = pulses m2
             \/ exists s0,
                  index (samples m2) (i - 1) = Some s0
                  /\ Pulses m3
                     = pulses m2
                       ++ [ {| StartIndex := i - 1; EndIndex := i;
                               StartTime := Timestamp s0; EndTime := Timestamp s;
                               RawValue := d; Power := 0 |} ]).
Proof.
  intros Hf Hinc.
  destruct (update_on_increasing_input m0 input s Hf Hinc)
    as (m2 & m3 & Hb & Eu & S3 & Hok & Hwf & Hdis & Hend & Hs & Hinc2 & Htight & Hgap).
  exists m2, m3. split; [done|]. split; [done|]. split; [done|].
  intros d Hd Habove i.
  pose proof (index_bound _ _ _ Hd) as Bd.
  assert (1 <= i) as Hi by (subst i; lia).
  assert (len (samples m2) = i + 1) as Hlen by (subst i; lia).
  assert (derivatives m2 <> []) as Hne.
  { intros E. rewrite E in Hd. done. }
  assert (forall ps, detect m2 = Some ps ->
            Pulses m3 = List.filter (keep_pulse (len (samples m2)) (minPulseDuration m2)) ps)
    as Hfilter.
  { intros ps Hps. rewrite (updatePulses_filter m2 ps Hne Hps) in Eu.
    by injection Eu as <-. }
  assert (Forall (fun p => keep_pulse (len (samples m2)) (minPulseDuration m2) p = true)
                 (pulses m2)) as Hkeep.
  { eapply Forall_impl; [exact Hok|]. intros p [(H1 & H2 & H3) H4].
    unfold keep_pulse.
    destruct (Z.leb_spec 0 (StartIndex p)); [|lia].
    destruct (Z.ltb_spec (StartIndex p) (len (samples m2))); [|lia].
    destruct (Z.leb_spec (minPulseDuration m2) (duration p)); [done|lia]. }
  destruct (index_lt (samples m2) (i - 1)) as [s0 Hs0]; [lia|].
  replace (len (samples m2) - 1) with i in Hs by lia.
  split.
  - intros j p Hj He.
    destruct (active_is_last (pulses m2) j p (i - 1)) as (front & Efront & Ej);
      try done.
    { rewrite Forall_forall in *. intros q Hq. destruct (Hwf q Hq) as (_ & ? & _).
      specialize (Hend q Hq). lia. }
    assert (S j = length (pulses m2)) as Hlast.
    { rewrite Efront, length_app. simpl. lia. }
    split; [done|].
    rewrite (Hfilter (<[j := extend_pulse p i (Timestamp s) d]> (pulses m2))).
    + apply filter_all. apply Forall_insert; [done|].
      rewrite Forall_forall in Hkeep, Hwf.
      pose proof (list_elem_of_lookup_2 _ _ _ Hj) as Hin.
      pose proof (Hkeep p Hin) as Hk. destruct (Hwf p Hin) as ((_ & Ht) & _).
      unfold keep_pulse in *. simpl.
      apply andb_true_iff in Hk as [Hk1 Hk2]. rewrite Hk1. simpl.
      apply Z.leb_le in Hk2. apply Z.leb_le.
      unfold duration in *. simpl.
      rewrite He, Hs0 in Ht. simpl in Ht. injection Ht as Ht.
      pose proof (increasing_index (samples m2) (i - 1) s0 s Hinc2 Hs0) as Hlt.
      replace (i - 1 + 1) with i in Hlt by lia. specialize (Hlt Hs).
      pose proof (Sub_mono (EndTime p) (Timestamp s) (StartTime p)). lia.
    + apply (detect_extends_pulse m2 i d s j p); try done.
      left. split; [done|]. intros j' p' Hj' Hp'.
      apply lookup_lt_Some in Hp'. lia.
  - intros Hidle.
    pose proof (detect_idle m2 i d s0 s Hlen Hs0 Hs Hd Habove Hidle) as Hdet.
    destruct (should_start m2 (len (derivatives m2) - 1) i) as [[]|] eqn:Ess;
      simpl in Hdet.
    + rewrite (Hfilter _ Hdet), filter_snoc, (filter_all _ _ Hkeep).
      destruct (keep_pulse _ _ _).
      * right. exists s0. done.
      * left. by rewrite app_nil_r.
    + destruct (Z.ltb_spec 0 (len (pulses m2))).
      * destruct (index (pulses m2) (len (pulses m2) - 1)) as [lp|] eqn:Elp;
          simpl in Hdet.
        2:{ destruct (index_lt (pulses m2) (len (pulses m2) - 1)) as [? ?]; [lia|].
            congruence. }
        destruct (Z.leb_spec i (EndIndex lp + 2)).
        -- exfalso.
           apply index_Some in Elp as [_ Elp].
           pose proof (list_elem_of_lookup_2 _ _ _ Elp) as Hin.
           rewrite Forall_forall in Hend. pose proof (Hend lp Hin) as Hle.
           pose proof (Hidle lp Hin) as Hneq.
           apply should_start_false in Ess as (pd & Hpd & Hpt).
           replace (len (derivatives m2) - 1 - 1) with (len (derivatives m2) - 2)
             in Hpd by lia.
           apply (Hgap pd lp Hpd Hpt Hin). lia.
        -- left. rewrite (Hfilter _ Hdet). by apply filter_all.
      * left. rewrite (Hfilter _ Hdet). by apply filter_all.
    + exfalso. unfold updatePulses in Eu. rewrite Hdet in Eu.
      destruct (Z.eqb_spec (len (derivatives m2)) 0); [lia|done].
Qed.

Lemma above_threshold_extends_pulse_witness :
  exists m2 m3,
    before_updatePulses [at_ms 0 0; at_ms 1000 1] (at_ms 2000 2)
                        (New (config_with_window 10)) = Some m2
    /\ updatePulses m2 = Some m3
    /\ state_after ([at_ms 0 0; at_ms 1000 1] ++ [at_ms 2000 2])
                   (New (config_with_window 10)) = Some m3
    /\ forall d,
         index (derivatives m2) (len (derivatives m2) - 1) = Some d ->
         PrimFloat.ltb (threshold m2) d = true ->
         let i := len (samples m2) - 1 in
         (forall j p, pulses m2 !! j = Some p -> EndIndex p = i - 1 ->
            S j = length (pulses m2)
            /\ Pulses m3
               = <[j := extend_pulse p i (Timestamp (at_ms 2000 2)) d]> (pulses m2))
         /\ ((forall p, p ∈ pulses m2 -> EndIndex p <> i - 1) ->
             Pulses m3 = pulses m2
             \/ exists s0,
                  index (samples m2) (i - 1) = Some s0
                  /\ Pulses m3
                     = pulses m2
                       ++ [ {| StartIndex := i - 1; EndIndex := i;
                               StartTime := Timestamp s0;
                               EndTime := Timestamp (at_ms 2000 2);
                               RawValue := d; Power := 0 |} ]).
Proof.
  apply (above_threshold_extends_pulse (New (config_with_window 10))
           [at_ms 0 0; at_ms 1000 1] (at_ms 2000 2)).
  - repeat split.
  - sorted_by_computation.
Defined.

(** On that run a pulse ends at the sample before the latest one, and the
    update extends it. *)
Lemma contiguous_pulse_run :
  before_updatePulses [at_ms 0 0; at_ms 1000 1] (at_ms 2000 2)
                      (New (config_with_window 10)) = Some rising_state
  /\ pulses rising_state = [first_pulse]
  /\ EndIndex first_pulse = len (samples rising_state) - 1 - 1
  /\ updatePulses rising_state
     = Some (with_pulses [extend_pulse first_pulse 2 (2000 * ms) 1] rising_state).
Proof. by_computation. Qed.

(** C4 fails on the code: after a rise, a flat second and a rise again, the
    first pulse ends at index 1 and the latest index is 3, within two samples
    of it; the pulse is not extended and a second pulse is opened: the meter
    holds both after the fourth sample. *)
Lemma pulse_within_gap_not_extended :
  before_updatePulses [at_ms 0 0; at_ms 1000 1; at_ms 2000 1] (at_ms 3000 2)
                      (New (config_with_window 10))
  = Some dip_state
  /\ pulses dip_state = [first_pulse]
  /\ len (samples dip_state) - 1 = 3
  /\ 3 <= EndIndex first_pulse + 2
  /\ index (derivatives dip_state) (len (derivatives dip_state) - 1)
     = Some 1%float
  /\ PrimFloat.ltb (threshold dip_state) 1 = true
  /\ updatePulses dip_state
     = Some (with_pulses [first_pulse; second_pulse] dip_state)
  /\ exists m,
       state_after [at_ms 0 0; at_ms 1000 1; at_ms 2000 1; at_ms 3000 2]
                   (New (config_with_window 10)) = Some m
       /\ Pulses m = [first_pulse; second_pulse].
Proof.
  do 7 (split; [by_computation|]).
  eexists. split; [vm_compute; reflexivity|]. reflexivity.
Qed.

(** ** Eviction with a window that is not positive *)

(** When no sample is after the cutoff, the cutoff index stays 0. *)
Lemma cutoffIndex_none c ss :
  Forall (not_after c) ss -> cutoffIndex c ss = 0.
Proof.
  intros H.
  destruct (cutoffIndex_spec c ss) as [E | (pre & s & post & -> & _ & _ & Ha & _)]; [done|].
  apply Forall_app in H as [_ H]. inversion H as [|? ? Hn _]; subst.
  unfold not_after in Hn. congruence.
Qed.

Lemma nondecreasing_strongly input :
  nondecreasing input ->
  StronglySorted (fun a b => Timestamp a <= Timestamp b) input.
Proof.
  apply Sorted_StronglySorted. intros a b c. lia.
Qed.

Lemma set_shutdown_reset m :
  shutdown m = false -> ResetShutdown (set_shutdown true m) = m.
Proof. destruct m. simpl. by intros ->. Qed.

(** ** Further properties of the meter *)

(** X1: whatever the timestamps of the input (repeated, going back), the
    meter never holds more derivatives than pairs of consecutive samples:
    [len(derivatives) <= max(0, len(samples) - 1)] in every state reached
    from a new meter. *)
Theorem derivatives_never_exceed_pairs (m0 : Meter) (input : list Sample) :
  fresh m0 ->
  exists m, state_after input m0 = Some m
    /\ len (Derivatives m) <= Z.max 0 (len (Samples m) - 1).
Proof.
  intros Hf. destruct (process_all_total input m0) as (m & t & E & _).
  exists m. unfold state_after. rewrite E. split; [done|].
  eapply (state_after_consistent input m0 m); [|by apply fresh_consistent].
  unfold state_after. by rewrite E.
Qed.

Lemma derivatives_never_exceed_pairs_witness :
  exists m,
    state_after [at_ms 0 1; at_ms 0 1.5; at_ms 1000 2]
                (New (config_with_window 10)) = Some m
    /\ len (Derivatives m) <= Z.max 0 (len (Samples m) - 1).
Proof.
  apply (derivatives_never_exceed_pairs (New (config_with_window 10))
           [at_ms 0 1; at_ms 0 1.5; at_ms 1000 2]).
  repeat split.
Defined.

(** X2: for an input with strictly increasing timestamps the derivative
    buffer has exactly [max(0, len(samples) - 1)] entries, the [i]-th being
    [(samples[i+1].Reading - samples[i].Reading) / dt] with [dt] the seconds
    between the two timestamps, across every eviction. *)
Theorem increasing_input_keeps_derivatives_exact (m0 : Meter) (input : list Sample) :
  fresh m0 -> increasing input ->
  exists m, state_after input m0 = Some m
    /\ len (Derivatives m) = Z.max 0 (len (Samples m) - 1)
    /\ forall i a b,
         index (Samples m) i = Some a -> index (Samples m) (i + 1) = Some b ->
         index (Derivatives m) i
         = Some (PrimFloat.div (PrimFloat.sub (Reading b) (Reading a))
                   (Seconds (Sub (Timestamp b) (Timestamp a)))).
Proof.
  intros Hf Hinc.
  destruct (derivatives_follow_samples input m0 Hf
              (increasing_positively_spaced _ Hinc)) as (m & S & Hd).
  exists m. unfold Derivatives, Samples. split; [done|].
  rewrite Hd. apply derivatives_of_spec.
Qed.

Lemma increasing_input_keeps_derivatives_exact_witness :
  exists m,
    state_after [at_ms 0 0; at_ms 1000 1; at_ms 2000 2; at_ms 3000 2]
                (New (config_with_window 10)) = Some m
    /\ len (Derivatives m) = Z.max 0 (len (Samples m) - 1)
    /\ forall i a b,
         index (Samples m) i = Some a -> index (Samples m) (i + 1) = Some b ->
         index (Derivatives m) i
         = Some (PrimFloat.div (PrimFloat.sub (Reading b) (Reading a))
                   (Seconds (Sub (Timestamp b) (Timestamp a)))).
Proof.
  apply (increasing_input_keeps_derivatives_exact (New (config_with_window 10))
           [at_ms 0 0; at_ms 1000 1; at_ms 2000 2; at_ms 3000 2]).
  - repeat split.
  - sorted_by_computation.
Defined.

(** X3: when the buffer left by the eviction ends with the samples [a] and
    [s], [processSample s] appends the derivative of the pair exactly when
    the timestamp of [s] is after that of [a], and otherwise leaves the
    derivative buffer as the eviction left it: the float test [dt > 0]
    agrees with the comparison of the timestamps. *)
Theorem derivative_appended_iff_timestamp_advances
    (m : Meter) (front : list Sample) (a s : Sample) :
  len (derivatives m) <= Z.max 0 (len (samples m) - 1) ->
  samples (evict (Timestamp s) (append_sample s m)) = front ++ [a; s] ->
  exists m' t,
    processSample s m = Some (m', t)
    /\ Derivatives m' =
       derivatives (evict (Timestamp s) (append_sample s m))
       ++ (if After (Timestamp s) (Timestamp a) then [derivative_of a s] else []).
Proof.
  intros Hb Hs.
  pose proof (evict_derivatives_bounded s m Hb) as Hb1.
  destruct (processSample_total s m) as (m' & t & E & _).
  exists m', t. split; [done|].
  unfold processSample in E.
  set (m1 := evict (Timestamp s) (append_sample s m)) in *.
  destruct (update_derivative m1) as [m2|] eqn:E2; [|done]. simpl in E.
  destruct (updatePulses m2) as [m3|] eqn:E3; [|done]. simpl in E.
  injection E as -> _.
  destruct (updatePulses_total m2) as (m3' & E3' & _ & Hd3 & _).
  { destruct (update_derivative_total m1) as (m2' & E2' & Hs2 & _).
    rewrite E2 in E2'. injection E2' as <-. rewrite Hs2, Hs. by destruct front. }
  rewrite E3 in E3'. injection E3' as <-. unfold Derivatives. rewrite Hd3.
  unfold update_derivative in E2. rewrite Hs in E2.
  destruct (index_last_two front a s) as [Ea Eb]. rewrite Ea, Eb in E2.
  rewrite Hs in Hb1.
  assert (len (front ++ [a; s]) = len front + 2) as Hlen.
  { rewrite len_app. reflexivity. }
  pose proof (len_nonneg front).
  destruct (Z.leb_spec 2 (len (front ++ [a; s]))); [|lia]. simpl in E2.
  rewrite elapsed_positive in E2.
  destruct (After (Timestamp s) (Timestamp a)).
  - rewrite (len_app (derivatives m1)) in E2.
    change (len [derivative_of a s]) with 1 in E2.
    destruct (Z.ltb_spec (len (front ++ [a; s]) - 1) (len (derivatives m1) + 1)); [lia|].
    by injection E2 as <-.
  - injection E2 as <-. by rewrite app_nil_r.
Qed.

Lemma derivative_appended_iff_timestamp_advances_witness :
  exists m' t,
    processSample (at_ms 1000 1) (meter_with 10000 [at_ms 0 0] [] [])
    = Some (m', t)
    /\ Derivatives m' =
       derivatives (evict (Timestamp (at_ms 1000 1))
                      (append_sample (at_ms 1000 1)
                         (meter_with 10000 [at_ms 0 0] [] [])))
       ++ (if After (Timestamp (at_ms 1000 1)) (Timestamp (at_ms 0 0))
           then [derivative_of (at_ms 0 0) (at_ms 1000 1)] else []).
Proof.
  apply (derivative_appended_iff_timestamp_advances
           (meter_with 10000 [at_ms 0 0] [] []) [] (at_ms 0 0) (at_ms 1000 1)).
  - by_computation.
  - reflexivity.
Defined.

(** X4: whatever the window and the timestamps, the sample buffer is a
    suffix of the samples processed so far, in their order, and it ends with
    the sample processed last: eviction only drops from the front and never
    empties the buffer. *)
Theorem buffer_is_suffix_ending_in_latest
    (m0 : Meter) (input : list Sample) (s : Sample) :
  samples m0 = [] ->
  exists m evicted kept,
    state_after (input ++ [s]) m0 = Some m
    /\ input ++ [s] = evicted ++ Samples m
    /\ Samples m = kept ++ [s].
Proof.
  intros H0.
  destruct (process_all_total (input ++ [s]) m0) as (m & t & E & _).
  assert (state_after (input ++ [s]) m0 = Some m) as S by (unfold state_after; by rewrite E).
  destruct (samples_suffix _ _ _ S) as [ev Hev]. rewrite H0 in Hev. simpl in Hev.
  pose proof S as S'. rewrite state_after_snoc in S'.
  destruct (state_after input m0) as [m1|]; [|done]. simpl in S'.
  destruct (processSample_total s m1) as (m' & t' & E' & Hs & _).
  rewrite E' in S'. simpl in S'. injection S' as ->.
  pose proof (latest_sample_kept s m1) as Hlast. cbv zeta in Hlast.
  rewrite <- Hs in Hlast.
  exists m, ev. unfold Samples.
  destruct (samples m) as [|x l] eqn:El using rev_ind.
  { done. }
  clear IHl. exists l. split; [done|]. split; [done|].
  apply index_Some in Hlast as [_ Hlast].
  unfold len in Hlast. rewrite length_app in Hlast. simpl in Hlast.
  rewrite lookup_app_r in Hlast by lia.
  replace (_ - _)%nat with 0%nat in Hlast by lia. simpl in Hlast. congruence.
Qed.

Lemma buffer_is_suffix_ending_in_latest_witness :
  exists m evicted kept,
    state_after ([at_ms 0 0; at_ms 6000 1] ++ [at_ms 12000 2])
                (New (config_with_window 10)) = Some m
    /\ [at_ms 0 0; at_ms 6000 1] ++ [at_ms 12000 2] = evicted ++ Samples m
    /\ Samples m = kept ++ [at_ms 12000 2].
Proof.
  apply (buffer_is_suffix_ending_in_latest (New (config_with_window 10))
           [at_ms 0 0; at_ms 6000 1] (at_ms 12000 2)).
  reflexivity.
Defined.

(** X5: with a window of zero or negative duration and timestamps that
    never go back, no sample is ever evicted: the buffer is the whole
    input. *)
Theorem nonpositive_window_evicts_nothing (m0 : Meter) (input : list Sample) :
  fresh m0 -> minDuration < windowDuration m0 <= 0 -> nondecreasing input ->
  exists m, state_after input m0 = Some m /\ Samples m = input.
Proof.
  intros Hf Hw. revert input.
  induction input as [|s input IH] using rev_ind; intros Hnd.
  - exists m0. split; [done|]. unfold Samples. by destruct Hf as (-> & _).
  - pose proof Hnd as Hss. apply nondecreasing_strongly in Hss.
    apply StronglySorted_app in Hss as (Hle & _ & _).
    destruct (IH (Sorted_app_l _ _ _ Hnd)) as (m & S & Hm).
    destruct (processSample_total s m) as (m' & t & E & Hs & _).
    exists m'. split; [rewrite state_after_snoc, S; simpl; by rewrite E|].
    unfold Samples in *. rewrite Hs.
    destruct (process_all_total input m0) as (m1 & t1 & E1 & _ & Ew & _).
    unfold state_after in S. rewrite E1 in S. simpl in S. injection S as ->.
    unfold evict. rewrite cutoffIndex_none; [simpl; by rewrite Hm|].
    simpl. rewrite Hm, Ew.
    unfold neg, minDuration in *.
    destruct (Z.eqb_spec (windowDuration m0) (- 2 ^ 63)); [lia|].
    apply Forall_app. split.
    + apply Forall_forall. intros a Ha. unfold not_after, After, Add.
      apply Z.ltb_ge. specialize (Hle a s Ha). 
      assert (Timestamp a <= Timestamp s) by (apply Hle; by left). lia.
    + constructor; [|constructor]. unfold not_after, After, Add.
      apply Z.ltb_ge. lia.
Qed.

Lemma nonpositive_window_evicts_nothing_witness :
  exists m,
    state_after [at_ms 0 0; at_ms 1000 1; at_ms 1000 2; at_ms 9000 3]
                (New (config_with_window 0)) = Some m
    /\ Samples m = [at_ms 0 0; at_ms 1000 1; at_ms 1000 2; at_ms 9000 3].
Proof.
  apply (nonpositive_window_evicts_nothing (New (config_with_window 0))
           [at_ms 0 0; at_ms 1000 1; at_ms 1000 2; at_ms 9000 3]).
  - repeat split.
  - by_computation.
  - repeat first [ apply Sorted_nil | apply Sorted_cons
                 | apply HdRel_nil | apply HdRel_cons ];
      vm_compute; discriminate.
Defined.

(** X6: on every input the pulse list is in order and its pulses do not
    overlap: each pulse ends at a sample index below the start index of every
    later pulse, and each pulse spans at least two samples
    ([StartIndex < EndIndex]). *)
Theorem pulses_ordered_and_disjoint (m0 : Meter) (input : list Sample) :
  fresh m0 ->
  exists m, state_after input m0 = Some m
    /\ StronglySorted (fun p q => EndIndex p < StartIndex q) (Pulses m)
    /\ Forall (fun p => StartIndex p < EndIndex p) (Pulses m).
Proof.
  intros Hf. destruct (process_all_total input m0) as (m & t & E & _).
  exists m. unfold state_after. rewrite E. split; [done|].
  destruct (state_after_consistent input m0 m) as (_ & Hwf & Hd);
    [unfold state_after; by rewrite E | by apply fresh_consistent |].
  split; [done|]. eapply Forall_impl; [exact Hwf|]. by intros p (_ & ? & _).
Qed.

Lemma pulses_ordered_and_disjoint_witness :
  exists m,
    state_after [at_ms 0 0; at_ms 1000 1; at_ms 2000 1; at_ms 3000 2]
                (New (config_with_window 10)) = Some m
    /\ StronglySorted (fun p q => EndIndex p < StartIndex q) (Pulses m)
    /\ Forall (fun p => StartIndex p < EndIndex p) (Pulses m).
Proof.
  apply (pulses_ordered_and_disjoint (New (config_with_window 10))
           [at_ms 0 0; at_ms 1000 1; at_ms 2000 1; at_ms 3000 2]).
  repeat split.
Defined.

(** X7: on every input, the times of each retained pulse are the
    timestamps of the samples at its indices in the current buffer, so the
    duration the noise filter compares is the time between those two
    samples. *)
Theorem pulse_times_are_sample_timestamps (m0 : Meter) (input : list Sample) :
  fresh m0 ->
  exists m, state_after input m0 = Some m
    /\ forall p, p ∈ Pulses m ->
         exists s0 s1,
           index (Samples m) (StartIndex p) = Some s0
           /\ index (Samples m) (EndIndex p) = Some s1
           /\ StartTime p = Timestamp s0 /\ EndTime p = Timestamp s1
           /\ duration p = Sub (Timestamp s1) (Timestamp s0).
Proof.
  intros Hf. destruct (process_all_total input m0) as (m & t & E & _).
  exists m. unfold state_after. rewrite E. split; [done|].
  destruct (state_after_consistent input m0 m) as (_ & Hwf & _);
    [unfold state_after; by rewrite E | by apply fresh_consistent |].
  intros p Hp. rewrite Forall_forall in Hwf.
  destruct (Hwf p Hp) as ((H1 & H2) & _). unfold Samples.
  destruct (index (samples m) (StartIndex p)) as [s0|]; [|done].
  destruct (index (samples m) (EndIndex p)) as [s1|]; [|done].
  simpl in H1, H2. injection H1 as H1. injection H2 as H2.
  exists s0, s1. unfold duration. by rewrite <- H1, <- H2.
Qed.

Lemma pulse_times_are_sample_timestamps_witness :
  exists m,
    state_after [at_ms 0 0; at_ms 1000 1; at_ms 2000 2; at_ms 3000 2]
                (New (config_with_window 10)) = Some m
    /\ forall p, p ∈ Pulses m ->
         exists s0 s1,
           index (Samples m) (StartIndex p) = Some s0
           /\ index (Samples m) (EndIndex p) = Some s1
           /\ StartTime p = Timestamp s0 /\ EndTime p = Timestamp s1
           /\ duration p = Sub (Timestamp s1) (Timestamp s0).
Proof.
  apply (pulse_times_are_sample_timestamps (New (config_with_window 10))
           [at_ms 0 0; at_ms 1000 1; at_ms 2000 2; at_ms 3000 2]).
  repeat split.
Defined.

(** X8: on every input each retained pulse has [Power = 0] (the meter never
    computes it) and a [RawValue] above the threshold. *)
Theorem pulse_power_is_never_computed (m0 : Meter) (input : list Sample) :
  fresh m0 ->
  exists m, state_after input m0 = Some m
    /\ forall p, p ∈ Pulses m ->
         Power p = 0%float /\ PrimFloat.ltb (threshold m0) (RawValue p) = true.
Proof.
  intros Hf. destruct (process_all_total input m0) as (m & t & E & _ & _ & Et & _).
  exists m. unfold state_after. rewrite E. split; [done|].
  destruct (state_after_consistent input m0 m) as (_ & Hwf & _);
    [unfold state_after; by rewrite E | by apply fresh_consistent |].
  intros p Hp. rewrite Forall_forall in Hwf.
  destruct (Hwf p Hp) as (_ & _ & H3 & H4). by rewrite <- Et.
Qed.

Lemma pulse_power_is_never_computed_witness :
  exists m,
    state_after [at_ms 0 0; at_ms 1000 1; at_ms 2000 2; at_ms 3000 2]
                (New (config_with_window 10)) = Some m
    /\ forall p, p ∈ Pulses m ->
         Power p = 0%float
         /\ PrimFloat.ltb (threshold (New (config_with_window 10))) (RawValue p)
            = true.
Proof.
  apply (pulse_power_is_never_computed (New (config_with_window 10))
           [at_ms 0 0; at_ms 1000 1; at_ms 2000 2; at_ms 3000 2]).
  repeat split.
Defined.

(** X9: for an input with strictly increasing timestamps, every derivative
    between the start and the end of a retained pulse is above the threshold,
    and [RawValue] is the derivative of the last pair of samples of the
    pulse. *)
Theorem pulse_covers_rising_intervals (m0 : Meter) (input : list Sample) :
  fresh m0 -> increasing input ->
  exists m, state_after input m0 = Some m
    /\ forall p, p ∈ Pulses m ->
         (forall i, StartIndex p <= i < EndIndex p ->
            exists a b, index (Samples m) i = Some a
              /\ index (Samples m) (i + 1) = Some b
              /\ index (Derivatives m) i = Some (derivative_of a b)
              /\ PrimFloat.ltb (threshold m0) (derivative_of a b) = true)
         /\ index (Derivatives m) (EndIndex p - 1) = Some (RawValue p).
Proof.
  intros Hf Hinc.
  destruct (increasing_covers input m0 Hf Hinc) as (m & S & Hd & Hc & Hcov).
  exists m. split; [done|].
  destruct (process_all_total input m0) as (m' & t & E & _ & _ & Et & _).
  unfold state_after in S. rewrite E in S. simpl in S. injection S as ->.
  intros p Hp. rewrite Forall_forall in Hcov. destruct (Hcov p Hp) as [H1 H2].
  split; [|done]. intros i Hi.
  destruct (H1 i Hi) as (d & Hdi & Ht).
  destruct Hc as (_ & Hwf & _). rewrite Forall_forall in Hwf.
  destruct (Hwf p Hp) as ((Hs & He) & _).
  pose proof (index_fmap_bound _ _ _ _ Hs). pose proof (index_fmap_bound _ _ _ _ He).
  destruct (index_lt (samples m) i) as [a Ha]; [lia|].
  destruct (index_lt (samples m) (i + 1)) as [b Hb]; [lia|].
  exists a, b. unfold Samples, Derivatives. repeat split; try done.
  - rewrite Hd. by apply derivatives_of_spec.
  - rewrite Hd in Hdi. rewrite (proj2 (derivatives_of_spec _) i a b Ha Hb) in Hdi.
    injection Hdi as <-. by rewrite <- Et.
Qed.

Lemma pulse_covers_rising_intervals_witness :
  exists m,
    state_after [at_ms 0 0; at_ms 1000 1; at_ms 2000 2; at_ms 3000 2]
                (New (config_with_window 10)) = Some m
    /\ forall p, p ∈ Pulses m ->
         (forall i, StartIndex p <= i < EndIndex p ->
            exists a b, index (Samples m) i = Some a
              /\ index (Samples m) (i + 1) = Some b
              /\ index (Derivatives m) i = Some (derivative_of a b)
              /\ PrimFloat.ltb (threshold (New (config_with_window 10)))
                   (derivative_of a b) = true)
         /\ index (Derivatives m) (EndIndex p - 1) = Some (RawValue p).
Proof.
  apply (pulse_covers_rising_intervals (New (config_with_window 10))
           [at_ms 0 0; at_ms 1000 1; at_ms 2000 2; at_ms 3000 2]).
  - repeat split.
  - sorted_by_computation.
Defined.

(** X10: for an input with strictly increasing timestamps, pulse detection
    leaves the list as it is, appends a new pulse, or extends the last pulse,
    and then that pulse ended at the sample just before the latest one: the
    branch that extends a pulse across a gap is never taken. *)
Theorem extension_needs_contiguous_pulse
    (m0 : Meter) (input : list Sample) (s : Sample) :
  fresh m0 -> increasing (input ++ [s]) ->
  exists m2 m3,
    before_updatePulses input s m0 = Some m2
    /\ updatePulses m2 = Some m3
    /\ state_after (input ++ [s]) m0 = Some m3
    /\ forall ps, detect m2 = Some ps ->
         ps = pulses m2
         \/ (exists p, ps = pulses m2 ++ [p])
         \/ (exists front p d,
               pulses m2 = front ++ [p]
               /\ EndIndex p = len (samples m2) - 2
               /\ ps = front ++ [extend_pulse p (len (samples m2) - 1) (Timestamp s) d]).
Proof.
  intros Hf Hinc.
  destruct (update_on_increasing_input m0 input s Hf Hinc)
    as (m2 & m3 & Hb & Eu & S3 & _ & Hwf & Hdis & Hend & Hs & _ & Htight & Hgap).
  exists m2, m3. split; [done|]. split; [done|]. split; [done|].
  intros ps Hdet. pose proof Hdet as Hdet0. unfold detect in Hdet.
  destruct (index (derivatives m2) (len (derivatives m2) - 1)) as [d|] eqn:Ei;
    [|done]. simpl in Hdet.
  pose proof (index_bound _ _ _ Ei) as Hbd.
  destruct (PrimFloat.ltb _ _) eqn:El; [|left; by injection Hdet as <-].
  set (n := len (samples m2)) in *.
  destruct (index_lt (samples m2) (n - 1 - 1)) as [s0 Hs0]; [lia|].
  destruct (find_active_spec (pulses m2) (length (pulses m2)) (n - 1 - 1))
    as [[Ef Hnone] | (j & p & Hj & Hp & He & Ef & _)].
  - assert (forall p, p ∈ pulses m2 -> EndIndex p <> n - 1 - 1) as Hidle.
    { intros q Hq. apply list_elem_of_lookup in Hq as [jq Hq].
      exact (Hnone jq q (lookup_lt_Some _ _ _ Hq) Hq). }
    rewrite (detect_idle m2 (n - 1) d s0 s) in Hdet0; try done; [|lia].
    destruct (should_start m2 _ (n - 1)) as [[]|] eqn:Ess; [| |done]; simpl in Hdet0.
    + injection Hdet0 as <-. right. left. eauto.
    + destruct (Z.ltb_spec 0 (len (pulses m2))); [|left; by injection Hdet0 as <-].
      destruct (index (pulses m2) _) as [lp|] eqn:Elp; [|done]. simpl in Hdet0.
      destruct (Z.leb_spec (n - 1) (EndIndex lp + 2)); [|left; by injection Hdet0 as <-].
      exfalso.
      apply index_Some in Elp as [_ Elp].
      pose proof (list_elem_of_lookup_2 _ _ _ Elp) as Hin.
      rewrite Forall_forall in Hend. pose proof (Hend lp Hin) as Hle.
      pose proof (Hidle lp Hin) as Hneq.
      apply should_start_false in Ess as (pd & Hpd & Hpt).
      replace (len (derivatives m2) - 1 - 1) with (len (derivatives m2) - 2)
        in Hpd by lia.
      apply (Hgap pd lp Hpd Hpt Hin). fold n in Hle. lia.
  - unfold heating in Hdet. fold n in Hdet. rewrite Ef in Hdet.
    destruct (Z.leb_spec 0 (Z.of_nat j)); [|lia].
    assert (index (pulses m2) (Z.of_nat j) = Some p) as Ep2.
    { apply index_Some. split; [lia|]. by rewrite Nat2Z.id. }
    rewrite Ep2, Hs in Hdet. simpl in Hdet. injection Hdet as <-.
    destruct (active_is_last (pulses m2) j p (n - 1 - 1)) as (front & Efront & ->);
      try done.
    { rewrite Forall_forall in *. intros q Hq. destruct (Hwf q Hq) as (_ & ? & _).
      specialize (Hend q Hq). fold n in Hend. lia. }
    fold (len front). rewrite Efront, set_index_last.
    right. right. exists front, p, d. split; [done|]. split; [lia|done].
Qed.

Lemma extension_needs_contiguous_pulse_witness :
  exists m2 m3,
    before_updatePulses [at_ms 0 0; at_ms 1000 1] (at_ms 2000 2)
                        (New (config_with_window 10)) = Some m2
    /\ updatePulses m2 = Some m3
    /\ state_after ([at_ms 0 0; at_ms 1000 1] ++ [at_ms 2000 2])
                   (New (config_with_window 10)) = Some m3
    /\ forall ps, detect m2 = Some ps ->
         ps = pulses m2
         \/ (exists p, ps = pulses m2 ++ [p])
         \/ (exists front p d,
               pulses m2 = front ++ [p]
               /\ EndIndex p = len (samples m2) - 2
               /\ ps = front ++ [extend_pulse p (len (samples m2) - 1)
                                   (Timestamp (at_ms 2000 2)) d]).
Proof.
  apply (extension_needs_contiguous_pulse (New (config_with_window 10))
           [at_ms 0 0; at_ms 1000 1] (at_ms 2000 2)).
  - repeat split.
  - sorted_by_computation.
Defined.

(** X11: draining one stream, resetting the shutdown flag and draining a
    second stream leaves the meter in the state, and invokes the callbacks
    with the arguments, of draining the two streams as one. *)
Theorem reconnect_resumes_the_stream
    (m : Meter) (before after : list Sample) :
  shutdown m = false ->
  exists m1 t1 m2 t2,
    ProcessSamples before m = Some (m1, t1)
    /\ ProcessSamples after (ResetShutdown m1) = Some (m2, t2)
    /\ ProcessSamples (before ++ after) m = Some (m2, t1 ++ t2).
Proof.
  intros Hs.
  destruct (process_all_total before m) as (m1 & t1 & E1 & _ & _ & _ & _ & Es1).
  destruct (process_all_total after m1) as (m2 & t2 & E2 & _).
  exists (set_shutdown true m1), t1, (set_shutdown true m2), t2.
  unfold ProcessSamples.
  rewrite set_shutdown_reset by congruence.
  rewrite process_all_app, E1. simpl. rewrite E2. done.
Qed.

Lemma reconnect_resumes_the_stream_witness :
  exists m1 t1 m2 t2,
    ProcessSamples [at_ms 0 0; at_ms 1000 1]
                   (OnUpdate (Some 1%nat) (New (config_with_window 10)))
    = Some (m1, t1)
    /\ ProcessSamples [at_ms 2000 2] (ResetShutdown m1) = Some (m2, t2)
    /\ ProcessSamples ([at_ms 0 0; at_ms 1000 1] ++ [at_ms 2000 2])
                      (OnUpdate (Some 1%nat) (New (config_with_window 10)))
       = Some (m2, t1 ++ t2).
Proof.
  apply (reconnect_resumes_the_stream
           (OnUpdate (Some 1%nat) (New (config_with_window 10)))
           [at_ms 0 0; at_ms 1000 1] [at_ms 2000 2]).
  reflexivity.
Defined.

(** ** The averaging converter *)

Lemma last_n_all {A} (n : Z) (l : list A) : len l <= n -> last_n n l = l.
Proof.
  unfold last_n, len. intros H.
  replace (length l - Z.to_nat n)%nat with 0%nat by lia. apply drop_0.
Qed.

Lemma last_n_cons {A} (n : Z) (x : A) (l : list A) :
  n <= len l -> last_n n (x :: l) = last_n n l.
Proof.
  unfold last_n, len. intros H. simpl length.
  replace (S (length l) - Z.to_nat n)%nat with (S (length l - Z.to_nat n)) by lia.
  reflexivity.
Qed.

(** The buffer of a running goroutine slides over what it receives. *)
Lemma run_buffer events : forall c,
  0 < windowSize c -> len (buffer c) <= windowSize c ->
  buffer (fst (run events c))
  = if returned c then buffer c
    else last_n (windowSize c) (buffer c ++ received events).
Proof.
  induction events as [|e events IH]; intros c Hw Hb; simpl.
  - rewrite app_nil_r, last_n_all by done. by destruct (returned c).
  - destruct e; simpl.
    + destruct (returned c) eqn:Er.
      * specialize (IH c Hw Hb). rewrite Er in IH.
        destruct (run events c) as [c2 d2]. done.
      * set (b := buffer c ++ [s]).
        set (c1 := with_buffer (if windowSize c <? len b then slice_from 1 b else b) c).
        assert (len b = len (buffer c) + 1) as Hlb by (unfold b; by rewrite len_app).
        specialize (IH c1 Hw). simpl in IH. rewrite Er in IH.
        destruct (run events c1) as [c2 d2]. simpl in *. rewrite IH.
        -- destruct (Z.ltb_spec (windowSize c) (len b)).
           ++ replace (buffer c ++ s :: received events) with (b ++ received events)
                by (unfold b; by rewrite <- app_assoc).
             destruct b as [|x b']; [done|]. unfold slice_from. simpl drop. rewrite drop_0.
             simpl app. rewrite last_n_cons; [done|].
             rewrite len_app. unfold len in *. simpl in *.
             pose proof (len_nonneg (received events)). unfold len in *. lia.
           ++ unfold b. by rewrite <- app_assoc.
        -- destruct (Z.ltb_spec (windowSize c) (len b)); [|lia].
           rewrite len_slice_from; lia.
    + destruct (returned c) eqn:Er.
      * specialize (IH c Hw Hb). rewrite Er in IH.
        destruct (run events c) as [c2 d2]. done.
      * set (c1 := {| windowSize := _ |}).
        assert (buffer c1 = buffer c /\ windowSize c1 = windowSize c) as [E1 E2].
        { unfold c1, emit, trySend. simpl.
          destruct (0 <? _); [destruct (_ <? _)|]; done. }
        specialize (IH c1). rewrite E1, E2 in IH. specialize (IH Hw Hb). simpl in IH.
        destruct (run events c1) as [c2 d2]. simpl in *. rewrite IH.
        by rewrite app_nil_r, last_n_all.
    + destruct (returned c) eqn:Er.
      * specialize (IH c Hw Hb). rewrite Er in IH.
        destruct (run events c) as [c2 d2]. done.
      * assert (buffer (emit c) = buffer c /\ windowSize (emit c) = windowSize c
                /\ returned (emit c) = false) as (E1 & E2 & E3).
        { unfold emit, trySend. destruct (0 <? _); [destruct (_ <? _)|]; done. }
        specialize (IH (emit c)). rewrite E1, E2, E3 in IH. specialize (IH Hw Hb).
        destruct (run events (emit c)) as [c2 d2]. done.
    + destruct (out c) as [|x rest] eqn:Eo.
      * specialize (IH c Hw Hb). destruct (run events c) as [c2 d2]. done.
      * specialize (IH (with_out rest c) Hw Hb). simpl in IH.
        destruct (run events (with_out rest c)) as [c2 d2]. done.
Qed.

(** X12: whatever the order of samples, ticks and reads, the buffer of the
    averaging converter holds the last [windowSize] samples it has received
    (all of them while there are fewer; [windowSize] is 1 when the argument
    is not positive), and keeps them once the input is closed. *)
Theorem averaging_buffer_is_sliding_window (windowSize bufSize : Z)
    (events : list Event) :
  buffer (fst (run events (NewAveragingConverterForSamples windowSize bufSize)))
  = last_n (if windowSize <=? 0 then 1 else windowSize) (received events).
Proof.
  rewrite run_buffer; simpl.
  - done.
  - destruct (Z.leb_spec windowSize 0); lia.
  - change (len []) with 0. destruct (Z.leb_spec windowSize 0); lia.
Qed.

Lemma averageConvertedSamples_Timestamp b s :
  last b = Some s -> Timestamp (averageConvertedSamples b) = Timestamp s.
Proof. unfold averageConvertedSamples. by intros ->. Qed.

Lemma latest_nonempty b : 0 < len b -> exists s, last b = Some s /\ latest b = [s].
Proof.
  unfold latest. destruct b as [|x b] using rev_ind; [done|].
  intros _. exists x. by rewrite last_snoc.
Qed.

Lemma latest_snoc b s : latest (b ++ [s]) = [s].
Proof. unfold latest. by rewrite last_snoc. Qed.

Lemma latest_slice b s : latest (slice_from 1 (b ++ [s])) = [s] \/ slice_from 1 (b ++ [s]) = [].
Proof.
  unfold slice_from. simpl. destruct b as [|x b]; simpl; [by right|].
  left. rewrite drop_0. apply latest_snoc.
Qed.

Lemma older_sorted_sub (l1 mid l2 : list Sample) :
  StronglySorted older (l1 ++ mid ++ l2) -> StronglySorted older (l1 ++ l2).
Proof.
  rewrite !StronglySorted_app. intros (H1 & H2 & H3 & H4 & H5).
  repeat split; try done. intros x1 x2 Hx1 Hx2. apply H1; [done|].
  apply elem_of_app. by right.
Qed.

(** What [out] has carried and still carries stays in the order of time, and
    not before a bound that held for all that was to come. *)
Lemma run_order events : forall c L,
  StronglySorted older (out c ++ latest (buffer c) ++ received events) ->
  Forall (fun s => L <= Timestamp s) (out c ++ latest (buffer c) ++ received events) ->
  len (out c) <= bufSize c ->
  let '(c', d) := run events c in
  StronglySorted older (d ++ out c')
  /\ Forall (fun s => L <= Timestamp s) (d ++ out c')
  /\ len (out c') <= bufSize c'.
Proof.
  assert (forall c L,
    StronglySorted older (out c ++ latest (buffer c)) ->
    Forall (fun s => L <= Timestamp s) (out c ++ latest (buffer c)) ->
    len (out c) <= bufSize c ->
    StronglySorted older (out (emit c) ++ latest (buffer (emit c)))
    /\ Forall (fun s => L <= Timestamp s) (out (emit c) ++ latest (buffer (emit c)))
    /\ len (out (emit c)) <= bufSize (emit c)
    /\ buffer (emit c) = buffer c /\ returned (emit c) = returned c) as Hemit.
  { intros c L Hs HL Hb. unfold emit, trySend.
    destruct (Z.ltb_spec 0 (len (buffer c))); [|done].
    destruct (Z.ltb_spec (len (out c)) (bufSize c)); [|done]. simpl.
    destruct (latest_nonempty _ H) as (s & Hl & El). rewrite El in *.
    pose proof (averageConvertedSamples_Timestamp _ _ Hl) as Et.
    rewrite len_app. change (len [_]) with 1.
    repeat split; try done; try lia.
    - rewrite <- app_assoc. apply StronglySorted_app in Hs as (H1 & H2 & H3).
      apply StronglySorted_app. repeat split; [|done|].
      + intros x1 x2 Hx1 Hx2. apply elem_of_cons in Hx2 as [->|Hx2].
        * rewrite Et. apply H1; [done | by left].
        * by apply H1.
      + constructor; [done|]. constructor; [|constructor]. lia.
    - rewrite <- app_assoc. apply Forall_app in HL as [H1 H2].
      apply Forall_app. split; [done|]. constructor; [|done].
      rewrite Et. by inversion H2. }
  assert (forall evs c, returned c = true ->
            let '(c', d) := run evs c in d ++ out c' = out c /\ bufSize c' = bufSize c)
    as Hret.
  { induction evs as [|e evs IH]; intros c Hr; simpl; [done|].
    destruct e; simpl; rewrite ?Hr.
    - specialize (IH c Hr). by destruct (run evs c).
    - specialize (IH c Hr). by destruct (run evs c).
    - specialize (IH c Hr). by destruct (run evs c).
    - destruct (out c) as [|x rest] eqn:Eo.
      + specialize (IH c Hr). destruct (run evs c). by rewrite Eo in IH.
      + specialize (IH (with_out rest c) Hr). simpl in IH.
        destruct (run evs (with_out rest c)). simpl. destruct IH as [-> ->].
        done. }
  assert (forall evs c L,
            returned c = true -> StronglySorted older (out c) ->
            Forall (fun s => L <= Timestamp s) (out c) -> len (out c) <= bufSize c ->
            let '(c', d) := run evs c in
            StronglySorted older (d ++ out c')
            /\ Forall (fun s => L <= Timestamp s) (d ++ out c')
            /\ len (out c') <= bufSize c') as Hdone.
  { intros evs c L Hr Hs HL Hb. specialize (Hret evs c Hr).
    destruct (run evs c) as [c2 d2]. destruct Hret as [Hd Hbs]. rewrite Hd.
    repeat split; try done.
    pose proof (f_equal len Hd) as Hl. rewrite len_app in Hl.
    pose proof (len_nonneg d2). lia. }
  induction events as [|e events IH]; intros c L Hs HL Hb.
  { simpl. rewrite app_nil_r in Hs, HL. split; [by eapply StronglySorted_app_1_l|].
    split; [|done]. by apply Forall_app in HL as [? _]. }
  destruct (returned c) eqn:Er.
  { apply Hdone; try done.
    - by eapply StronglySorted_app_1_l.
    - by apply Forall_app in HL as [? _]. }
  destruct e; simpl; rewrite ?Er.
  - set (b := buffer c ++ [s]).
    set (c1 := with_buffer (if windowSize c <? len b then slice_from 1 b else b) c).
    specialize (IH c1 L). simpl in Hs, HL.
    destruct (run events c1) as [c2 d2]. simpl. apply IH; try done.
    + subst c1 b. simpl.
      assert (StronglySorted older (out c ++ s :: received events)) as Hs'.
      { by apply (older_sorted_sub _ (latest (buffer c)) _). }
      destruct (windowSize c <? len (buffer c ++ [s])).
      * destruct (latest_slice (buffer c) s) as [-> | ->]; [done|].
        simpl. by apply (older_sorted_sub _ [s] _).
      * by rewrite latest_snoc.
    + subst c1 b. simpl.
      assert (Forall (fun s => L <= Timestamp s) (out c ++ s :: received events)) as HL'.
      { apply Forall_app in HL as [H1 H2]. apply Forall_app in H2 as [_ H2].
        apply Forall_app. done. }
      destruct (windowSize c <? len (buffer c ++ [s])).
      * destruct (latest_slice (buffer c) s) as [-> | ->]; [done|].
        simpl. apply Forall_app in HL' as [H1 H2]. apply Forall_app.
        split; [done|]. by inversion H2.
      * by rewrite latest_snoc.
  - simpl in Hs, HL. rewrite app_nil_r in Hs, HL.
    destruct (Hemit c L Hs HL Hb) as (H1 & H2 & H3 & H4 & H5).
    set (c1 := {| windowSize := _ |}).
    assert (let '(c', d) := run events c1 in
            StronglySorted older (d ++ out c')
            /\ Forall (fun s => L <= Timestamp s) (d ++ out c')
            /\ len (out c') <= bufSize c') as Hd.
    { apply (Hdone events c1 L); subst c1; simpl; try done.
      - by eapply StronglySorted_app_1_l.
      - by apply Forall_app in H2 as [? _]. }
    by destruct (run events c1) as [c2 d2].
  - assert (StronglySorted older (out c ++ latest (buffer c))) as Hs0.
    { simpl in Hs. rewrite app_assoc in Hs. by eapply StronglySorted_app_1_l. }
    assert (Forall (fun s => L <= Timestamp s) (out c ++ latest (buffer c))) as HL0.
    { simpl in HL. rewrite app_assoc in HL. by apply Forall_app in HL as [? _]. }
    destruct (Hemit c L Hs0 HL0 Hb) as (H1 & H2 & H3 & H4 & H5).
    specialize (IH (emit c) L). simpl in Hs, HL.
    destruct (run events (emit c)) as [c2 d2]. simpl. apply IH; try done.
    + rewrite H4. unfold emit, trySend.
      destruct (Z.ltb_spec 0 (len (buffer c))); [|done].
      destruct (Z.ltb_spec (len (out c)) (bufSize c)); [|done]. simpl.
      destruct (latest_nonempty _ H) as (s & Hl & El). rewrite El in *.
      pose proof (averageConvertedSamples_Timestamp _ _ Hl) as Et.
      rewrite <- app_assoc. apply StronglySorted_app in Hs as (G1 & G2 & G3).
      apply StronglySorted_app. repeat split; [|done|].
      * intros x1 x2 Hx1 Hx2. apply elem_of_cons in Hx2 as [->|Hx2].
        -- rewrite Et. apply G1; [done | by left].
        -- by apply G1.
      * simpl. constructor; [done|]. constructor; [lia|].
        simpl in G3. inversion G3 as [|? ? _ Hall]; subst.
        eapply Forall_impl; [exact Hall|]. simpl. intros. lia.
    + rewrite H4. unfold emit, trySend.
      destruct (Z.ltb_spec 0 (len (buffer c))); [|done].
      destruct (Z.ltb_spec (len (out c)) (bufSize c)); [|done]. simpl.
      destruct (latest_nonempty _ H) as (s & Hl & El). rewrite El in *.
      pose proof (averageConvertedSamples_Timestamp _ _ Hl) as Et.
      rewrite <- app_assoc. apply Forall_app in HL as [G1 G2].
      apply Forall_app. split; [done|]. constructor; [|done].
      rewrite Et. by inversion G2.
  - destruct (out c) as [|x rest] eqn:Eo.
    + specialize (IH c L). rewrite Eo in IH.
      destruct (run events c) as [c2 d2]. simpl. by apply IH.
    + specialize (IH (with_out rest c)). simpl in IH, Hs, HL.
      apply StronglySorted_cons in Hs as [Hx Hs].
      inversion HL as [|? ? HLx HL']; subst.
      pose proof (IH (Timestamp x) Hs Hx) as IHx.
      specialize (IH L Hs HL').
      assert (len rest <= bufSize c) as Hb'.
      { unfold len in *. simpl in Hb. lia. }
      specialize (IH Hb'). specialize (IHx Hb').
      destruct (run events (with_out rest c)) as [c2 d2]. simpl.
      destruct IH as (G1 & G2 & G3). destruct IHx as (_ & G4 & _).
      split; [by constructor|]. split; [by constructor|done].
Qed.

(** X13: when the timestamps of the samples received never go back, neither
    do those of the averaged samples the converter sends, in the order they
    are sent: the ones already read followed by the ones waiting in [out]. *)
Theorem averaging_output_keeps_time_order (windowSize bufSize : Z)
    (events : list Event) :
  nondecreasing (received events) ->
  nondecreasing
    (snd (run events (NewAveragingConverterForSamples windowSize bufSize))
     ++ out (fst (run events (NewAveragingConverterForSamples windowSize bufSize)))).
Proof.
  intros Hnd. apply nondecreasing_strongly in Hnd.
  set (L := match received events with s :: _ => Timestamp s | [] => 0 end).
  pose proof (run_order events (NewAveragingConverterForSamples windowSize bufSize) L) as H.
  destruct (run events _) as [c d]. simpl in *.
  apply StronglySorted_Sorted. apply H; [done| |].
  - subst L. destruct (received events) as [|s rs]; [constructor|].
    apply StronglySorted_cons in Hnd as [Hs _].
    constructor; [lia|]. eapply Forall_impl; [exact Hs|]. simpl. intros. lia.
  - change (len []) with 0. destruct (bufSize <=? 0) eqn:E; [lia|].
    apply Z.leb_gt in E. lia.
Qed.

Lemma averaging_output_keeps_time_order_witness :
  nondecreasing
    (snd (run [Receive (at_ms 0 1); Tick; Receive (at_ms 50 2); Tick; Deliver; Tick]
              (NewAveragingConverterForSamples 2 10))
     ++ out (fst (run [Receive (at_ms 0 1); Tick; Receive (at_ms 50 2); Tick;
                       Deliver; Tick]
                      (NewAveragingConverterForSamples 2 10)))).
Proof.
  apply (averaging_output_keeps_time_order 2 10
           [Receive (at_ms 0 1); Tick; Receive (at_ms 50 2); Tick; Deliver; Tick]).
  repeat first [ apply Sorted_nil | apply Sorted_cons
               | apply HdRel_nil | apply HdRel_cons ];
    vm_compute; discriminate.
Defined.

(** A fresh meter given the same sample twice stores it twice and computes
    no derivative. *)
Lemma same_sample_twice (m0 : Meter) (o : Sample) :
  fresh m0 ->
  exists m, state_after [o; o] m0 = Some m
    /\ Samples m = [o; o] /\ Derivatives m = [] /\ Pulses m = [].
Proof.
  intros (Hs & Hd & Hp).
  assert (forall c ss, Forall (fun s => Timestamp s = Timestamp o) ss ->
            cutoffIndex c ss = 0) as Hcut.
  { intros c ss Hall. unfold cutoffIndex.
    destruct (cutoff_loop_spec c ss 0)
      as [[_ E0] | (pre & s & post & -> & Hpre & Ha & ->)]; [done|].
    destruct pre as [|a pre]; [done|]. exfalso.
    inversion Hpre as [|? ? Hn _]; subst. unfold not_after in Hn.
    inversion Hall as [|? ? Hta Hall']; subst.
    apply Forall_app in Hall' as [_ Hall']. inversion Hall' as [|? ? Hts _]; subst.
    rewrite Hta, <- Hts in Hn. congruence. }
  assert (forall m s, Forall (fun x => Timestamp x = Timestamp o) (samples m ++ [s]) ->
            evict (Timestamp s) (append_sample s m) = append_sample s m) as Hev.
  { intros m s Hall. unfold evict. simpl. by rewrite Hcut. }
  set (m1 := append_sample o m0).
  assert (processSample o m0
          = Some (m1, if negb (shutdown m1) then notifyCallbacks m1 else [])) as E1.
  { unfold processSample. rewrite (Hev m0 o) by (rewrite Hs; by repeat constructor).
    fold m1.
    assert (update_derivative m1 = Some m1) as ->.
    { unfold update_derivative. subst m1. simpl. by rewrite Hs. }
    simpl.
    assert (updatePulses m1 = Some m1) as ->.
    { unfold updatePulses. subst m1. simpl. by rewrite Hd. }
    done. }
  set (m2 := append_sample o m1).
  assert (processSample o m1
          = Some (m2, if negb (shutdown m2) then notifyCallbacks m2 else [])) as E2.
  { unfold processSample.
    rewrite (Hev m1 o) by (subst m1; simpl; rewrite Hs; by repeat constructor).
    fold m2.
    assert (update_derivative m2 = Some m2) as ->.
    { unfold update_derivative. subst m2 m1. simpl. rewrite Hs. simpl.
      rewrite elapsed_positive. unfold After. by rewrite Z.ltb_irrefl. }
    simpl.
    assert (updatePulses m2 = Some m2) as ->.
    { unfold updatePulses. subst m2 m1. simpl. by rewrite Hd. }
    done. }
  exists m2. unfold state_after. simpl. rewrite E1. simpl. rewrite E2. simpl.
  split; [done|]. subst m2 m1. unfold Samples, Derivatives, Pulses. simpl.
  by rewrite Hs, Hd, Hp.
Qed.

(** X14: two ticks of the ticker with no sample received in between send
    the same averaged sample twice (when [out] has room for two); a new
    meter that reads them stores both and computes no derivative for the
    pair. *)
Theorem repeated_tick_repeats_sample (c : Averager) (m0 : Meter) :
  returned c = false -> buffer c <> [] -> out c = [] -> 2 <= bufSize c ->
  fresh m0 ->
  exists o m,
    snd (run [Tick; Tick; Deliver; Deliver] c) = [o; o]
    /\ o = averageConvertedSamples (buffer c)
    /\ state_after [o; o] m0 = Some m
    /\ Samples m = [o; o] /\ Derivatives m = [].
Proof.
  intros Hr Hb Ho Hn Hf.
  destruct (same_sample_twice m0 (averageConvertedSamples (buffer c)) Hf)
    as (m & S & H1 & H2 & _).
  exists (averageConvertedSamples (buffer c)), m. repeat split; try done.
  pose proof (len_pos _ Hb) as Hl.
  set (o := averageConvertedSamples (buffer c)).
  assert (emit c = with_out [o] c) as E1.
  { unfold emit, trySend. rewrite Ho. change (len []) with 0.
    destruct (Z.ltb_spec 0 (len (buffer c))); [|lia].
    destruct (Z.ltb_spec 0 (bufSize c)); [done|lia]. }
  assert (emit (with_out [o] c) = with_out [o; o] (with_out [o] c)) as E2.
  { unfold emit, trySend. simpl. change (len [o]) with 1.
    destruct (Z.ltb_spec 0 (len (buffer c))); [|lia].
    destruct (Z.ltb_spec 1 (bufSize c)); [done|lia]. }
  cbn [run step]. rewrite Hr, E1. cbn [returned with_out]. rewrite Hr, E2. done.
Qed.

Lemma repeated_tick_repeats_sample_witness :
  exists o m,
    snd (run [Tick; Tick; Deliver; Deliver]
             (fst (run [Receive (at_ms 0 1); Receive (at_ms 50 2)]
                       (NewAveragingConverterForSamples 3 10))))
    = [o; o]
    /\ o = averageConvertedSamples
             (buffer (fst (run [Receive (at_ms 0 1); Receive (at_ms 50 2)]
                               (NewAveragingConverterForSamples 3 10))))
    /\ state_after [o; o] (New (config_with_window 10)) = Some m
    /\ Samples m = [o; o] /\ Derivatives m = [].
Proof.
  apply (repeated_tick_repeats_sample
           (fst (run [Receive (at_ms 0 1); Receive (at_ms 50 2)]
                     (NewAveragingConverterForSamples 3 10)))
           (New (config_with_window 10))).
  - reflexivity.
  - discriminate.
  - reflexivity.
  - by_computation.
  - repeat split.
Defined.

(** ** Downsampling: the rounding of the decimation index

    [DownsampleSamples] picks the element [int(float64(i) * step)] with
    [step = float64(len) / float64(maxPoints)]. The lemmas below bound the
    rounding of the quotient and of the product, to show that the index stays
    below [len] for every [i < maxPoints]. *)

Lemma digits2_upper m : Z.pos m < 2 ^ Z.pos (digits2_pos m).
Proof.
  rewrite digits2_pos_size. pose proof (Pos.size_gt m) as H.
  rewrite <- Pos2Z.inj_pow. lia.
Qed.

(** Shifting to the format exponent divides the mantissa by a power of two
    and raises the exponent by as much. *)
Lemma shr_fexp_spec m e l :
  let k := Z.max 0 (fexp prec emax (Z.pos (digits2_pos m) + e) - e) in
  shr_m (fst (shr_fexp prec emax (Z.pos m) e l)) = Z.pos m / 2 ^ k
  /\ snd (shr_fexp prec emax (Z.pos m) e l) = e + k.
Proof.
  intros k. subst k. unfold shr_fexp, shr. cbn [Zdigits2].
  set (d := Z.pos (digits2_pos m)).
  destruct (fexp prec emax (d + e) - e) as [|n|n] eqn:En; cbn [fst snd].
  - rewrite shr_m_of_loc. simpl. rewrite Z.div_1_r. lia.
  - rewrite shr_m_iter by (rewrite shr_m_of_loc; lia).
    rewrite shr_m_of_loc. replace (Z.max 0 (Z.pos n)) with (Z.pos n) by lia. lia.
  - rewrite shr_m_of_loc. replace (Z.max 0 (Z.neg n)) with 0 by lia.
    simpl. rewrite Z.div_1_r. lia.
Qed.

Lemma round_nearest_even_le m l : m <= round_nearest_even m l <= m + 1.
Proof. destruct l as [|[]]; simpl; try lia. destruct (Z.even m); lia. Qed.

Lemma digits2_of_bounds p d : 0 < d -> 2 ^ (d - 1) <= Z.pos p < 2 ^ d ->
  Z.pos (digits2_pos p) = d.
Proof.
  intros Hd [H1 H2].
  pose proof (digits2_lower p) as Hl. pose proof (digits2_upper p) as Hu.
  set (D := Z.pos (digits2_pos p)) in *.
  assert (0 < D) by (unfold D; lia).
  destruct (Z.lt_trichotomy D d) as [Hlt | [-> | Hgt]]; [exfalso|done|exfalso].
  - assert (2 ^ D <= 2 ^ (d - 1)) by (apply Z.pow_le_mono_r; lia). lia.
  - assert (2 ^ d <= 2 ^ (D - 1)) by (apply Z.pow_le_mono_r; lia). lia.
Qed.

(** Rounding a positive mantissa away from overflow gives a finite float
    that exceeds the mantissa by at most one unit of its last place. *)
Lemma binary_round_aux_upper sx m e l :
  emin64 <= e <= 900 -> Z.pos (digits2_pos m) + e <= 953 ->
  exists m' e',
    binary_round_aux prec emax sx (Z.pos m) e l = S754_finite sx m' e'
    /\ e <= e' <= e + Z.max 0 (Z.pos (digits2_pos m) - 53) + 1
    /\ 2 ^ (e' - e) * Z.pos m' <= Z.pos m + 2 ^ (e' - e).
Proof.
  intros He Hd. unfold binary_round_aux.
  pose proof (shr_fexp_pos m e l (proj1 He)) as [P1 P2].
  pose proof (shr_fexp_spec m e l) as [S1 S2]. cbv zeta in S1, S2.
  set (d := Z.pos (digits2_pos m)) in *.
  set (k1 := Z.max 0 (fexp prec emax (d + e) - e)) in *.
  assert (k1 = Z.max 0 (d - 53)) as Hk1.
  { unfold k1, fexp. rewrite emin64_eq in *. unfold prec. lia. }
  destruct (shr_fexp prec emax (Z.pos m) e l) as [mrs1 e1]. cbn [fst snd] in *.
  pose proof (round_nearest_even_le (shr_m mrs1) (loc_of_shr_record mrs1)) as Hr.
  set (r := round_nearest_even (shr_m mrs1) (loc_of_shr_record mrs1)) in *.
  assert (0 <= k1) as Hk1pos by lia.
  pose proof (digits2_upper m) as Hmu. fold d in Hmu.
  assert (shr_m mrs1 < 2 ^ 53) as Hm1.
  { rewrite S1. apply Z.div_lt_upper_bound; [apply Z.pow_pos_nonneg; lia|].
    rewrite <- Z.pow_add_r by lia.
    eapply Z.lt_le_trans; [exact Hmu|]. apply Z.pow_le_mono_r; lia. }
  destruct r as [|r'|r'] eqn:Er; try lia.
  pose proof (shr_fexp_pos r' e1 loc_Exact P2) as [Q1 Q2].
  pose proof (shr_fexp_spec r' e1 loc_Exact) as [T1 T2]. cbv zeta in T1, T2.
  set (dr := Z.pos (digits2_pos r')) in *.
  set (k2 := Z.max 0 (fexp prec emax (dr + e1) - e1)) in *.
  assert (dr <= 54) as Hdr.
  { apply digits2_le_of_lt; [lia|]. change (2 ^ 54) with (2 * 2 ^ 53). lia. }
  assert (0 <= k2 <= 1) as Hk2.
  { unfold k2, fexp. rewrite emin64_eq in *. unfold prec. lia. }
  destruct (shr_fexp prec emax (Z.pos r') e1 loc_Exact) as [mrs2 e2]. cbn [fst snd] in *.
  destruct (shr_m mrs2) as [|m2|m2] eqn:Em2; try lia.
  destruct (Z.leb_spec e2 (emax - prec)) as [_|Hov].
  2:{ unfold emax, prec in Hov. lia. }
  exists m2, e2. split; [done|]. split; [fold d; lia|].
  replace (e2 - e) with (k1 + k2) by lia.
  rewrite Z.pow_add_r by lia.
  assert (0 < 2 ^ k1) by (apply Z.pow_pos_nonneg; lia).
  assert (0 < 2 ^ k2) by (apply Z.pow_pos_nonneg; lia).
  assert (2 ^ k2 * Z.pos m2 <= Z.pos r') as H2.
  { rewrite T1. apply Z.mul_div_le. lia. }
  assert (2 ^ k1 * shr_m mrs1 <= Z.pos m) as H1.
  { rewrite S1. apply Z.mul_div_le. lia. }
  nia.
Qed.

Lemma iter_xO_value m k : Z.pos (Pos.iter xO m k) = Z.pos m * 2 ^ Z.pos k.
Proof.
  induction k as [|k IH] using Pos.peano_ind.
  - simpl. lia.
  - rewrite Pos.iter_succ, Pos2Z.inj_xO, IH, Pos2Z.inj_succ, Z.pow_succ_r by lia. lia.
Qed.

(** The float of a positive integer below [2^53] is that integer. *)
Lemma float_of_int_exact z :
  0 < z < 2 ^ 53 ->
  exists m e,
    Prim2SF (float_of_int z) = S754_finite false m e
    /\ Z.pos (digits2_pos m) = 53 /\ -52 <= e <= 0
    /\ Z.pos m = z * 2 ^ (- e).
Proof.
  intros Hz. unfold float_of_int.
  destruct (Z.ltb_spec z 0); [lia|].
  rewrite Prim2SF_of_uint63 by (change (2 ^ 63) with (1024 * 2 ^ 53); lia).
  destruct z as [|r|r]; try lia.
  pose proof (digits2_le_of_lt r 53 ltac:(lia) (proj2 Hz)) as Hd.
  unfold binary_normalize, binary_round, shl_align, fexp.
  set (d := Z.pos (digits2_pos r)) in *.
  assert (0 < d) by (unfold d; lia).
  assert (Z.max (d + 0 - prec) emin64 = d - prec) as ->.
  { rewrite emin64_eq. unfold prec in *. lia. }
  rewrite Z.sub_0_r.
  destruct (d - prec) as [|n|n] eqn:En.
  - exists r, 0. split.
    + apply binary_round_aux_exact; [fold d; lia|]. rewrite emin64_eq. unfold prec, emax. lia.
    + fold d. unfold prec in En. repeat split; try lia.
  - unfold prec in *. lia.
  - exists (Pos.iter xO r n), (Z.neg n). split.
    + apply binary_round_aux_exact.
      * rewrite digits2_iter_xO. fold d. lia.
      * rewrite emin64_eq. unfold prec, emax in *. lia.
    + rewrite digits2_iter_xO. fold d. unfold prec in En.
      repeat split; try lia. rewrite iter_xO_value. reflexivity.
Qed.

(** A float that is not subnormal has a mantissa of 53 bits. *)
Lemma valid_normal s m e :
  valid_binary (S754_finite s m e) = true -> emin64 < e ->
  2 ^ 52 <= Z.pos m < 2 ^ 53.
Proof.
  cbn [SpecFloat.valid_binary]. unfold bounded, canonical_mantissa, fexp.
  intros [H _]%andb_prop He. apply Z.eqb_eq in H.
  rewrite emin64_eq in *.
  assert (Z.pos (digits2_pos m) = 53) as Hd by (unfold prec in H; lia).
  pose proof (digits2_lower m). pose proof (digits2_upper m).
  rewrite Hd in *. done.
Qed.

(** The quotient of two normal floats with moderate exponents. *)
Lemma SFdiv_upper mN eN mM eM :
  Z.pos (digits2_pos mN) = 53 -> Z.pos (digits2_pos mM) = 53 ->
  -100 <= eN <= 100 -> -100 <= eM <= 100 ->
  exists ms es,
    SFdiv prec emax (S754_finite false mN eN) (S754_finite false mM eM)
    = S754_finite false ms es
    /\ eN - eM - 53 <= es <= eN - eM - 51
    /\ 2 ^ (es - (eN - eM - 53)) * Z.pos ms * Z.pos mM
       <= Z.pos mN * 2 ^ 53 + 2 ^ (es - (eN - eM - 53)) * Z.pos mM.
Proof.
  intros HdN HdM HeN HeM. unfold SFdiv, SFdiv_core_binary.
  cbn [Zdigits2]. rewrite HdN, HdM.
  assert (fexp prec emax (53 + eN - (53 + eM)) = eN - eM - 53) as Hf.
  { unfold fexp. rewrite emin64_eq. unfold prec. lia. }
  rewrite Hf.
  assert (Z.min (eN - eM - 53) (eN - eM) = eN - eM - 53) as -> by lia.
  assert (eN - eM - (eN - eM - 53) = 53) as -> by lia.
  rewrite Z.shiftl_mul_pow2 by lia.
  pose proof (digits2_lower mN) as HlN. pose proof (digits2_upper mN) as HuN.
  pose proof (digits2_lower mM) as HlM. pose proof (digits2_upper mM) as HuM.
  rewrite HdN in *. rewrite HdM in *.
  change (2 ^ (53 - 1)) with (2 ^ 52) in *.
  set (a := Z.pos mN * 2 ^ 53).
  pose proof (Z.div_str_pos a (Z.pos mM)) as Hq.
  pose proof (Z.mul_div_le a (Z.pos mM) ltac:(lia)) as Hqm.
  assert (a / Z.pos mM < 2 ^ 54) as Hq54.
  { apply Z.div_lt_upper_bound; [lia|]. unfold a.
    change (2 ^ 54) with (2 ^ 52 * 4). change (2 ^ 53) with (2 ^ 52 * 2) in *. nia. }
  unfold Z.div in Hq, Hqm, Hq54.
  destruct (Z.div_eucl a (Z.pos mM)) as [q r]. cbn [fst] in *.
  assert (0 < q) as Hq' by (apply Hq; unfold a; change (2 ^ 53) with (2 ^ 52 * 2) in *; nia).
  destruct q as [|q|q]; try lia.
  rewrite xorb_false_r.
  destruct (binary_round_aux_upper false q (eN - eM - 53) (new_location (Z.pos mM) r))
    as (ms & es & E & He & Hb).
  { rewrite emin64_eq. lia. }
  { pose proof (digits2_le_of_lt q 54 ltac:(lia) Hq54). lia. }
  pose proof (digits2_le_of_lt q 54 ltac:(lia) Hq54) as Hdq.
  exists ms, es. split; [done|]. split; [lia|].
  assert (0 < 2 ^ (es - (eN - eM - 53))) by (apply Z.pow_pos_nonneg; lia).
  nia.
Qed.

(** The product of two normal floats with moderate exponents. *)
Lemma SFmul_upper mx ex ms es :
  Z.pos (digits2_pos mx) = 53 -> Z.pos (digits2_pos ms) = 53 ->
  -200 <= ex <= 100 -> -200 <= es <= 100 ->
  exists mp ep,
    SFmul prec emax (S754_finite false mx ex) (S754_finite false ms es)
    = S754_finite false mp ep
    /\ ex + es <= ep <= ex + es + 54
    /\ 2 ^ (ep - (ex + es)) * Z.pos mp
       <= Z.pos mx * Z.pos ms + 2 ^ (ep - (ex + es)).
Proof.
  intros Hdx Hds Hex Hes. unfold SFmul. rewrite xorb_false_r.
  pose proof (digits2_upper mx) as Hux. pose proof (digits2_upper ms) as Hus.
  rewrite Hdx in *. rewrite Hds in *.
  destruct (binary_round_aux_upper false (mx * ms) (ex + es) loc_Exact)
    as (mp & ep & E & He & Hb).
  { rewrite emin64_eq. lia. }
  { assert (Z.pos (digits2_pos (mx * ms)) <= 106); [|lia].
    apply digits2_le_of_lt; [lia|]. rewrite Pos2Z.inj_mul.
    change (2 ^ 106) with (2 ^ 53 * 2 ^ 53). nia. }
  assert (Z.pos (digits2_pos (mx * ms)) <= 106) as Hd106.
  { apply digits2_le_of_lt; [lia|]. rewrite Pos2Z.inj_mul.
    change (2 ^ 106) with (2 ^ 53 * 2 ^ 53). nia. }
  exists mp, ep. rewrite Pos2Z.inj_mul in Hb. split; [done|]. split; [lia|done].
Qed.

(** The rounding errors of the quotient and of the product do not carry the
    product to [n]; [T] stands for [2^52]. *)
Lemma decimation_arith T i M XI XM mx mM mN ms mp Us Up :
  16 <= T -> 0 < i < M -> 4 * M <= T ->
  1 <= XI -> 1 <= XM ->
  mx = i * XI -> mM = M * XM ->
  T <= mN < 2 * T -> T <= ms < 2 * T -> T <= mp < 2 * T ->
  1 <= Us -> 1 <= Up ->
  Us * ms * mM <= mN * (2 * T) + Us * mM ->
  Up * mp <= mx * ms + Up ->
  mp * Up * Us * XM < mN * XI * (2 * T).
Proof.
  intros HT Hi HM HXI HXM -> -> HmN Hms Hmp HUs HUp Hs Hp.
  assert (0 < i * XI) as HiXI by nia.
  assert (0 < M * XM) as HMXM by nia.
  (* the unit of the product is small *)
  assert (Up < 3 * (i * XI)) as HUp3.
  { destruct (Z.lt_ge_cases Up (3 * (i * XI))) as [|Hge]; [done|exfalso].
    assert (Up * (T - 1) <= Up * (mp - 1)) as H1
      by (apply Z.mul_le_mono_nonneg_l; lia).
    assert (i * XI * ms < i * XI * (2 * T)) as H2
      by (apply Z.mul_lt_mono_pos_l; lia).
    assert (3 * (i * XI) * (T - 1) <= Up * (T - 1)) as H3
      by (apply Z.mul_le_mono_nonneg_r; lia).
    assert (Up * (mp - 1) = Up * mp - Up) as H4 by ring.
    assert (3 * (i * XI) * (T - 1) = 3 * (i * XI * T) - 3 * (i * XI)) as H5 by ring.
    assert (i * XI * (2 * T) = 2 * (i * XI * T)) as H6 by ring.
    assert (i * XI * 16 <= i * XI * T) as H7
      by (apply Z.mul_le_mono_nonneg_l; lia).
    lia. }
  assert (i * XI + Up < XI * (ms - 1)) as H6.
  { assert (XI * (4 * i) <= XI * (ms - 1)) as H1
      by (apply Z.mul_le_mono_nonneg_l; lia).
    assert (XI * (4 * i) = 4 * (i * XI)) as H2 by ring. lia. }
  (* the unit of the quotient *)
  pose (W := Us * (M * XM)).
  assert (W = Us * (M * XM)) as HWd by reflexivity. clearbody W.
  assert (0 < W) as HW by (rewrite HWd; nia).
  assert (Us * ms * (M * XM) = W * ms) as H10 by (rewrite HWd; ring).
  rewrite H10, <- HWd in Hs.
  assert (W * (ms - 1) <= mN * (2 * T)) as Hs'.
  { assert (W * (ms - 1) = W * ms - W) as H2 by ring. lia. }
  assert (0 < mN * (2 * T)) as HmNT by nia.
  assert ((i * XI + Up) * W < XI * (mN * (2 * T))) as H7.
  { apply (Z.mul_lt_mono_pos_r (ms - 1)); [lia|].
    assert ((i * XI + Up) * W * (ms - 1) = (i * XI + Up) * (W * (ms - 1))) as -> by ring.
    assert ((i * XI + Up) * (W * (ms - 1)) <= (i * XI + Up) * (mN * (2 * T))) as H1
      by (apply Z.mul_le_mono_nonneg_l; lia).
    assert ((i * XI + Up) * (mN * (2 * T)) < XI * (ms - 1) * (mN * (2 * T))) as H2
      by (apply Z.mul_lt_mono_pos_r; lia).
    assert (XI * (mN * (2 * T)) * (ms - 1) = XI * (ms - 1) * (mN * (2 * T))) as -> by ring.
    lia. }
  (* the product itself *)
  apply (Z.mul_lt_mono_pos_r M); [lia|].
  assert (mp * Up * Us * XM * M = (Up * mp) * W) as -> by (rewrite HWd; ring).
  assert (Up * mp * W <= (i * XI * ms + Up) * W) as H8
    by (apply Z.mul_le_mono_nonneg_r; lia).
  assert ((i * XI * ms + Up) * W = i * XI * (W * ms) + Up * W) as H9 by ring.
  assert (i * XI * (W * ms) <= i * XI * (mN * (2 * T) + W)) as H11
    by (apply Z.mul_le_mono_nonneg_l; lia).
  assert (i * XI * (mN * (2 * T) + W) = i * (XI * (mN * (2 * T))) + i * XI * W) as H12 by ring.
  assert ((i * XI + Up) * W = i * XI * W + Up * W) as H13 by ring.
  assert (mN * XI * (2 * T) * M = M * (XI * (mN * (2 * T)))) as -> by ring.
  assert (0 < XI * (mN * (2 * T))) as H14 by nia.
  assert ((i + 1) * (XI * (mN * (2 * T))) <= M * (XI * (mN * (2 * T)))) as H15
    by (apply Z.mul_le_mono_nonneg_r; lia).
  assert ((i + 1) * (XI * (mN * (2 * T))) = i * (XI * (mN * (2 * T))) + XI * (mN * (2 * T)))
    as H16 by ring.
  lia.
Qed.

Lemma int_of_float_finite x m e a :
  Prim2SF x = S754_finite false m e ->
  a = (if 0 <=? e then Z.pos m * 2 ^ e else Z.pos m / 2 ^ (- e)) ->
  0 <= a <= maxDuration ->
  int_of_float x = a.
Proof.
  intros Hx -> Ha. unfold int_of_float, Duration_of_float. rewrite Hx.
  cbv zeta.
  destruct (Z.ltb_spec (if 0 <=? e then Z.pos m * 2 ^ e else Z.pos m / 2 ^ (- e)) minDuration)
    as [Hlt|_]; [unfold minDuration in Hlt; lia|].
  destruct (Z.ltb_spec maxDuration (if 0 <=? e then Z.pos m * 2 ^ e else Z.pos m / 2 ^ (- e)))
    as [Hlt|_]; [lia|]. done.
Qed.

Lemma step_finite n M :
  0 < M < 2 ^ 53 -> 0 < n < 2 ^ 53 ->
  exists mN eN mM eM ms es,
    Prim2SF (float_of_int n) = S754_finite false mN eN
    /\ Prim2SF (float_of_int M) = S754_finite false mM eM
    /\ Prim2SF (PrimFloat.div (float_of_int n) (float_of_int M))
       = S754_finite false ms es
    /\ (-52 <= eN <= 0 /\ Z.pos mN = n * 2 ^ (- eN) /\ 2 ^ 52 <= Z.pos mN < 2 ^ 53)
    /\ (-52 <= eM <= 0 /\ Z.pos mM = M * 2 ^ (- eM) /\ 2 ^ 52 <= Z.pos mM < 2 ^ 53)
    /\ eN - eM - 53 <= es <= eN - eM - 51
    /\ 2 ^ 52 <= Z.pos ms < 2 ^ 53
    /\ 2 ^ (es - (eN - eM - 53)) * Z.pos ms * Z.pos mM
       <= Z.pos mN * 2 ^ 53 + 2 ^ (es - (eN - eM - 53)) * Z.pos mM.
Proof.
  intros HM Hn.
  destruct (float_of_int_exact n Hn) as (mN & eN & EN & HdN & HeN & HvN).
  destruct (float_of_int_exact M HM) as (mM & eM & EM & HdM & HeM & HvM).
  destruct (SFdiv_upper mN eN mM eM HdN HdM) as (ms & es & Es & Hes & Hs); [lia..|].
  exists mN, eN, mM, eM, ms, es.
  assert (Prim2SF (PrimFloat.div (float_of_int n) (float_of_int M))
          = S754_finite false ms es) as Estep.
  { rewrite div_spec, EN, EM. exact Es. }
  pose proof (Prim2SF_valid (PrimFloat.div (float_of_int n) (float_of_int M))) as Hv.
  rewrite Estep in Hv.
  pose proof (digits2_lower mN) as L1. pose proof (digits2_upper mN) as U1.
  pose proof (digits2_lower mM) as L2. pose proof (digits2_upper mM) as U2.
  rewrite HdN in *. rewrite HdM in *. change (2 ^ (53 - 1)) with (2 ^ 52) in *.
  repeat split; try done; try lia.
  - apply (valid_normal false ms es Hv). rewrite emin64_eq. lia.
  - apply (valid_normal false ms es Hv). rewrite emin64_eq. lia.
Qed.

(** The index the decimation loop computes is inside the buffer. *)
Lemma decimation_index_bound n M i :
  0 <= i < M -> M < n -> M <= 2 ^ 50 -> n < 2 ^ 53 ->
  0 <= decimation_index (decimation_step n M) i < n
  /\ (i = 0 -> decimation_index (decimation_step n M) i = 0).
Proof.
  intros Hi HMn HM Hn.
  assert (0 < M < 2 ^ 53) as HM'.
  { change (2 ^ 53) with (8 * 2 ^ 50). lia. }
  destruct (step_finite n M HM' ltac:(lia))
    as (mN & eN & mM & eM & ms & es & EN & EM & Es
        & (HeN & HvN & HmN) & (HeM & HvM & HmM) & Hes & Hms & Hs).
  unfold decimation_index, decimation_step.
  destruct (Z.eq_dec i 0) as [->|Hi0].
  - assert (int_of_float (PrimFloat.mul (float_of_int 0)
              (PrimFloat.div (float_of_int n) (float_of_int M))) = 0) as ->.
    { unfold int_of_float, Duration_of_float.
      rewrite mul_spec, float_of_int_zero, Es. reflexivity. }
    split; [lia | done].
  - split; [|lia].
    destruct (float_of_int_exact i) as (mx & ex & EX & Hdx & Hex & Hvx).
    { change (2 ^ 53) with (8 * 2 ^ 50). lia. }
    assert (Z.pos (digits2_pos ms) = 53) as Hds by (apply digits2_of_bounds; [lia|done]).
    destruct (SFmul_upper mx ex ms es Hdx Hds) as (mp & ep & Ep & Hep & Hp); [lia..|].
    set (p := PrimFloat.mul (float_of_int i)
                (PrimFloat.div (float_of_int n) (float_of_int M))).
    assert (Prim2SF p = S754_finite false mp ep) as Ep'.
    { unfold p. rewrite mul_spec, EX, Es. exact Ep. }
    pose proof (Prim2SF_valid p) as Hv. rewrite Ep' in Hv.
    assert (2 ^ 52 <= Z.pos mp < 2 ^ 53) as Hmp.
    { apply (valid_normal false mp ep Hv). rewrite emin64_eq. lia. }
    pose proof (digits2_lower mx) as L1. pose proof (digits2_upper mx) as U1.
    rewrite Hdx in *. change (2 ^ (53 - 1)) with (2 ^ 52) in *.
    set (Us := 2 ^ (es - (eN - eM - 53))) in *.
    set (Up := 2 ^ (ep - (ex + es))) in *.
    assert (1 <= Us) as HUs.
    { unfold Us. change 1 with (2 ^ 0). apply Z.pow_le_mono_r; lia. }
    assert (1 <= Up) as HUp.
    { unfold Up. change 1 with (2 ^ 0). apply Z.pow_le_mono_r; lia. }
    assert (1 <= 2 ^ (- ex)) as HXI.
    { change 1 with (2 ^ 0). apply Z.pow_le_mono_r; lia. }
    assert (1 <= 2 ^ (- eM)) as HXM.
    { change 1 with (2 ^ 0). apply Z.pow_le_mono_r; lia. }
    pose proof (decimation_arith (2 ^ 52) i M (2 ^ (- ex)) (2 ^ (- eM))
                  (Z.pos mx) (Z.pos mM) (Z.pos mN) (Z.pos ms) (Z.pos mp) Us Up) as Har.
    change (2 * 2 ^ 52) with (2 ^ 53) in Har.
    assert (Z.pos mp * Up * Us * 2 ^ (- eM) < Z.pos mN * 2 ^ (- ex) * 2 ^ 53) as Hlt.
    { apply Har; try done; lia. }
    clear Har.
    (* back to the value of the product *)
    assert (Up * Us * 2 ^ (- eM) = 2 ^ (ep - ex - eN + 53)) as Ha.
    { unfold Up, Us. rewrite <- !Z.pow_add_r by lia. f_equal. lia. }
    assert (Z.pos mN * 2 ^ (- ex) * 2 ^ 53 = n * 2 ^ (53 - eN - ex)) as Hb.
    { rewrite HvN. rewrite <- !Z.mul_assoc, <- !Z.pow_add_r by lia. do 2 f_equal. lia. }
    assert (Z.pos mp * 2 ^ (ep - ex - eN + 53) < n * 2 ^ (53 - eN - ex)) as Hlt'.
    { rewrite <- Ha, <- Hb. lia. }
    set (a := if 0 <=? ep then Z.pos mp * 2 ^ ep else Z.pos mp / 2 ^ (- ep)).
    assert (0 <= a < n) as Hrange.
    { unfold a. destruct (Z.leb_spec 0 ep).
      - replace (ep - ex - eN + 53) with (ep + (53 - eN - ex)) in Hlt' by lia.
        rewrite (Z.pow_add_r 2 ep (53 - eN - ex)) in Hlt' by lia.
        assert (0 < 2 ^ (53 - eN - ex)) by (apply Z.pow_pos_nonneg; lia).
        assert (0 < 2 ^ ep) by (apply Z.pow_pos_nonneg; lia).
        split; [lia|].
        apply (Z.mul_lt_mono_pos_r (2 ^ (53 - eN - ex))); [done|].
        by rewrite <- Z.mul_assoc.
      - replace (53 - eN - ex) with ((- ep) + (ep - ex - eN + 53)) in Hlt' by lia.
        rewrite (Z.pow_add_r 2 (- ep) (ep - ex - eN + 53)) in Hlt' by lia.
        assert (0 < 2 ^ (ep - ex - eN + 53)) by (apply Z.pow_pos_nonneg; lia).
        assert (0 < 2 ^ (- ep)) by (apply Z.pow_pos_nonneg; lia).
        split; [apply Z.div_pos; lia|].
        apply Z.div_lt_upper_bound; [lia|].
        apply (Z.mul_lt_mono_pos_r (2 ^ (ep - ex - eN + 53))); [done|].
        by rewrite (Z.mul_comm (2 ^ (- ep)) n), <- Z.mul_assoc. }
    rewrite (int_of_float_finite p mp ep a Ep' eq_refl); [done|].
    unfold maxDuration. change (2 ^ 63) with (1024 * 2 ^ 53). lia.
Qed.

Lemma decimate_picks {A} (samples : list A) step : forall todo i dst,
  (forall j, i <= j < i + Z.of_nat todo ->
     0 <= decimation_index step j < len samples) ->
  exists picks,
    decimate samples step i todo dst = Some (dst ++ picks)
    /\ length picks = todo
    /\ Forall (fun x => x ∈ samples) picks
    /\ (todo <> O -> head picks = index samples (decimation_index step i)).
Proof.
  induction todo as [|todo IH]; intros i dst Hidx; simpl.
  - exists []. rewrite app_nil_r. repeat split; [constructor | done].
  - destruct (Hidx i ltac:(lia)) as [H0 Hn].
    destruct (Z.ltb_spec (decimation_index step i) (len samples)); [|lia].
    destruct (index_lt samples (decimation_index step i)) as [x Hx]; [lia|].
    rewrite Hx. simpl.
    destruct (IH (i + 1) (dst ++ [x])) as (picks & E & Hl & Hin & _).
    { intros j Hj. apply Hidx. lia. }
    exists (x :: picks). rewrite E, <- app_assoc. simpl.
    repeat split; try done; [by rewrite Hl|].
    constructor; [|done]. apply index_Some in Hx as [_ Hx].
    by eapply list_elem_of_lookup_2.
Qed.

(** X15: [DownsampleSamples] and [DownsampleDerivatives], for fewer than
    [2^53] elements and [maxPoints] at most [2^50], never panic and return
    exactly [min(len, max(0, maxPoints))] elements, each an element of the
    input: the input itself when it has at most [maxPoints] elements, and
    otherwise [maxPoints] elements starting with the first one (no index
    [int(float64(i) * step)] falls outside the input). The destination is
    reused whenever its capacity suffices. *)
Theorem downsample_returns_maxPoints {A} (dstCap : Z) (samples : list A)
    (maxPoints : Z) :
  len samples < 2 ^ 53 -> maxPoints <= 2 ^ 50 ->
  exists dst cap,
    downsample dstCap samples maxPoints = Some (dst, cap)
    /\ len dst = Z.min (len samples) (Z.max 0 maxPoints)
    /\ (forall x, x ∈ dst -> x ∈ samples)
    /\ (len samples <= maxPoints -> dst = samples)
    /\ (0 < maxPoints -> head dst = head samples)
    /\ (Z.min (len samples) maxPoints <= dstCap -> cap = dstCap).
Proof.
  intros Hn HM. unfold downsample.
  pose proof (len_nonneg samples) as Hn0.
  destruct (Z.leb_spec (len samples) maxPoints) as [Hle|Hgt].
  - eexists _, _. split; [reflexivity|]. repeat split; try done; try lia.
    intros Hc. destruct (Z.leb_spec (len samples) dstCap); lia.
  - destruct (decimate_picks samples (decimation_step (len samples) maxPoints)
               (Z.to_nat maxPoints) 0 []) as (picks & E & Hl & Hin & Hh).
    { intros j Hj. apply decimation_index_bound; lia. }
    rewrite E. simpl. exists picks, (if maxPoints <=? dstCap then dstCap else maxPoints).
    split; [done|]. repeat split.
    + unfold len at 1. rewrite Hl. lia.
    + intros x Hx. rewrite Forall_forall in Hin. by apply Hin.
    + lia.
    + intros Hpos. rewrite Hh by lia.
      destruct (decimation_index_bound (len samples) maxPoints 0) as [_ ->]; try lia.
      by destruct samples.
    + intros Hc. destruct (Z.leb_spec maxPoints dstCap); lia.
Qed.

Lemma downsample_returns_maxPoints_witness :
  exists dst cap,
    downsample 4 [at_ms 0 0; at_ms 100 1; at_ms 200 2; at_ms 300 3; at_ms 400 4] 3
    = Some (dst, cap)
    /\ len dst
       = Z.min (len [at_ms 0 0; at_ms 100 1; at_ms 200 2; at_ms 300 3; at_ms 400 4])
               (Z.max 0 3)
    /\ (forall x, x ∈ dst ->
          x ∈ [at_ms 0 0; at_ms 100 1; at_ms 200 2; at_ms 300 3; at_ms 400 4])
    /\ (len [at_ms 0 0; at_ms 100 1; at_ms 200 2; at_ms 300 3; at_ms 400 4] <= 3 ->
        dst = [at_ms 0 0; at_ms 100 1; at_ms 200 2; at_ms 300 3; at_ms 400 4])
    /\ (0 < 3 ->
        head dst
        = head [at_ms 0 0; at_ms 100 1; at_ms 200 2; at_ms 300 3; at_ms 400 4])
    /\ (Z.min (len [at_ms 0 0; at_ms 100 1; at_ms 200 2; at_ms 300 3; at_ms 400 4])
              3 <= 4 -> cap = 4).
Proof.
  apply (downsample_returns_maxPoints 4
           [at_ms 0 0; at_ms 100 1; at_ms 200 2; at_ms 300 3; at_ms 400 4] 3).
  - by_computation.
  - by_computation.
Defined.

(** ** Pulses on the scope

    [UpdateData] stores the pulses of the meter next to the decimated
    samples, and [Refresh] passes both to [drawPulses] and
    [drawPowerLabels]. *)

Lemma pulse_span_own ss p :
  times_ok ss p -> pulse_span ss p = Some (StartTime p, EndTime p).
Proof.
  intros (H1 & H2). unfold pulse_span.
  pose proof (index_fmap_bound _ _ _ _ H1) as B1.
  pose proof (index_fmap_bound _ _ _ _ H2) as B2.
  destruct (Z.ltb_spec (StartIndex p) 0); [lia|].
  destruct (Z.leb_spec (len ss) (StartIndex p)); [lia|].
  destruct (Z.ltb_spec (EndIndex p) 0); [lia|].
  destruct (Z.leb_spec (len ss) (EndIndex p)); [lia|]. simpl.
  destruct (index ss (StartIndex p)) as [s0|]; [|done].
  destruct (index ss (EndIndex p)) as [s1|]; [|done].
  simpl in *. congruence.
Qed.

(** X16: while the buffer of the meter has at most [maxPoints] samples,
    [DownsampleSamples] hands the scope the buffer itself, and every pulse
    of the meter passes the index guards of [drawPulses] and
    [drawPowerLabels] and is drawn between its own [StartTime] and
    [EndTime]. *)
Theorem undecimated_display_draws_every_pulse
    (m0 : Meter) (input : list Sample) (dstCap maxPoints : Z) :
  fresh m0 ->
  exists m,
    state_after input m0 = Some m
    /\ (len (Samples m) <= maxPoints ->
        exists cap,
          DownsampleSamples dstCap (Samples m) maxPoints = Some (Samples m, cap)
          /\ forall p, p ∈ Pulses m ->
               pulse_span (Samples m) p = Some (StartTime p, EndTime p)).
Proof.
  intros Hf. destruct (process_all_total input m0) as (m & t & E & _).
  exists m. unfold state_after. rewrite E. split; [done|].
  intros Hle. unfold DownsampleSamples, downsample.
  destruct (Z.leb_spec (len (Samples m)) maxPoints); [|lia].
  eexists. split; [reflexivity|].
  destruct (state_after_consistent input m0 m) as (_ & Hwf & _);
    [unfold state_after; by rewrite E | by apply fresh_consistent |].
  intros p Hp. rewrite Forall_forall in Hwf.
  destruct (Hwf p Hp) as (Ht & _). by apply pulse_span_own.
Qed.

Lemma undecimated_display_draws_every_pulse_witness :
  exists m,
    state_after [at_ms 0 0; at_ms 1000 1; at_ms 2000 2; at_ms 3000 2]
                (New (config_with_window 10)) = Some m
    /\ (len (Samples m) <= 1000 ->
        exists cap,
          DownsampleSamples 1000 (Samples m) 1000 = Some (Samples m, cap)
          /\ forall p, p ∈ Pulses m ->
               pulse_span (Samples m) p = Some (StartTime p, EndTime p)).
Proof.
  apply (undecimated_display_draws_every_pulse (New (config_with_window 10))
           [at_ms 0 0; at_ms 1000 1; at_ms 2000 2; at_ms 3000 2] 1000 1000).
  repeat split.
Defined.

(** X17: once the buffer of the meter has more than [maxPoints] samples
    the scope draws against the [maxPoints] decimated samples, while the
    indices of the pulses still refer to the full buffer: a pulse that ends
    at index [maxPoints] or later, which read against the buffer gives its
    own times, fails the guard of [drawPulses] and [drawPowerLabels] and is
    not drawn. *)
Theorem decimated_display_skips_late_pulses
    (m0 : Meter) (input : list Sample) (dstCap maxPoints : Z) :
  fresh m0 -> 0 < maxPoints <= 2 ^ 50 ->
  exists m,
    state_after input m0 = Some m
    /\ (maxPoints < len (Samples m) < 2 ^ 53 ->
        exists display cap,
          DownsampleSamples dstCap (Samples m) maxPoints = Some (display, cap)
          /\ len display = maxPoints
          /\ forall p, p ∈ Pulses m -> maxPoints <= EndIndex p ->
               pulse_span (Samples m) p = Some (StartTime p, EndTime p)
               /\ pulse_span display p = None).
Proof.
  intros Hf HM. destruct (process_all_total input m0) as (m & t & E & _).
  exists m. unfold state_after. rewrite E. split; [done|].
  intros Hn. unfold DownsampleSamples, downsample.
  destruct (Z.leb_spec (len (Samples m)) maxPoints); [lia|].
  destruct (decimate_picks (Samples m) (decimation_step (len (Samples m)) maxPoints)
              (Z.to_nat maxPoints) 0 []) as (picks & Ed & Hl & _).
  { intros j Hj. apply decimation_index_bound; lia. }
  rewrite Ed. simpl. eexists _, _. split; [reflexivity|].
  assert (len picks = maxPoints) as Hlen by (unfold len; rewrite Hl; lia).
  split; [done|]. intros p Hp Hlate. split.
  - destruct (state_after_consistent input m0 m) as (_ & Hwf & _);
      [unfold state_after; by rewrite E | by apply fresh_consistent |].
    rewrite Forall_forall in Hwf. destruct (Hwf p Hp) as (Ht & _).
    by apply pulse_span_own.
  - unfold pulse_span. rewrite Hlen.
    destruct ((StartIndex p <? 0) || (maxPoints <=? StartIndex p)); [done|].
    destruct (Z.ltb_spec (EndIndex p) 0); [done|].
    destruct (Z.leb_spec maxPoints (EndIndex p)); [done|lia].
Qed.

Lemma decimated_display_skips_late_pulses_witness :
  exists m,
    state_after [at_ms 0 0; at_ms 1000 1; at_ms 2000 2; at_ms 3000 2]
                (New (config_with_window 10)) = Some m
    /\ (2 < len (Samples m) < 2 ^ 53 ->
        exists display cap,
          DownsampleSamples 0 (Samples m) 2 = Some (display, cap)
          /\ len display = 2
          /\ forall p, p ∈ Pulses m -> 2 <= EndIndex p ->
               pulse_span (Samples m) p = Some (StartTime p, EndTime p)
               /\ pulse_span display p = None).
Proof.
  apply (decimated_display_skips_late_pulses (New (config_with_window 10))
           [at_ms 0 0; at_ms 1000 1; at_ms 2000 2; at_ms 3000 2] 0 2).
  - repeat split.
  - by_computation.
Defined.

(** The run of the witness above has such a pulse: it spans the samples 0 to
    2 of the buffer, and the display of two points does not show it. *)
Lemma late_pulse_run :
  exists m p display cap,
    state_after [at_ms 0 0; at_ms 1000 1; at_ms 2000 2; at_ms 3000 2]
                (New (config_with_window 10)) = Some m
    /\ Pulses m = [p] /\ StartIndex p = 0 /\ EndIndex p = 2
    /\ DownsampleSamples 0 (Samples m) 2 = Some (display, cap)
    /\ pulse_span (Samples m) p = Some (0, 2000 * ms)
    /\ pulse_span display p = None.
Proof.
  do 4 eexists. split; [vm_compute; reflexivity|]. by_computation.
Qed.

(** ** Callbacks across connections *)

Lemma connection_calls cb input m :
  exists m1 t,
    connection cb input m = Some (m1, t)
    /\ live_callbacks m1 = live_callbacks m ++ [cb]
    /\ callee <$> t
       = mjoin (replicate (length input) (live_callbacks m ++ [cb])).
Proof.
  unfold connection, ProcessSamples.
  destruct (process_all_calls input (OnUpdate (Some cb) (ResetShutdown m)))
    as (m1 & t & -> & _ & Hc & Ht).
  simpl in *. exists (set_shutdown true m1), t. split; [done|].
  assert (live_callbacks (OnUpdate (Some cb) (ResetShutdown m))
          = live_callbacks m ++ [cb]) as Hl.
  { unfold live_callbacks. simpl. by rewrite omap_app. }
  split; [|by rewrite Ht, Hl].
  rewrite <- Hl. unfold live_callbacks. simpl. by rewrite Hc.
Qed.

(** X18: callbacks are never removed. After any number of connections on
    the same meter, each registering its callback as [handleConnect] does,
    every sample of connection [j] invokes, in order, the callbacks that
    were registered before the first connection and those of the
    connections [0] to [j]: the callbacks of earlier connections are still
    invoked. *)
Theorem callbacks_accumulate_over_connections
    (runs : list (Callback * list Sample)) (m : Meter) :
  exists m' ts,
    connections runs m = Some (m', ts)
    /\ length ts = length runs
    /\ live_callbacks m' = live_callbacks m ++ (fst <$> runs)
    /\ forall j cb input t,
         runs !! j = Some (cb, input) -> ts !! j = Some t ->
         callee <$> t
         = mjoin (replicate (length input)
                    (live_callbacks m ++ take (S j) (fst <$> runs))).
Proof.
  revert m. induction runs as [|[cb input] rest IH]; intros m.
  - exists m, []. simpl. rewrite app_nil_r. by repeat split.
  - simpl. destruct (connection_calls cb input m) as (m1 & t & -> & Hl & Ht).
    simpl. destruct (IH m1) as (m2 & ts & -> & Hn & Hl2 & Hts). simpl.
    exists m2, (t :: ts). split; [done|]. split; [simpl; by rewrite Hn|]. split.
    + by rewrite Hl2, Hl, <- app_assoc.
    + intros [|j] cb' input' t' Hr Ht'; simpl in *.
      * injection Hr as <- <-. injection Ht' as <-. by rewrite take_0.
      * rewrite (Hts j cb' input' t' Hr Ht'), Hl, <- app_assoc. done.
Qed.

(** ** The sign of the heater power

    [calculateHeaterPower] adds quotients [voltage * voltage / resistance]
    with [resistance > 0] to [0.0]: at every step the sign bit stays clear
    unless the value is a NaN. *)

Lemma binary_round_aux_unsigned mx ex lx :
  unsigned (binary_round_aux prec emax false mx ex lx).
Proof.
  unfold binary_round_aux.
  destruct (shr_fexp prec emax mx ex lx) as [mrs e'].
  destruct (shr_fexp prec emax _ e' loc_Exact) as [mrs' e''].
  destruct (shr_m mrs'); [done| |done].
  by destruct (e'' <=? emax - prec).
Qed.

Lemma SFmul_self_unsigned x : unsigned (SFmul prec emax x x).
Proof.
  destruct x as [s|s| |s m e]; simpl; try done; try by destruct s.
  replace (xorb s s) with false by (by destruct s).
  apply binary_round_aux_unsigned.
Qed.

Lemma SFdiv_unsigned x y :
  unsigned x -> unsigned y -> unsigned (SFdiv prec emax x y).
Proof.
  destruct x as [sx|sx| |sx mx ex], y as [sy|sy| |sy my ey]; simpl;
    try done; try (by intros -> ->).
  intros -> ->. simpl.
  destruct (SFdiv_core_binary prec emax (Z.pos mx) ex (Z.pos my) ey) as [[mz ez] lz].
  apply binary_round_aux_unsigned.
Qed.

Lemma binary_round_unsigned mx ex :
  unsigned (binary_round prec emax false mx ex).
Proof.
  unfold binary_round. destruct (shl_align mx ex _) as [mz ez].
  apply binary_round_aux_unsigned.
Qed.

Lemma SFadd_unsigned x y :
  unsigned x -> unsigned y -> unsigned (SFadd prec emax x y).
Proof.
  destruct x as [sx|sx| |sx mx ex], y as [sy|sy| |sy my ey]; simpl;
    try done; try (by intros -> ->).
  intros -> ->. simpl. apply binary_round_unsigned.
Qed.

Lemma positive_unsigned x :
  PrimFloat.ltb 0 x = true -> unsigned (Prim2SF x).
Proof.
  rewrite ltb_spec. unfold SFltb. change (Prim2SF 0) with (S754_zero false).
  destruct (Prim2SF x) as [s|s| |s m e]; simpl; try done; by destruct s.
Qed.

Lemma unsigned_not_negative x :
  unsigned (Prim2SF x) -> PrimFloat.ltb x 0 = false.
Proof.
  rewrite ltb_spec. unfold SFltb. change (Prim2SF 0) with (S754_zero false).
  destruct (Prim2SF x) as [s|s| |s m e]; simpl; try done; by intros ->.
Qed.

Lemma add_heater_unsigned v on h t :
  unsigned (Prim2SF t) -> unsigned (Prim2SF (add_heater v on h t)).
Proof.
  intros Ht. unfold add_heater. destruct on; [|done].
  destruct (PrimFloat.ltb 0 (config.Resistance h)) eqn:E; [|done].
  rewrite add_spec, div_spec, mul_spec. apply SFadd_unsigned; [done|].
  apply SFdiv_unsigned; [apply SFmul_self_unsigned | by apply positive_unsigned].
Qed.

Lemma calculateHeaterPower_unsigned v h1 h2 h3 heaters :
  unsigned (Prim2SF (calculateHeaterPower v h1 h2 h3 heaters)).
Proof.
  unfold calculateHeaterPower.
  destruct heaters as [|a [|b [|c r]]]; try done.
  by do 3 apply add_heater_unsigned.
Qed.

Lemma fold_add_unsigned (field : Sample -> float) l : forall acc,
  unsigned (Prim2SF acc) ->
  Forall (fun s => unsigned (Prim2SF (field s))) l ->
  unsigned (Prim2SF (fold_left (fun sum s => PrimFloat.add sum (field s)) l acc)).
Proof.
  induction l as [|a l IH]; intros acc Ha Hl; [done|].
  inversion Hl as [|? ? H1 H2]; subst. simpl. apply IH; [|done].
  rewrite add_spec. by apply SFadd_unsigned.
Qed.

Lemma float_of_int_unsigned i : 0 <= i -> unsigned (Prim2SF (float_of_int i)).
Proof.
  intros Hi. unfold float_of_int. destruct (Z.ltb_spec i 0); [lia|].
  rewrite of_uint63_spec. unfold binary_normalize.
  pose proof (Uint63.to_Z_bounded (Uint63.of_Z i)) as Hb.
  destruct (Uint63.to_Z (Uint63.of_Z i)); [done| |lia].
  apply binary_round_unsigned.
Qed.

Lemma average_unsigned l :
  Forall (fun s => unsigned (Prim2SF (HeaterPower s))) l ->
  unsigned (Prim2SF (HeaterPower (averageConvertedSamples l))).
Proof.
  intros Hl. unfold averageConvertedSamples.
  destruct (last l); [|done]. simpl. rewrite div_spec.
  apply SFdiv_unsigned.
  - by apply fold_add_unsigned.
  - apply float_of_int_unsigned. unfold len. lia.
Qed.

(** X19: whatever the configuration (resistances, divider values and
    reference voltage, NaN included) and the raw sample, the heater power of
    a converted sample is never below zero, and neither is the heater power
    of the average of converted samples. *)
Theorem heater_power_is_never_negative (cfg : config.Config) :
  (forall raw, PrimFloat.ltb (HeaterPower (convertSample cfg raw)) 0 = false)
  /\ (forall raws,
        PrimFloat.ltb
          (HeaterPower (averageConvertedSamples (map (convertSample cfg) raws)))
          0 = false).
Proof.
  split.
  - intros raw. apply unsigned_not_negative, calculateHeaterPower_unsigned.
  - intros raws. apply unsigned_not_negative, average_unsigned.
    apply Forall_forall. intros s Hs. apply list_elem_of_fmap in Hs as (raw & -> & _).
    apply calculateHeaterPower_unsigned.
Qed.
